(** * Shared-haplotype segment detection: a shallow embedding

    The development follows [graphs_for_true_matches.py], the part of the
    repository that holds the streaming clustering and segmentation engine
    ([variant_carriers], [all_shared_homozygous], [overlaps_gene_region],
    [is_ultra_rare_variant], [flush_cluster] and the loop of [main]).

    Python values are modelled as follows: [int] as [Z], indices produced
    by [enumerate] and the members of carrier sets as [nat], [str] as
    [string], [set] as [gset], [Counter] as [gmap nat nat], [None]-able
    values as [option], and binary64 floats as [spec_float] with the
    operations of the standard library's IEEE 754 specification. *)

From Stdlib Require Import ZArith String Ascii List Lia Permutation.
From Stdlib Require Import Floats.SpecFloat.
From stdpp Require Import gmap strings list sorting.

Local Open Scope string_scope.
Local Open Scope Z_scope.

(** ** Python string helpers *)

Module PyStr.

(** [c in chars] for a character [c] and a string [chars]. *)
Fixpoint mem (c : ascii) (chars : string) : bool :=
  match chars with
  | EmptyString => false
  | String d rest => if Ascii.eqb c d then true else mem c rest
  end.

(** [s.lstrip(chars)]: drops the longest prefix of [s] made of characters
    that occur in [chars]; [chars] is a set of characters, not a prefix. *)
Fixpoint lstrip (chars : string) (s : string) : string :=
  match s with
  | EmptyString => EmptyString
  | String c rest => if mem c chars then lstrip chars rest else s
  end.

(** [s.split(sep)] for a one-character separator: every occurrence of
    [sep] cuts, empty pieces are kept, and the empty string gives [['']]. *)
Fixpoint split (sep : ascii) (s : string) : list string :=
  match s with
  | EmptyString => [EmptyString]
  | String c rest =>
      if Ascii.eqb c sep then EmptyString :: split sep rest
      else match split sep rest with
           | [] => [String c EmptyString]
           | w :: ws => String c w :: ws
           end
  end.

(** Removal of a literal prefix, the operation [str.removeprefix]; the
    program never calls it, it is what "removing the prefix" means. *)
Definition removeprefix (p s : string) : string :=
  if String.prefix p s then String.substring (String.length p) (String.length s - String.length p) s
  else s.

End PyStr.

(** ** Gene regions *)

(** One row of the gene table read by [pd.read_csv(args.regions)], after
    [str(row["chromosome_name"])], [int(row["start_position"])] and
    [int(row["end_position"])]. *)
Record GeneRow := {
  chromosome_name : string;
  start_position : Z;
  end_position : Z
}.

(** A loaded region: the tuple [(chromosome, padded_start, padded_end)]. *)
Definition GeneRegion : Type := string * Z * Z.

Definition BUFFER : Z := 10000.

(** One element of the list comprehension that builds [gene_regions]. *)
Definition load_gene_region (row : GeneRow) : GeneRegion :=
  (PyStr.lstrip "chr" (chromosome_name row),
   Z.max 0 (start_position row - BUFFER),
   end_position row + BUFFER).

Definition load_gene_regions (rows : list GeneRow) : list GeneRegion :=
  map load_gene_region rows.

(** [overlaps_gene_region]: the first region on the stripped chromosome
    that is not disjoint from [start, end] makes the loop return [True]. *)
Fixpoint overlaps_gene_region (chrom : string) (start end_ : Z)
    (regions : list GeneRegion) : bool :=
  match regions with
  | [] => false
  | (region_chrom, region_start, region_end) :: rest =>
      if String.eqb (PyStr.lstrip "chr" chrom) region_chrom
         && negb ((end_ <? region_start) || (start >? region_end))
      then true
      else overlaps_gene_region chrom start end_ rest
  end.

(** The gene-region test as the specification words it, for comparison
    with [overlaps_gene_region]: some region on the chromosome of the block,
    named without its "chr" prefix, is not disjoint from [start, end]. The
    program does not contain this function. *)
Definition overlaps_gene_region_as_specified (chrom : string) (start end_ : Z)
    (regions : list GeneRegion) : bool :=
  existsb (fun '(region_chrom, region_start, region_end) =>
             String.eqb (PyStr.removeprefix "chr" chrom) region_chrom
             && negb ((end_ <? region_start) || (start >? region_end)))
          regions.

(** ** Python list helpers *)

Module PyList.

(** [enumerate(l)], with the running index made explicit. *)
Fixpoint enumerate_from {A : Type} (k : nat) (l : list A) : list (nat * A) :=
  match l with
  | [] => []
  | x :: rest => (k, x) :: enumerate_from (S k) rest
  end.

Definition enumerate {A : Type} (l : list A) : list (nat * A) :=
  enumerate_from 0 l.

(** [l[i]] for a Python integer [i]: a negative index counts from the
    end; [None] stands for [IndexError]. *)
Definition index {A : Type} (l : list A) (i : Z) : option A :=
  let n := Z.of_nat (length l) in
  if i <? 0 then (if 0 <=? n + i then l !! Z.to_nat (n + i) else None)
  else l !! Z.to_nat i.

(** Bound of a slice: negative bounds count from the end, and every bound
    is clamped to [0, len(l)]. *)
Definition clamp (n i : Z) : Z :=
  if i <? 0 then Z.max 0 (n + i) else Z.min i n.

(** [l[a:b]]. *)
Definition slice {A : Type} (l : list A) (a b : Z) : list A :=
  let n := Z.of_nat (length l) in
  let lo := Z.to_nat (clamp n a) in
  let hi := Z.to_nat (clamp n b) in
  take (hi - lo) (drop lo l).

End PyList.

(** ** Variants and carriers *)

(** The per-record view the reader ([cyvcf2]) hands to the core:
    [genotypes] holds, per sample, the allele calls followed by the phasing
    flag; [gt_types] holds, per sample, the genotype category (3 is
    homozygous alternate); [INFO_CSQ] is [variant.INFO.get('CSQ')]. *)
Record Variant := {
  CHROM : string;
  POS : Z;
  genotypes : list (list Z);
  gt_types : list Z;
  INFO_CSQ : option string
}.

(** [any(allele > 0 for allele in gts[:2])]. *)
Definition is_carrier (gts : list Z) : bool :=
  existsb (fun allele => allele >? 0) (take 2 gts).

(** [variant_carriers]. *)
Definition variant_carriers (v : Variant) : gset nat :=
  list_to_set
    (map fst (List.filter (fun p => is_carrier (snd p))
                          (PyList.enumerate (genotypes v)))).

(** [all_shared_homozygous]. Python raises [IndexError] when an index of
    [shared_inds] is outside [gt_types]; the reader gives [genotypes] and
    [gt_types] one entry per sample, and every shared index comes from
    [genotypes] (lemma [shared_inds_lt_samples]), so the [None] case is
    not reached on a well-formed cluster. *)
Definition all_shared_homozygous (v : Variant) (shared_inds : gset nat) : bool :=
  forallb (fun i => match gt_types v !! i with
                    | Some t => t =? 3
                    | None => false
                    end)
          (elements shared_inds).

(** ** The majority threshold [int(0.8 * total_variants)] *)

Definition prec : Z := 53.
Definition emax : Z := 1024.

(** The binary64 number written [0.8]: 0x1999999999999A * 2^-53. *)
Definition float_0_8 : spec_float := S754_finite false 7205759403792794 (-53).

(** Conversion of a Python [int] to [float], rounding to nearest even. *)
Definition float_of_int (z : Z) : spec_float :=
  binary_normalize prec emax z 0 false.

(** [int(x)]: truncation toward zero. Python raises on an infinity and on
    a NaN; the product below is finite for every length a list can have,
    and the model gives 0 there. *)
Definition int_of_float (x : spec_float) : Z :=
  match x with
  | S754_finite s m e => cond_Zopp s (Z.shiftl (Z.pos m) e)
  | _ => 0
  end.

Definition threshold_of (total_variants : nat) : Z :=
  int_of_float (SFmul prec emax float_0_8 (float_of_int (Z.of_nat total_variants))).

(** ** The shared-carrier set *)

(** [Counter(flat_list)]. *)
Definition Counter (l : list nat) : gmap nat nat :=
  foldl (fun (m : gmap nat nat) x => <[x := S (default 0%nat (m !! x))]> m) ∅ l.

(** [flat_list = [ind for s in individual_sets for ind in s]]. *)
Definition flat_list (individual_sets : list (gset nat)) : list nat :=
  concat (map elements individual_sets).

(** Lines 205-211 of the program, from [individual_sets] on. *)
Definition shared_of_sets (individual_sets : list (gset nat)) : gset nat :=
  let total_variants := length individual_sets in
  let count := Counter (flat_list individual_sets) in
  let threshold := threshold_of total_variants in
  list_to_set
    (map fst (List.filter (fun ic => threshold <=? Z.of_nat (snd ic))
                          (map_to_list count))).

Definition shared_inds (variants : list Variant) : gset nat :=
  shared_of_sets (map variant_carriers variants).

(** Number of variants of the cluster at which individual [i] is a
    carrier; the quantity the claims speak about. *)
Definition carrier_count (i : nat) (variants : list Variant) : nat :=
  length (List.filter (fun v => bool_decide (i ∈ variant_carriers v)) variants).

(** ** Segmentation by genotype mode *)

Inductive Mode := Double | Single.

Definition Mode_eqb (a b : Mode) : bool :=
  match a, b with
  | Double, Double | Single, Single => true
  | _, _ => false
  end.

(** A block [(block_start, block_end, mode)]; the mode slot has the type of
    [cur_mode], which is [None] before the first variant. *)
Definition Block : Type := Z * Z * option Mode.

Record SegState := {
  blocks : list Block;
  cur_mode : option Mode;
  block_start : Z
}.

Definition seg_init : SegState :=
  {| blocks := []; cur_mode := None; block_start := 0 |}.

Definition mode_of (shared : gset nat) (v : Variant) : Mode :=
  if all_shared_homozygous v shared then Double else Single.

(** One iteration of [for idx, v in enumerate(variants)]. *)
Definition seg_step (shared : gset nat) (st : SegState) (iv : nat * Variant) : SegState :=
  let idx := Z.of_nat (fst iv) in
  let mode := mode_of shared (snd iv) in
  match cur_mode st with
  | None => {| blocks := blocks st; cur_mode := Some mode; block_start := block_start st |}
  | Some cm =>
      if Mode_eqb mode cm then st
      else {| blocks := blocks st ++ [(block_start st, idx - 1, Some cm)];
              cur_mode := Some mode;
              block_start := idx |}
  end.

(** The loop and the final [blocks.append]. *)
Definition segment (shared : gset nat) (variants : list Variant) : list Block :=
  let st := foldl (seg_step shared) seg_init (PyList.enumerate variants) in
  blocks st ++ [(block_start st, Z.of_nat (length variants) - 1, cur_mode st)].

(** ** The annotation filter and the segment emitter *)

Record OutputRecord := {
  r_chrom : string;
  r_start : Z;
  r_end : Z;
  r_n_variants : Z;
  r_n_individuals : Z;
  r_individuals : string;
  r_mode : option Mode;
  r_err_left : option Z;
  r_err_right : option Z;
  r_n_ultra_rare : Z;
  r_filter : string
}.

(** The keyword arguments of [flush_cluster], which [main] takes from the
    command line and from the header of the variant file. [gnomad_idx] is
    the result of [csq_fields.index(...)], a list position. *)
Record Config := {
  min_individuals : Z;
  min_variants : Z;
  max_individuals : option Z;
  min_segment_length : option Z;
  max_segment_length : option Z;
  sample_ids : list string;
  gene_regions : list GeneRegion;
  gnomad_idx : nat;
  min_ultra_rare : Z;
  af_threshold : spec_float
}.

(** [variants[i].POS]. Python raises [IndexError] out of range; every use
    below is in range on the blocks that [segment] computes (lemma
    [segment_blocks_in_range]), and the model gives 0 otherwise. *)
Definition pos_at (variants : list Variant) (i : Z) : Z :=
  match PyList.index variants i with
  | Some v => POS v
  | None => 0
  end.

Section Emitter.

(** Python's [float(val)] on a string: [None] stands for [ValueError].
    The builtin is outside the repository; the development holds for
    every reading of strings as binary64 numbers. *)
Variable py_float : string -> option spec_float.

(** The loop [for entry in csq_entries.split(',')]. The test
    [len(fields) <= gnomad_idx] and the access [fields[gnomad_idx]] are
    the two outcomes of one lookup. *)
Fixpoint ultra_rare_scan (gnomad_idx : nat) (af_threshold : spec_float)
    (entries : list string) : bool :=
  match entries with
  | [] => false
  | entry :: rest =>
      let fields := PyStr.split "|" entry in
      match fields !! gnomad_idx with
      | None => ultra_rare_scan gnomad_idx af_threshold rest
      | Some val =>
          if String.eqb val "" || String.eqb val "." then true
          else match py_float val with
               | Some af =>
                   if SFleb af af_threshold then true
                   else ultra_rare_scan gnomad_idx af_threshold rest
               | None => ultra_rare_scan gnomad_idx af_threshold rest
               end
      end
  end.

(** [is_ultra_rare_variant]. *)
Definition is_ultra_rare_variant (variant : Variant) (gnomad_idx : nat)
    (af_threshold : spec_float) : bool :=
  let csq_entries := default "" (INFO_CSQ variant) in
  if String.eqb csq_entries "" then false
  else ultra_rare_scan gnomad_idx af_threshold (PyStr.split "," csq_entries).

(** [",".join(sample_ids[i] for i in sorted(shared_inds))]; a sample id
    outside [sample_ids] is an [IndexError] in Python and the empty string
    here. *)
Definition inds_str_of (sample_ids : list string) (shared : gset nat) : string :=
  String.concat ","
    (map (fun i => default "" (sample_ids !! i))
         (merge_sort Nat.le (elements shared))).

Definition opt_lt (x : Z) (bound : option Z) : bool :=
  match bound with Some b => x <? b | None => false end.

Definition opt_gt (x : Z) (bound : option Z) : bool :=
  match bound with Some b => x >? b | None => false end.

(** The body of [for b_start, b_end, mode in blocks]: the records printed
    for one block, none or one. *)
Definition emit_block (cfg : Config) (variants : list Variant)
    (prev_nonshared_pos next_nonshared_pos : option Z)
    (chrom : string) (n_shared : Z) (inds_str : string) (b : Block)
    : list OutputRecord :=
  let '(b_start, b_end, mode) := b in
  let block_vars := PyList.slice variants b_start (b_end + 1) in
  let segment_length := pos_at block_vars (-1) - pos_at block_vars 0 in
  if (Z.of_nat (length block_vars) <? min_variants cfg)
     || opt_lt segment_length (min_segment_length cfg)
     || opt_gt segment_length (max_segment_length cfg)
  then []
  else
    let start := pos_at block_vars 0 in
    let end_ := pos_at block_vars (-1) in
    if negb (overlaps_gene_region chrom start end_ (gene_regions cfg)) then []
    else
      let n_ultra_rare :=
        Z.of_nat (length (List.filter
          (fun v => is_ultra_rare_variant v (gnomad_idx cfg) (af_threshold cfg))
          block_vars)) in
      if n_ultra_rare <? min_ultra_rare cfg then []
      else
        let left_flank :=
          if b_start >? 0 then Some (pos_at variants (b_start - 1))
          else prev_nonshared_pos in
        let right_flank :=
          if b_end + 1 <? Z.of_nat (length variants)
          then Some (pos_at variants (b_end + 1))
          else next_nonshared_pos in
        let err_left :=
          match left_flank with None => None | Some f => Some (start - f) end in
        let err_right :=
          match right_flank with None => None | Some f => Some (f - end_) end in
        [ {| r_chrom := chrom; r_start := start; r_end := end_;
             r_n_variants := Z.of_nat (length block_vars);
             r_n_individuals := n_shared;
             r_individuals := inds_str;
             r_mode := mode;
             r_err_left := err_left; r_err_right := err_right;
             r_n_ultra_rare := n_ultra_rare;
             r_filter := "ULTRA_RARE" |} ].

(** [flush_cluster]: the list of the records it prints, in order. *)
Definition flush_cluster (cfg : Config) (variants : list Variant)
    (prev_nonshared_pos next_nonshared_pos : option Z) : list OutputRecord :=
  match variants with
  | [] => []
  | v0 :: _ =>
      let shared := shared_inds variants in
      let n_shared := Z.of_nat (size shared) in
      if n_shared <? min_individuals cfg then []
      else if opt_gt n_shared (max_individuals cfg) then []
      else
        let chrom := CHROM v0 in
        let inds_str := inds_str_of (sample_ids cfg) shared in
        flat_map
          (emit_block cfg variants prev_nonshared_pos next_nonshared_pos
                      chrom n_shared inds_str)
          (segment shared variants)
  end.

(** ** The cluster accumulator of [main] *)

Record AccState := {
  current_cluster : list Variant;
  prev_nonshared_pos : option Z;
  last_pos : option Z
}.

(** The positional arguments of one call of [flush_cluster]. *)
Record FlushCall := {
  fc_variants : list Variant;
  fc_prev : option Z;
  fc_next : option Z
}.

Definition acc_init : AccState :=
  {| current_cluster := []; prev_nonshared_pos := None; last_pos := None |}.

(** [current_cluster[-1].POS]. *)
Definition last_position (cluster : list Variant) : Z := pos_at cluster (-1).

(** One iteration of [for v in pbar]: the next state and the calls of
    [flush_cluster] it makes. In the branch where [last_pos] is set the
    cluster is not empty (lemma [acc_invariant]); on an empty one
    [current_cluster[0]] would raise. *)
Definition acc_step (cluster_distance : Z) (st : AccState) (v : Variant)
    : AccState * list FlushCall :=
  match last_pos st with
  | None =>
      ({| current_cluster := current_cluster st ++ [v];
          prev_nonshared_pos := prev_nonshared_pos st;
          last_pos := Some (POS v) |}, [])
  | Some lp =>
      match current_cluster st with
      | [] => (st, [])
      | c0 :: _ =>
          if negb (String.eqb (CHROM v) (CHROM c0)) then
            ({| current_cluster := [v];
                prev_nonshared_pos := None;
                last_pos := Some (POS v) |},
             [ {| fc_variants := current_cluster st;
                  fc_prev := prev_nonshared_pos st;
                  fc_next := None |} ])
          else
            let distance := POS v - lp in
            if distance <=? cluster_distance then
              ({| current_cluster := current_cluster st ++ [v];
                  prev_nonshared_pos := prev_nonshared_pos st;
                  last_pos := Some (POS v) |}, [])
            else
              ({| current_cluster := [v];
                  prev_nonshared_pos := Some (last_position (current_cluster st));
                  last_pos := Some (POS v) |},
               [ {| fc_variants := current_cluster st;
                    fc_prev := prev_nonshared_pos st;
                    fc_next := Some (POS v) |} ])
      end
  end.

(** The loop over the stream: final state and calls made, in order. *)
Definition acc_run (cluster_distance : Z) (st : AccState) (stream : list Variant)
    : AccState * list FlushCall :=
  foldl (fun sc v =>
           let '(st', calls) := acc_step cluster_distance (fst sc) v in
           (st', (snd sc ++ calls)%list))
        (st, []) stream.

(** The call after the loop. *)
Definition final_call (st : AccState) : FlushCall :=
  {| fc_variants := current_cluster st;
     fc_prev := prev_nonshared_pos st;
     fc_next := None |}.

Definition main_calls (cluster_distance : Z) (stream : list Variant) : list FlushCall :=
  let '(st, calls) := acc_run cluster_distance acc_init stream in
  (calls ++ [final_call st])%list.

Definition do_flush (cfg : Config) (c : FlushCall) : list OutputRecord :=
  flush_cluster cfg (fc_variants c) (fc_prev c) (fc_next c).

(** Everything [main] prints for a stream of variants. *)
Definition main (cfg : Config) (cluster_distance : Z) (stream : list Variant)
    : list OutputRecord :=
  flat_map (do_flush cfg) (main_calls cluster_distance stream).

End Emitter.

(** What makes one sub-entry decide that a variant is ultra-rare: its field
    at [gnomad_idx] exists and is empty, or is the placeholder, or reads as
    a number that is at most the threshold. *)
Definition entry_is_rare (py_float : string -> option spec_float)
    (gnomad_idx : nat) (af_threshold : spec_float) (entry : string) : Prop :=
  exists val, PyStr.split "|" entry !! gnomad_idx = Some val /\
    (val = "" \/ val = "." \/
     exists af, py_float val = Some af /\ SFleb af af_threshold = true).

(** Number of sets of a list that contain [i]. *)
Definition occurrences (i : nat) (sets : list (gset nat)) : nat :=
  length (List.filter (fun s => bool_decide (i ∈ s)) sets).

(** The components of a block, its number of variants and the list of the
    indices it covers. *)
Definition b_start (b : Block) : Z := fst (fst b).
Definition b_end (b : Block) : Z := snd (fst b).
Definition b_mode (b : Block) : option Mode := snd b.
Definition block_size (b : Block) : Z := b_end b - b_start b + 1.
Definition block_indices (b : Block) : list Z :=
  map Z.of_nat (seq (Z.to_nat (b_start b)) (Z.to_nat (block_size b))).

(** [blocks_chain lo bs hi]: the blocks are not empty, the first starts at
    [lo], each next one starts right after the previous one ends, and the
    last ends at [hi]. *)
Fixpoint blocks_chain (lo : Z) (bs : list Block) (hi : Z) : Prop :=
  match bs with
  | [] => lo = hi + 1
  | b :: rest => b_start b = lo /\ b_start b <= b_end b /\ blocks_chain (b_end b + 1) rest hi
  end.

(** Neighbours in a list of modes differ. *)
Fixpoint alternating (ms : list (option Mode)) : Prop :=
  match ms with
  | x :: rest =>
      match rest with
      | y :: _ => x <> y /\ alternating rest
      | [] => True
      end
  | [] => True
  end.

(** The loop invariant of the segmentation after [k >= 1] variants. *)
Definition seg_inv (k : nat) (st : SegState) : Prop :=
  (1 <= k)%nat /\
  exists m, cur_mode st = Some m /\
    0 <= block_start st <= Z.of_nat k - 1 /\
    blocks_chain 0 (blocks st) (block_start st - 1) /\
    alternating (map b_mode (blocks st) ++ [Some m]).

(** The invariant of the accumulator: [last_pos] is unset exactly while the
    cluster is empty, and otherwise holds the position of its last
    variant. *)
Definition acc_inv (st : AccState) : Prop :=
  match last_pos st with
  | None => current_cluster st = []
  | Some lp => current_cluster st <> [] /\ lp = last_position (current_cluster st)
  end.

(** States the accumulator can be in after reading some stream. *)
Definition reachable (cluster_distance : Z) (st : AccState) : Prop :=
  exists stream, fst (acc_run cluster_distance acc_init stream) = st.

(** A cluster as the reader delivers it: every variant has one entry per
    sample in both per-sample arrays. *)
Definition wf_cluster (n_samples : nat) (variants : list Variant) : Prop :=
  Forall (fun v => length (genotypes v) = n_samples /\ length (gt_types v) = n_samples)
         variants.

(** ** Sample data for the examples *)

(** The binary64 values of the decimal literals [0.0001], [0.5] and
    [1e-05]. *)
Definition float_0_0001 : spec_float := S754_finite false 7378697629483821 (-66).
Definition float_0_5 : spec_float := S754_finite false 4503599627370496 (-53).
Definition float_1e_05 : spec_float := S754_finite false 5902958103587057 (-69).

(** A reading of strings as floats for the examples: it knows the three
    literals above and rejects every other string. *)
Definition sample_float (s : string) : option spec_float :=
  if String.eqb s "0.0001" then Some float_0_0001
  else if String.eqb s "0.5" then Some float_0_5
  else if String.eqb s "1e-05" then Some float_1e_05
  else None.

(** A variant of three samples with the given annotation: the first is
    homozygous for the alternate allele, the second heterozygous, the third
    carries the reference allele only. *)
Definition sample_variant (chrom : string) (pos : Z) (csq : option string) : Variant :=
  {| CHROM := chrom; POS := pos;
     genotypes := [[1; 1; 0]; [0; 1; 0]; [0; 0; 0]];
     gt_types := [3; 1; 0];
     INFO_CSQ := csq |}.

(** A variant of the same three samples at which only the first sample is
    a carrier. *)
Definition sample_variant_first_only (chrom : string) (pos : Z) : Variant :=
  {| CHROM := chrom; POS := pos;
     genotypes := [[1; 1; 0]; [0; 0; 0]; [0; 0; 0]];
     gt_types := [3; 0; 0];
     INFO_CSQ := None |}.

(** Ten variants on one chromosome, 10 apart; the second sample carries
    the first [k] of them. *)
Definition sample_cluster (k : nat) : list Variant :=
  map (fun j => if (j <? k)%nat
                then sample_variant "chr1" (100 + 10 * Z.of_nat j) None
                else sample_variant_first_only "chr1" (100 + 10 * Z.of_nat j))
      (seq 0 10).

(** A variant of the same three samples at which the first two samples are
    homozygous for the alternate allele. *)
Definition sample_variant_hom (chrom : string) (pos : Z) : Variant :=
  {| CHROM := chrom; POS := pos;
     genotypes := [[1; 1; 0]; [1; 1; 0]; [0; 0; 0]];
     gt_types := [3; 3; 0];
     INFO_CSQ := Some "A|x|1e-05" |}.

(** Four variants, the third of which breaks a homozygous run. *)
Definition sample_mixed : list Variant :=
  [ sample_variant_hom "chr1" 100; sample_variant_hom "chr1" 110;
    sample_variant "chr1" 120 (Some "A|x|0.5"); sample_variant_hom "chr1" 130 ].

(** A configuration that lets every block of the samples through, given
    the least number of shared individuals asked for. *)
Definition sample_config (min_inds : Z) : Config :=
  {| min_individuals := min_inds;
     min_variants := 1;
     max_individuals := None;
     min_segment_length := Some 0;
     max_segment_length := None;
     sample_ids := ["S1"; "S2"; "S3"];
     gene_regions := load_gene_regions
       [ {| chromosome_name := "chr1"; start_position := 50; end_position := 150 |} ];
     gnomad_idx := 2;
     min_ultra_rare := 0;
     af_threshold := float_0_0001 |}.

(** ** Notions used to state further properties *)

(** Neighbours in a list are related by [R]. *)
Fixpoint adjacent {A : Type} (R : A -> A -> Prop) (l : list A) : Prop :=
  match l with
  | x :: rest =>
      match rest with
      | y :: _ => R x y /\ adjacent R rest
      | [] => True
      end
  | [] => True
  end.

(** Every variant of the cluster is on the chromosome of the first one. *)
Definition same_chrom (cluster : list Variant) : Prop :=
  match cluster with
  | [] => True
  | c0 :: _ => Forall (fun v => CHROM v = CHROM c0) cluster
  end.

(** From each variant of the cluster to the next, the position grows by at
    most [cluster_distance]. *)
Definition gaps_within (cluster_distance : Z) (cluster : list Variant) : Prop :=
  adjacent (fun a b => POS b - POS a <= cluster_distance) cluster.

(** How two calls of [flush_cluster] that follow each other are related:
    either the chromosome changes and neither has a flank on that side, or
    the gap exceeds the distance and each has the other's boundary position
    as its flank. *)
Definition linked (cluster_distance : Z) (c1 c2 : FlushCall) : Prop :=
  exists f1 f2,
    head (fc_variants c1) = Some f1 /\ head (fc_variants c2) = Some f2 /\
    ((CHROM f2 <> CHROM f1 /\ fc_next c1 = None /\ fc_prev c2 = None)
     \/ (CHROM f2 = CHROM f1 /\
         POS f2 - last_position (fc_variants c1) > cluster_distance /\
         fc_next c1 = Some (POS f2) /\
         fc_prev c2 = Some (last_position (fc_variants c1)))).

(** The facts about the list of calls that hold after every prefix of the
    stream. *)
Definition calls_inv (cluster_distance : Z) (stream : list Variant)
    (cs : list FlushCall) : Prop :=
  concat (map fc_variants cs) = stream
  /\ Forall (fun c => same_chrom (fc_variants c) /\
                      gaps_within cluster_distance (fc_variants c)) cs
  /\ (stream <> [] -> Forall (fun c => fc_variants c <> []) cs)
  /\ adjacent (linked cluster_distance) cs
  /\ (exists c, head cs = Some c /\ fc_prev c = None).

(** Every variant of the cluster with an index in the block has the mode
    of the block, which is set. *)
Definition block_uniform (shared : gset nat) (variants : list Variant) (b : Block) : Prop :=
  exists m, b_mode b = Some m /\
    forall k, b_start b <= k <= b_end b ->
      exists v, variants !! Z.to_nat k = Some v /\ mode_of shared v = m.

(** ** The header of the annotation and the resolution of the field index *)

Module PyText.

(** [s.rstrip(chars)]: drops the longest suffix of [s] made of characters
    that occur in [chars]. *)
Fixpoint rstrip (chars : string) (s : string) : string :=
  match s with
  | EmptyString => EmptyString
  | String c rest =>
      match rstrip chars rest with
      | EmptyString => if PyStr.mem c chars then EmptyString else String c EmptyString
      | kept => String c kept
      end
  end.

(** [s.strip(chars)]. *)
Definition strip (chars : string) (s : string) : string :=
  rstrip chars (PyStr.lstrip chars s).

(** The first occurrence of [sep] in [s]: the text before it and the text
    after it; [None] when [sep] does not occur. This is [s.partition(sep)]
    without the separator, for a separator that is not empty. *)
Fixpoint find_first (sep : string) (s : string) : option (string * string) :=
  if String.prefix sep s
  then Some (EmptyString, String.substring (String.length sep)
                            (String.length s - String.length sep) s)
  else match s with
       | EmptyString => None
       | String c rest =>
           match find_first sep rest with
           | Some (before, after) => Some (String c before, after)
           | None => None
           end
       end.

(** [s.split(sep)[1]] for a separator that is not empty: the text between
    the first occurrence of [sep] and the next one, or the end; [None]
    stands for the [IndexError] raised when [sep] does not occur. *)
Definition split_second (sep : string) (s : string) : option string :=
  match find_first sep s with
  | None => None
  | Some (_, after) =>
      match find_first sep after with
      | None => Some after
      | Some (middle, _) => Some middle
      end
  end.

(** [l.index(x)]: the first position of [x] in [l]; [None] stands for
    [ValueError]. *)
Fixpoint index_of (x : string) (l : list string) : option nat :=
  match l with
  | [] => None
  | y :: rest =>
      if String.eqb y x then Some 0%nat
      else match index_of x rest with
           | Some i => Some (S i)
           | None => None
           end
  end.

(** [s[:n]]. *)
Definition take_chars (n : nat) (s : string) : string := String.substring 0 n s.

End PyText.

(** The ways in which the resolution of the index ends. *)
Inductive Resolved :=
  | Index (gnomad_idx : nat)
  | IndexError
  | RuntimeError.

Definition GNOMAD_FIELD : string := "GnomAD_v4_1_AF_popmax".

Definition quote_char : string := String (ascii_of_nat 34) EmptyString.

(** The list [csq_fields]: [csq_header.split('Format: ')[1]], stripped of
    double quotes at both ends, split at the bars. *)
Definition csq_fields_of (csq_header : string) : option (list string) :=
  match PyText.split_second "Format: " csq_header with
  | None => None
  | Some format => Some (PyStr.split "|" (PyText.strip quote_char format))
  end.

(** Lines 304-310 of [main]: the index of the frequency field in the
    header of the annotation. An [IndexError] from the subscript is not
    caught; the [ValueError] of [index] is turned into a [RuntimeError]. *)
Definition resolve_gnomad_idx (csq_header : string) : Resolved :=
  match csq_fields_of csq_header with
  | None => IndexError
  | Some csq_fields =>
      match PyText.index_of GNOMAD_FIELD csq_fields with
      | Some i => Index i
      | None => RuntimeError
      end
  end.

(** [sub in s] for strings. *)
Definition occurs_in (sub s : string) : Prop :=
  exists before after, s = before ++ sub ++ after.

(** ** The count of true matches of the summary script *)

(** Lines 28-32: a region is a true match when the ids of its individuals
    all start with the same five characters. *)
Definition is_true_match (inds : string) : bool :=
  let ids := PyStr.split "," inds in
  let prefixes : gset string := list_to_set (map (PyText.take_chars 5) ids) in
  Nat.eqb (size prefixes) 1.

(** The loop over [df["individuals"]]: [total] and [true_matches]. *)
Definition count_true_matches (individuals : list string) : nat * nat :=
  (length individuals,
   foldl (fun true_matches inds =>
            if is_true_match inds then S true_matches else true_matches)
         0%nat individuals).

(** A sample header of the annotation. *)
Definition sample_csq_header : string :=
  "Consequence annotations from Ensembl VEP. Format: Allele|Consequence|GnomAD_v4_1_AF_popmax|SYMBOL".

(** [cfg'] filters at least as much as [cfg]: the same samples, frequency
    field and threshold, no gene region that [cfg] lacks, and bounds that
    are at least as tight. *)
Definition stricter (cfg' cfg : Config) : Prop :=
  sample_ids cfg' = sample_ids cfg
  /\ gnomad_idx cfg' = gnomad_idx cfg
  /\ af_threshold cfg' = af_threshold cfg
  /\ (forall region, In region (gene_regions cfg') -> In region (gene_regions cfg))
  /\ min_individuals cfg <= min_individuals cfg'
  /\ min_variants cfg <= min_variants cfg'
  /\ min_ultra_rare cfg <= min_ultra_rare cfg'
  /\ (forall m, max_individuals cfg = Some m ->
        exists m', max_individuals cfg' = Some m' /\ m' <= m)
  /\ (forall m, min_segment_length cfg = Some m ->
        exists m', min_segment_length cfg' = Some m' /\ m <= m')
  /\ (forall m, max_segment_length cfg = Some m ->
        exists m', max_segment_length cfg' = Some m' /\ m' <= m).

(** The number of variants that a list of records accounts for. *)
Definition total_variants (records : list OutputRecord) : Z :=
  fold_right Z.add 0 (map r_n_variants records).

(** ** The cohort scripts *)

(** The two scripts below read tables of text; strings are taken to hold
    ASCII text, and a file is the list of its lines, each with its line
    break. *)

Module PyWs.

(** The ASCII characters that [str.isspace] accepts: tab, line feed,
    vertical tab, form feed, carriage return, the four separators 28-31 and
    the space. *)
Definition whitespace : string :=
  String (ascii_of_nat 9) (String (ascii_of_nat 10) (String (ascii_of_nat 11)
  (String (ascii_of_nat 12) (String (ascii_of_nat 13) (String (ascii_of_nat 28)
  (String (ascii_of_nat 29) (String (ascii_of_nat 30) (String (ascii_of_nat 31)
  (String (ascii_of_nat 32) EmptyString))))))))).

(** [s.strip()]. *)
Definition strip (s : string) : string := PyText.strip whitespace s.

Definition tab : ascii := ascii_of_nat 9.

(** [sub in s], for a [sub] that is not empty. *)
Definition contains (sub s : string) : bool :=
  match PyText.find_first sub s with
  | Some _ => true
  | None => false
  end.

End PyWs.

Module Ndm.

(** Lines 15-19 of [load_disease_mapping]: the label of a category, if it
    is a case of NDM. *)
Definition label_of (category : string) : option string :=
  if PyWs.contains "NDM" category then
    Some (if String.prefix "Solved_NDM" category then "Solved NDM" else "Unsolved NDM")
  else None.

(** The body of the loop over the lines of the cohort file. *)
Definition load_line (patient_disease : gmap string string) (line : string)
    : gmap string string :=
  match PyStr.split PyWs.tab (PyWs.strip line) with
  | patient :: category :: _ =>
      match label_of category with
      | Some label => <[patient := label]> patient_disease
      | None => patient_disease
      end
  | _ => patient_disease
  end.

(** [load_disease_mapping], on the lines of the cohort file. *)
Definition load_disease_mapping (lines : list string) : gmap string string :=
  foldl load_line ∅ lines.

(** [disease_counts[disease] += 1] on a [defaultdict(int)], which keeps
    its keys in the order of their first use. *)
Fixpoint incr (disease : string) (counts : list (string * Z)) : list (string * Z) :=
  match counts with
  | [] => [(disease, 1)]
  | (k, n) :: rest =>
      if String.eqb k disease then (k, n + 1) :: rest
      else (k, n) :: incr disease rest
  end.

(** [disease_counts.get(key, 0)]. *)
Fixpoint get0 (key : string) (counts : list (string * Z)) : Z :=
  match counts with
  | [] => 0
  | (k, n) :: rest => if String.eqb k key then n else get0 key rest
  end.

Record Region := {
  Chromosome : string;
  Start : string;
  End_ : string;
  Region_name : string;
  N_Patients : Z;
  Solved_NDM : Z;
  Unsolved_NDM : Z;
  Patients : string;
  Patient_Diseases : string;
  Status : string
}.

(** [patient_disease[p]] for a [p] that passed the test
    [p in patient_disease]. *)
Definition disease_of (patient_disease : gmap string string) (p : string) : string :=
  default "" (patient_disease !! p).

(** The body of the loop over the lines of the table of shared regions:
    the record appended to [regions_data], if any. *)
Definition region_of_line (patient_disease : gmap string string) (line : string)
    : option Region :=
  let parts := PyStr.split PyWs.tab (PyWs.strip line) in
  if (6 <=? length parts)%nat then
    let chrom := default "" (parts !! 0%nat) in
    let start := default "" (parts !! 1%nat) in
    let end_ := default "" (parts !! 2%nat) in
    let patients :=
      List.filter (fun p => bool_decide (is_Some (patient_disease !! p)))
                  (PyStr.split "," (default "" (parts !! 5%nat))) in
    if (0 <? length patients)%nat then
      let patient_diseases :=
        map (fun p => p ++ "(" ++ disease_of patient_disease p ++ ")") patients in
      let disease_counts :=
        foldl (fun counts p => incr (disease_of patient_disease p) counts) [] patients in
      Some {| Chromosome := chrom; Start := start; End_ := end_;
              Region_name := chrom ++ ":" ++ start ++ "-" ++ end_;
              N_Patients := Z.of_nat (length patients);
              Solved_NDM := get0 "Solved NDM" disease_counts;
              Unsolved_NDM := get0 "Unsolved NDM" disease_counts;
              Patients := String.concat ", " patients;
              Patient_Diseases := String.concat ", " patient_diseases;
              Status := if (1 <? length disease_counts)%nat then "Mixed"
                        else default "" (fst <$> head disease_counts) |}
    else None
  else None.

(** [process_shared_regions]: the rows of the data frame it returns. *)
Definition process_shared_regions (lines : list string)
    (patient_disease : gmap string string) : list Region :=
  omap (region_of_line patient_disease) lines.

(** The mapping holds no label other than the two of the loader. *)
Definition two_labels (patient_disease : gmap string string) : Prop :=
  forall p d, patient_disease !! p = Some d -> d = "Solved NDM" \/ d = "Unsolved NDM".

End Ndm.

Module PatientMatch.

(** The table [patient_regions]: patient, gene, ancestry. *)
Definition patient_regions_items : list (string * (string * string)) :=
  [ ("WG0091", ("Chr19_haplotype", "European"));
    ("WG0094", ("Chr19_haplotype", "European"));
    ("WG0347", ("Chr19_haplotype", "European"));
    ("WG0600", ("Chr19_haplotype", "European"));
    ("WG1537", ("Chr19_haplotype", "European"));
    ("WG0225", ("ZNF808", "European"));
    ("WG0872", ("HK1", "European"));
    ("WG0631", ("FICD", "Pakistani"));
    ("WG0153", ("FICD", "Pakistani"));
    ("WG0154", ("FICD", "Pakistani"));
    ("WG0161", ("FICD", "Pakistani"));
    ("WG1726", ("FICD", "Pakistani"));
    ("WG0867", ("FICD", "Pakistani"));
    ("WG1322", ("RNU4ATAC", "Pakistani"));
    ("WG0596", ("RNU6ATAC", "Pakistani"));
    ("WG0512", ("NARS2", "Iranian"));
    ("WG1068", ("PAX4", "Iranian"));
    ("WG0364", ("NARS2", "Iranian"));
    ("WG0361", ("TARS2", "Iranian"));
    ("WG0513", ("ZNF808", "Saudi"));
    ("WG0367", ("PDIA6", "Saudi"));
    ("WG1094", ("NARS2", "Saudi"));
    ("WG0878", ("PAX4", "Indian"));
    ("WG0158", ("TARS2", "Indian"));
    ("WG1078", ("EIF2B1", "Indian"));
    ("WG0363", ("TARS2", "Turkish"));
    ("WG0117", ("YIPF5", "Turkish"));
    ("WG1758", ("FICD", "Sudanese"));
    ("WG0718", ("NARS2", "Sudanese"));
    ("WG0366", ("ZNF808", "Sudanese")) ].

Definition patient_regions : gmap string (string * string) :=
  list_to_map patient_regions_items.

(** [patient_regions.get(ind, ("UNKNOWN",))[0]]. *)
Definition gene_of (ind : string) : string :=
  match patient_regions !! ind with
  | Some (gene, _) => gene
  | None => "UNKNOWN"
  end.

(** [get_match_status]. *)
Definition get_match_status (inds : list string) : string :=
  let genes : gset string :=
    foldl (fun genes ind => {[ gene_of ind ]} ∪ genes) ∅ inds in
  if Nat.eqb (size genes) 1 then "TRUE_MATCH" else "NO_MATCH".

(** The list comprehension that builds [inds_list] from [inds_str]. *)
Definition inds_list (inds_str : string) : list string :=
  map PyWs.strip
      (List.filter (fun i => negb (String.eqb (PyWs.strip i) ""))
                   (PyStr.split "," inds_str)).

(** [process_file] on the column [inds_str] of the table: [total_entries]
    and [true_match_count]. *)
Definition process_file (inds_strs : list string) : nat * nat :=
  let match_status := map (fun x => get_match_status (inds_list x)) inds_strs in
  (length inds_strs,
   length (List.filter (fun s => String.eqb s "TRUE_MATCH") match_status)).

End PatientMatch.

(** A line of a table: its fields joined by tabs, with a line feed. *)
Definition tsv_line (fields : list string) : string :=
  String.concat (String PyWs.tab EmptyString) fields
  ++ String (ascii_of_nat 10) EmptyString.

Definition sample_cohort : list string :=
  [ tsv_line ["WG0091"; "Solved_NDM_Chr19"]; tsv_line ["WG0999"; "Unsolved_NDM"];
    tsv_line ["WG0500"; "MODY"]; tsv_line ["WG0700"] ].

Definition sample_regions : list string :=
  [ tsv_line ["chr1"; "100"; "110"; "2"; "2"; "WG0091,WG0999,WG0500"; "double"];
    tsv_line ["chr1"; "120"; "120"; "1"; "1"; "WG0500"; "single"] ].

(** Number of strings of a list that are equal to [key]. *)
Definition occurrences_of (key : string) (l : list string) : Z :=
  Z.of_nat (length (List.filter (String.eqb key) l)).

(** * Properties *)


(** ** Binary64 arithmetic behind the threshold *)

(** The number of binary digits of a positive number, as the IEEE
    specification counts them, is its base-2 logarithm plus one. *)
Lemma digits2_pos_log2 (p : positive) :
  Z.pos (digits2_pos p) = Z.log2 (Z.pos p) + 1.
Proof.
  assert (Hs : forall q, digits2_pos q = Pos.size q).
  { induction q; simpl; congruence. }
  rewrite Hs. destruct p; simpl; lia.
Qed.

Lemma Zdigits2_log2 (m : Z) : 0 < m -> Zdigits2 m = Z.log2 m + 1.
Proof.
  destruct m; try lia. intros _. simpl. apply digits2_pos_log2.
Qed.

(** One step of the rounding shift halves the mantissa. *)
Lemma shr_1_m (mrs : shr_record) :
  0 <= shr_m mrs -> shr_m (shr_1 mrs) = shr_m mrs / 2.
Proof.
  destruct mrs as [m r s]. simpl. intros Hm.
  destruct m as [|p|p]; try lia.
  - reflexivity.
  - destruct p; simpl shr_m.
    + rewrite Pos2Z.inj_xI. apply Z.div_unique with 1; lia.
    + rewrite Pos2Z.inj_xO. apply Z.div_unique with 0; lia.
    + reflexivity.
Qed.

Lemma iter_pos_shr_m (k : positive) : forall mrs : shr_record,
  0 <= shr_m mrs ->
  shr_m (SpecFloat.iter_pos shr_1 k mrs) = shr_m mrs / 2 ^ Z.pos k.
Proof.
  assert (Hnn : forall m j, 0 <= m -> 0 <= m / 2 ^ Z.pos j).
  { intros. apply Z.div_pos; [lia | apply Z.pow_pos_nonneg; lia]. }
  induction k as [k IH | k IH |]; intros mrs Hm; simpl SpecFloat.iter_pos.
  - assert (H1 : 0 <= shr_m (shr_1 mrs)).
    { rewrite shr_1_m by assumption. apply Z.div_pos; lia. }
    assert (H2 : 0 <= shr_m (SpecFloat.iter_pos shr_1 k (shr_1 mrs))).
    { rewrite IH by assumption. auto. }
    rewrite IH, IH, shr_1_m by assumption.
    rewrite !Z.div_div by (try apply Z.pow_pos_nonneg; lia).
    f_equal. assert (E : Z.pos k~1 = 1 + Z.pos k + Z.pos k) by lia.
    rewrite E, !Z.pow_add_r by lia. change (2 ^ 1) with 2. ring.
  - assert (H2 : 0 <= shr_m (SpecFloat.iter_pos shr_1 k mrs)).
    { rewrite IH by assumption. auto. }
    rewrite IH, IH by assumption.
    rewrite !Z.div_div by (try apply Z.pow_pos_nonneg; lia).
    f_equal. assert (E : Z.pos k~0 = Z.pos k + Z.pos k) by lia.
    rewrite E, !Z.pow_add_r by lia. ring.
  - rewrite shr_1_m by assumption. reflexivity.
Qed.

(** Shifting by [k] bits divides the mantissa by [2^k] and adds [k] to the
    exponent. *)
Lemma shr_spec (mrs : shr_record) (e k : Z) :
  0 <= shr_m mrs -> 0 <= k ->
  shr_m (fst (shr mrs e k)) = shr_m mrs / 2 ^ k /\ snd (shr mrs e k) = e + k.
Proof.
  intros Hm Hk. destruct k as [|k|k]; try lia; simpl.
  - rewrite Z.div_1_r. lia.
  - split; [apply iter_pos_shr_m; assumption | reflexivity].
Qed.

(** Rounding to nearest keeps the truncated mantissa or takes the next one. *)
Lemma round_nearest_even_bounds (mx : Z) (l : location) :
  mx <= round_nearest_even mx l <= mx + 1.
Proof.
  destruct l as [|[]]; simpl; try lia. destruct (Z.even mx); lia.
Qed.


Lemma fexp_normal (x : Z) : -1021 <= x -> fexp prec emax x = x - 53.
Proof. unfold fexp, SpecFloat.emin, prec, emax. lia. Qed.

Lemma log2_range (x k : Z) : 0 <= k -> 2 ^ k <= x < 2 ^ (k + 1) -> Z.log2 x = k.
Proof.
  intros Hk Hx. apply Z.log2_unique; [assumption|].
  replace (Z.succ k) with (k + 1) by lia. assumption.
Qed.

(** Rounding a positive integer [P * 2^e] of at least 53 bits: the integer
    part of the result is the integer part of [m1 * 2^(e+s)], where [m1]
    is [P / 2^s] or its successor and [s] is the number of bits dropped. *)
Lemma binary_round_aux_int (P e D : Z) :
  53 <= D -> 2 ^ (D - 1) <= P < 2 ^ D ->
  -1021 <= D + e -> D + e <= 1022 ->
  exists m1, P / 2 ^ (D - 53) <= m1 <= P / 2 ^ (D - 53) + 1 /\
    int_of_float (binary_round_aux prec emax false P e loc_Exact)
    = Z.shiftl m1 (e + (D - 53)).
Proof.
  intros HD HP Hlo Hhi.
  assert (Hpow : 0 < 2 ^ (D - 1)) by (apply Z.pow_pos_nonneg; lia).
  assert (HlogP : Z.log2 P = D - 1).
  { apply log2_range; [lia|]. replace (D - 1 + 1) with D by lia. assumption. }
  set (s := D - 53).
  assert (Hs2 : 0 < 2 ^ s) by (apply Z.pow_pos_nonneg; lia).
  assert (Hq : 2 ^ 52 <= P / 2 ^ s < 2 ^ 53).
  { split.
    - apply Z.div_le_lower_bound; [lia|].
      rewrite <- Z.pow_add_r by lia. replace (s + 52) with (D - 1) by lia. lia.
    - apply Z.div_lt_upper_bound; [lia|].
      rewrite <- Z.pow_add_r by lia. replace (s + 53) with D by lia. lia. }
  unfold binary_round_aux, shr_fexp.
  rewrite Zdigits2_log2, HlogP by lia.
  rewrite fexp_normal by lia.
  replace (D - 1 + 1 + e - 53 - e) with s by lia.
  destruct (shr_spec (shr_record_of_loc P loc_Exact) e s) as [Hm He]; [simpl; lia | lia |].
  destruct (shr (shr_record_of_loc P loc_Exact) e s) as [mrs' e'].
  simpl in Hm, He. subst e'.
  set (m1 := round_nearest_even (shr_m mrs') (loc_of_shr_record mrs')).
  assert (Hm1 : P / 2 ^ s <= m1 <= P / 2 ^ s + 1).
  { rewrite <- Hm. apply round_nearest_even_bounds. }
  exists m1. split; [assumption|].
  assert (Hm1pos : 0 < m1) by lia.
  assert (Hc : exists c, 0 <= c <= 1 /\ Z.log2 m1 = 52 + c /\ (c = 1 -> m1 = 2 ^ 53)).
  { assert (Hcases : m1 < 2 ^ 53 \/ m1 = 2 ^ 53) by lia.
    destruct Hcases as [Hlt | Heq].
    - exists 0. split; [lia|]. split; [apply log2_range; lia | lia].
    - exists 1. split; [lia|]. split; [apply log2_range; lia | auto]. }
  destruct Hc as (c & Hc01 & Hlog & Hc1).
  rewrite Zdigits2_log2, Hlog by lia.
  rewrite fexp_normal by lia.
  replace (52 + c + 1 + (e + s) - 53 - (e + s)) with c by lia.
  destruct (shr_spec (shr_record_of_loc m1 loc_Exact) (e + s) c) as [Hm2 He2];
    [simpl; lia | lia |].
  destruct (shr (shr_record_of_loc m1 loc_Exact) (e + s) c) as [mrs2 e2].
  simpl in Hm2, He2. subst e2. rewrite Hm2.
  assert (Hm2pos : 0 < m1 / 2 ^ c).
  { apply Z.div_str_pos. split; [apply Z.pow_pos_nonneg; lia|].
    assert (2 ^ c <= 2 ^ 1) by (apply Z.pow_le_mono_r; lia). lia. }
  assert (Hshift : Z.shiftl (m1 / 2 ^ c) (e + s + c) = Z.shiftl m1 (e + s)).
  { assert (Hc' : c = 0 \/ c = 1) by lia. destruct Hc' as [-> | ->].
    - rewrite Z.div_1_r. f_equal. lia.
    - rewrite (Hc1 eq_refl).
      change (2 ^ 53 / 2 ^ 1) with (2 ^ 52).
      change (2 ^ 53) with (Z.shiftl (2 ^ 52) 1).
      rewrite Z.shiftl_shiftl by lia. f_equal. lia. }
  destruct (m1 / 2 ^ c) as [|m|m] eqn:Em; try lia.
  replace (e + s + c <=? emax - prec) with true
    by (symmetry; apply Z.leb_le; unfold emax, prec; lia).
  unfold int_of_float, cond_Zopp. exact Hshift.
Qed.

Lemma pos_iter_xO (k p : positive) :
  Z.pos (Pos.iter xO p k) = Z.pos p * 2 ^ Z.pos k.
Proof.
  induction k as [|k IH] using Pos.peano_ind.
  - simpl. lia.
  - rewrite Pos.iter_succ, Pos2Z.inj_xO, IH, Pos2Z.inj_succ, Z.pow_succ_r by lia.
    ring.
Qed.

(** A mantissa of exactly 53 bits is already in canonical form. *)
Lemma binary_round_aux_exact (P e : Z) :
  2 ^ 52 <= P < 2 ^ 53 -> -1074 <= e <= 971 ->
  binary_round_aux prec emax false P e loc_Exact
  = S754_finite false (Z.to_pos P) e.
Proof.
  intros HP He.
  assert (Hl : Z.log2 P = 52) by (apply log2_range; lia).
  unfold binary_round_aux, shr_fexp.
  rewrite Zdigits2_log2, Hl by lia.
  rewrite fexp_normal by lia.
  replace (52 + 1 + e - 53 - e) with 0 by lia.
  cbn [shr shr_record_of_loc shr_m loc_of_shr_record round_nearest_even].
  rewrite Zdigits2_log2, Hl by lia.
  rewrite fexp_normal by lia.
  replace (52 + 1 + e - 53 - e) with 0 by lia.
  cbn [shr shr_record_of_loc shr_m].
  destruct P as [|p|p]; try lia.
  replace (e <=? emax - prec) with true
    by (symmetry; apply Z.leb_le; unfold emax, prec; lia).
  reflexivity.
Qed.

(** The binary64 image of an integer of [d <= 50] bits. *)
Lemma float_of_int_pos (n d : Z) :
  1 <= d <= 50 -> 2 ^ (d - 1) <= n < 2 ^ d ->
  float_of_int n = S754_finite false (Z.to_pos (n * 2 ^ (53 - d))) (d - 53).
Proof.
  intros Hd Hn.
  assert (Hpow : 0 < 2 ^ (d - 1)) by (apply Z.pow_pos_nonneg; lia).
  destruct n as [|p|p]; try lia.
  unfold float_of_int, binary_normalize, binary_round.
  assert (Hl : Z.log2 (Z.pos p) = d - 1).
  { apply log2_range; [lia|]. replace (d - 1 + 1) with d by lia. assumption. }
  rewrite digits2_pos_log2, Hl, fexp_normal by lia.
  unfold shl_align.
  replace (d - 1 + 1 + 0 - 53 - 0) with (Z.neg (Z.to_pos (53 - d))) by lia.
  rewrite binary_round_aux_exact.
  - rewrite pos_iter_xO. f_equal.
    + rewrite Z2Pos.id by lia. reflexivity.
    + lia.
  - rewrite pos_iter_xO, Z2Pos.id by lia.
    assert (HT : 0 < 2 ^ (53 - d)) by (apply Z.pow_pos_nonneg; lia).
    assert (E1 : 2 ^ 52 = 2 ^ (d - 1) * 2 ^ (53 - d)).
    { rewrite <- Z.pow_add_r by lia. f_equal. lia. }
    assert (E2 : 2 ^ 53 = 2 ^ d * 2 ^ (53 - d)).
    { rewrite <- Z.pow_add_r by lia. f_equal. lia. }
    rewrite E1, E2. split.
    + apply Z.mul_le_mono_nonneg_r; lia.
    + apply Z.mul_lt_mono_pos_r; lia.
  - lia.
Qed.

(** The program's threshold is the integer floor of four fifths of the
    number of variants, for every cluster of fewer than 2^50 variants. *)
Lemma threshold_of_floor_Z (n : Z) :
  0 <= n < 2 ^ 50 ->
  int_of_float (SFmul prec emax float_0_8 (float_of_int n)) = 4 * n / 5.
Proof.
  intros Hn.
  destruct (Z.eq_dec n 0) as [-> | Hn0]; [reflexivity|].
  set (d := Z.log2 n + 1).
  assert (Hlog : 2 ^ (d - 1) <= n < 2 ^ d).
  { unfold d. replace (Z.log2 n + 1 - 1) with (Z.log2 n) by lia.
    replace (Z.log2 n + 1) with (Z.succ (Z.log2 n)) by lia.
    apply Z.log2_spec. lia. }
  assert (Hd : 1 <= d <= 50).
  { unfold d. split; [pose proof (Z.log2_nonneg n); lia|].
    assert (Z.log2 n < 50); [|lia].
    apply Z.log2_lt_pow2; lia. }
  rewrite (float_of_int_pos n d) by assumption.
  set (T := 2 ^ (53 - d)).
  assert (HT8 : 8 <= T).
  { unfold T. change 8 with (2 ^ 3). apply Z.pow_le_mono_r; lia. }
  assert (HnT : 2 ^ 52 <= n * T < 2 ^ 53).
  { assert (E1 : 2 ^ 52 = 2 ^ (d - 1) * T).
    { unfold T. rewrite <- Z.pow_add_r by lia. f_equal. lia. }
    assert (E2 : 2 ^ 53 = 2 ^ d * T).
    { unfold T. rewrite <- Z.pow_add_r by lia. f_equal. lia. }
    rewrite E1, E2. split.
    - apply Z.mul_le_mono_nonneg_r; lia.
    - apply Z.mul_lt_mono_pos_r; lia. }
  unfold SFmul, float_0_8. cbn [xorb].
  rewrite Pos2Z.inj_mul, Z2Pos.id by lia.
  set (M := Z.pos 7205759403792794).
  set (P := M * (n * T)).
  assert (HP : 2 ^ 104 <= P < 2 ^ 106) by (unfold P, M; lia).
  assert (HD : exists D, 105 <= D <= 106 /\ 2 ^ (D - 1) <= P < 2 ^ D).
  { destruct (Z_lt_le_dec P (2 ^ 105)); [exists 105 | exists 106]; simpl; lia. }
  destruct HD as (D & HD & HPD).
  destruct (binary_round_aux_int P (-53 + (d - 53)) D) as (m1 & Hm1 & ->);
    [lia | assumption | lia | lia |].
  set (s := D - 53) in *.
  set (K := 159 - d - D).
  replace (-53 + (d - 53) + s) with (- K) by (unfold K, s; lia).
  assert (HK : 0 <= K) by (unfold K; lia).
  rewrite Z.shiftl_div_pow2 by lia.
  replace (- - K) with K by lia.
  assert (H2K : 0 < 2 ^ K) by (apply Z.pow_pos_nonneg; lia).
  assert (H2s : 0 < 2 ^ s) by (apply Z.pow_pos_nonneg; unfold s; lia).
  assert (Hs53 : 2 ^ s <= 2 ^ 53) by (apply Z.pow_le_mono_r; unfold s; lia).
  assert (HKs : 2 ^ s * 2 ^ K = 2 ^ 53 * T).
  { unfold T. rewrite <- !Z.pow_add_r by (unfold s; lia). f_equal. unfold s, K. lia. }
  pose proof (Z.div_mod (4 * n) 5 ltac:(lia)) as Hdm.
  pose proof (Z.mod_pos_bound (4 * n) 5 ltac:(lia)) as Hr.
  set (q := 4 * n / 5) in *. set (r := (4 * n) mod 5) in *.
  assert (Hlow : q * 2 ^ K <= P / 2 ^ s).
  { apply Z.div_le_lower_bound; [lia|].
    replace (2 ^ s * (q * 2 ^ K)) with (q * 2 ^ 53 * T) by (rewrite <- Z.mul_assoc, <- HKs; ring).
    unfold P. rewrite Z.mul_assoc.
    apply Z.mul_le_mono_nonneg_r; [lia|]. unfold M. lia. }
  assert (Hup : P / 2 ^ s + 1 < (q + 1) * 2 ^ K).
  { assert (P / 2 ^ s < (q + 1) * 2 ^ K - 1); [|lia].
    apply Z.div_lt_upper_bound; [lia|].
    replace (2 ^ s * ((q + 1) * 2 ^ K - 1)) with ((q + 1) * 2 ^ 53 * T - 2 ^ s)
      by (rewrite <- (Z.mul_assoc (q + 1)), <- HKs; ring).
    assert (P + 2 ^ 50 * T < (q + 1) * 2 ^ 53 * T).
    { unfold P. rewrite Z.mul_assoc, <- Z.mul_add_distr_r.
      apply Z.mul_lt_mono_pos_r; [lia|]. unfold M. lia. }
    assert (2 ^ s <= 2 ^ 50 * T); [|clearbody P T s K q r; clear - H H0; lia].
    clearbody P T s K q r. clear - Hs53 HT8. lia. }
  symmetry. clearbody P T s K q r. clear - Hm1 Hlow Hup H2K.
  apply Z.div_unique with (m1 - q * 2 ^ K); lia.
Qed.

Lemma threshold_of_floor (n : nat) :
  Z.of_nat n < 2 ^ 50 -> threshold_of n = 4 * Z.of_nat n / 5.
Proof. intros Hn. unfold threshold_of. apply threshold_of_floor_Z. lia. Qed.

Example threshold_of_examples :
  map threshold_of [1; 2; 5; 9; 10; 11]%nat = [0; 1; 4; 7; 8; 8].
Proof. vm_compute. reflexivity. Qed.

(** ** Gene regions *)

(** A region that fails the test of the loop body is not the one a witness
    of overlap names. *)
Ltac skip_region IH :=
  rewrite IH; split;
  [ intros (a & b & c & Hin & Hrest); exists a, b, c; auto
  | intros (a & b & c & [Heq | Hin] & Ha & Hb);
    [ inversion Heq; subst; first [lia | contradiction]
    | exists a, b, c; auto ] ].

Lemma overlaps_gene_region_true (chrom : string) (start end_ : Z)
    (regions : list GeneRegion) :
  overlaps_gene_region chrom start end_ regions = true <->
  exists rc rs re, In (rc, rs, re) regions /\
    PyStr.lstrip "chr" chrom = rc /\ ~ (end_ < rs \/ start > re).
Proof.
  induction regions as [|[[rc rs] re] rest IH]; simpl.
  - split; [discriminate | intros (? & ? & ? & [] & _)].
  - destruct (String.eqb_spec (PyStr.lstrip "chr" chrom) rc) as [Hc | Hc]; simpl;
      [|skip_region IH].
    destruct (Z.ltb_spec end_ rs) as [H1 | H1]; simpl; [skip_region IH|].
    destruct (Z.gtb_spec start re) as [H2 | H2]; simpl; [skip_region IH|].
    split; [|reflexivity]. intros _. exists rc, rs, re.
    split; [auto|]. split; [assumption | lia].
Qed.

(** The test in terms of the stripped name: a block [start, end_] passes
    exactly when a region stored under the stripped name of its chromosome
    satisfies [not (end_ < region_start or start > region_end)]; a block
    that ends on [region_start] overlaps that region, and a block that
    starts at [region_end + 1] does not. *)
Lemma overlaps_gene_region_boundaries :
  (forall chrom start end_ regions,
      overlaps_gene_region chrom start end_ regions = true <->
      exists rc rs re, In (rc, rs, re) regions /\
        PyStr.lstrip "chr" chrom = rc /\ ~ (end_ < rs \/ start > re))
  /\ (forall chrom start end_ rs re,
        start <= end_ -> end_ = rs -> rs <= re ->
        overlaps_gene_region chrom start end_ [(PyStr.lstrip "chr" chrom, rs, re)] = true)
  /\ (forall chrom start end_ rc rs re,
        start = re + 1 ->
        overlaps_gene_region chrom start end_ [(rc, rs, re)] = false).
Proof.
  split; [exact overlaps_gene_region_true|]. split.
  - intros chrom start end_ rs re Hse -> Hre.
    apply overlaps_gene_region_true. exists (PyStr.lstrip "chr" chrom), rs, re.
    split; [left; reflexivity|]. split; [reflexivity | lia].
  - intros chrom start end_ rc rs re ->.
    destruct (overlaps_gene_region chrom (re + 1) end_ [(rc, rs, re)]) eqn:E;
      [|reflexivity].
    apply overlaps_gene_region_true in E.
    destruct E as (a & b & c & [Heq | []] & _ & Hn).
    inversion Heq; subst. lia.
Qed.

(** Where stripping the characters "c", "h" and "r" from the name of the
    block's chromosome is the same as removing the prefix "chr", the program's
    test and the specified one agree on every list of regions. *)
Lemma overlaps_gene_region_as_specified_agree (chrom : string) (start end_ : Z)
    (regions : list GeneRegion) :
  PyStr.lstrip "chr" chrom = PyStr.removeprefix "chr" chrom ->
  overlaps_gene_region chrom start end_ regions
  = overlaps_gene_region_as_specified chrom start end_ regions.
Proof.
  intros Heq. unfold overlaps_gene_region_as_specified.
  induction regions as [|[[rc rs] re] rest IH]; simpl; [reflexivity|].
  rewrite Heq, IH. destruct (_ && _); reflexivity.
Qed.

(** C6: the gene-region test compares names after [lstrip("chr")], which
    removes every leading "c", "h" and "r" and not the prefix "chr". On the
    usual names the test is the specified one: a block on "chr7" that ends
    on the start of a region stored as "7" passes, and one that starts just
    after its end does not. A block on the contig "hs37d5", however, passes
    against the region that the loader stores for a gene-table row named
    "s37d5": its name is stripped to "s37d5", although with exactly the
    prefix "chr" removed it stays "hs37d5" and no region is on that
    chromosome, so that the specified test rejects the block. *)
Theorem overlaps_gene_region_other_contig :
  load_gene_regions [ {| chromosome_name := "s37d5";
                         start_position := 5000; end_position := 6000 |} ]
  = [("s37d5", 0, 16000)]
  /\ overlaps_gene_region "hs37d5" 100 200 [("s37d5", 0, 16000)] = true
  /\ overlaps_gene_region_as_specified "hs37d5" 100 200 [("s37d5", 0, 16000)] = false
  /\ overlaps_gene_region "chr7" 100 200 [("7", 200, 300)]
     = overlaps_gene_region_as_specified "chr7" 100 200 [("7", 200, 300)]
  /\ overlaps_gene_region "chr7" 100 200 [("7", 200, 300)] = true
  /\ overlaps_gene_region "chr7" 301 400 [("7", 200, 300)] = false.
Proof. repeat split; reflexivity. Qed.

(** Every loaded region is padded by 10,000 on both sides and its start is
    floored at 0. *)
Lemma load_gene_region_padding (row : GeneRow) :
  let '(_, padded_start, padded_end) := load_gene_region row in
  padded_start = Z.max 0 (start_position row - 10000)
  /\ 0 <= padded_start
  /\ padded_end = end_position row + 10000.
Proof. unfold load_gene_region, BUFFER. simpl. lia. Qed.

(** Stripping keeps a name that starts with a character outside "c", "h"
    and "r"; on the usual names "chr1", ... it removes the prefix. *)
Lemma lstrip_chr_prefix (c : ascii) (rest : string) :
  PyStr.mem c "chr" = false ->
  PyStr.lstrip "chr" ("chr" ++ String c rest) = String c rest.
Proof. intros H. simpl in *. rewrite H. reflexivity. Qed.

(** C8: on the contig name "hs37d5", which has no "chr" prefix, the
    normalization of the loader and of the overlap test removes the leading
    "h"; removing exactly the prefix would leave the name unchanged. A block
    on "hs37d5" then matches a region loaded as "s37d5". *)
Theorem lstrip_chr_strips_more_than_prefix :
  PyStr.lstrip "chr" "hs37d5" = "s37d5"
  /\ PyStr.removeprefix "chr" "hs37d5" = "hs37d5"
  /\ load_gene_region {| chromosome_name := "hs37d5";
                         start_position := 5000; end_position := 6000 |}
     = ("s37d5", 0, 16000)
  /\ overlaps_gene_region "hs37d5" 100 200
       (load_gene_regions [ {| chromosome_name := "s37d5";
                               start_position := 5000; end_position := 6000 |} ])
     = true.
Proof. repeat split; reflexivity. Qed.

(** ** The annotation filter *)

Section AnnotationFilter.

Variable py_float : string -> option spec_float.

Lemma ultra_rare_scan_true (gnomad_idx : nat) (af_threshold : spec_float)
    (entries : list string) :
  ultra_rare_scan py_float gnomad_idx af_threshold entries = true <->
  exists entry, In entry entries /\ entry_is_rare py_float gnomad_idx af_threshold entry.
Proof.
  induction entries as [|entry rest IH]; simpl.
  - split; [discriminate | intros (? & [] & _)].
  - assert (Hskip : ~ entry_is_rare py_float gnomad_idx af_threshold entry ->
              (ultra_rare_scan py_float gnomad_idx af_threshold rest = true <->
               exists e, (entry = e \/ In e rest) /\
                         entry_is_rare py_float gnomad_idx af_threshold e)).
    { intros Hn. rewrite IH. split.
      - intros (e & Hin & He). exists e. auto.
      - intros (e & [<- | Hin] & He); [contradiction | exists e; auto]. }
    assert (Hhit : entry_is_rare py_float gnomad_idx af_threshold entry ->
              (true = true <->
               exists e, (entry = e \/ In e rest) /\
                         entry_is_rare py_float gnomad_idx af_threshold e)).
    { intros Hy. split; [|reflexivity]. intros _. exists entry. auto. }
    destruct (PyStr.split "|" entry !! gnomad_idx) as [val|] eqn:Ef.
    + destruct (String.eqb_spec val "") as [-> | Hne1]; simpl.
      { apply Hhit. exists "". rewrite Ef. auto. }
      destruct (String.eqb_spec val ".") as [-> | Hne2]; simpl.
      { apply Hhit. exists ".". rewrite Ef. auto. }
      destruct (py_float val) as [af|] eqn:Epf.
      * destruct (SFleb af af_threshold) eqn:Ele.
        -- apply Hhit. exists val. rewrite Ef. split; [reflexivity|].
           right. right. exists af. auto.
        -- apply Hskip. intros (val' & Hv & Hc). rewrite Ef in Hv.
           inversion Hv; subst val'.
           destruct Hc as [? | [? | (af' & Ha & Hb)]]; try contradiction.
           congruence.
      * apply Hskip. intros (val' & Hv & Hc). rewrite Ef in Hv.
        inversion Hv; subst val'.
        destruct Hc as [? | [? | (af' & Ha & Hb)]]; try contradiction.
        congruence.
    + apply Hskip. intros (val' & Hv & _). rewrite Ef in Hv. discriminate.
Qed.

(** C1, amended: the test answers [true] exactly when the annotation is
    present and not empty and some comma-separated sub-entry has a frequency
    field that is empty, is the placeholder ".", or reads as a number at most
    the threshold. Sub-entries with fewer fields than the index asks for and
    sub-entries whose field does not read as a number never decide; the
    answer is [false] exactly when no sub-entry decides. *)
Theorem is_ultra_rare_variant_spec (variant : Variant) (gnomad_idx : nat)
    (af_threshold : spec_float) :
  is_ultra_rare_variant py_float variant gnomad_idx af_threshold = true <->
  exists csq, INFO_CSQ variant = Some csq /\ csq <> "" /\
    exists entry, In entry (PyStr.split "," csq) /\
      exists val, PyStr.split "|" entry !! gnomad_idx = Some val /\
        (val = "" \/ val = "." \/
         exists af, py_float val = Some af /\ SFleb af af_threshold = true).
Proof.
  unfold is_ultra_rare_variant.
  destruct (INFO_CSQ variant) as [csq|]; simpl.
  - destruct (String.eqb_spec csq "") as [-> | Hne].
    + split; [discriminate|]. intros (c & Hc & Hn & _). inversion Hc; subst.
      contradiction.
    + rewrite ultra_rare_scan_true. split.
      * intros (entry & Hin & He). exists csq. repeat split; auto.
        exists entry. split; assumption.
      * intros (c & Hc & _ & entry & Hin & He). inversion Hc; subst c.
        exists entry. split; assumption.
  - split; [discriminate|]. intros (c & Hc & _). discriminate.
Qed.

End AnnotationFilter.

(** C1 as stated fails: a sub-entry whose frequency field is absent is
    skipped, so a variant whose only sub-entry lacks the field is not
    ultra-rare; and a variant whose annotation is the empty string is not
    ultra-rare although its only sub-entry has an empty field. *)
Lemma is_ultra_rare_variant_absent_field :
  PyStr.split "|" "A|missense" !! 2%nat = None
  /\ is_ultra_rare_variant sample_float
       (sample_variant "chr1" 100 (Some "A|missense")) 2 float_0_0001 = false
  /\ PyStr.split "|" "" !! 0%nat = Some ""
  /\ is_ultra_rare_variant sample_float
       (sample_variant "chr1" 100 (Some "")) 0 float_0_0001 = false.
Proof. repeat split; reflexivity. Qed.

(** The amended statement at work: placeholder, small frequency, large
    frequency, malformed number. *)
Example is_ultra_rare_variant_examples :
  is_ultra_rare_variant sample_float
    (sample_variant "chr1" 100 (Some "A|x|0.5,A|y|.")) 2 float_0_0001 = true
  /\ is_ultra_rare_variant sample_float
    (sample_variant "chr1" 100 (Some "A|x|0.5,A|y|1e-05")) 2 float_0_0001 = true
  /\ is_ultra_rare_variant sample_float
    (sample_variant "chr1" 100 (Some "A|x|0.5,A|y|abc,A|z")) 2 float_0_0001 = false
  /\ is_ultra_rare_variant sample_float
    (sample_variant "chr1" 100 None) 2 float_0_0001 = false.
Proof. repeat split; reflexivity. Qed.

(** ** Carriers and the shared-carrier set *)

Lemma enumerate_from_In {A : Type} (l : list A) : forall (k i : nat) (x : A),
  In (i, x) (PyList.enumerate_from k l) <-> (k <= i)%nat /\ l !! (i - k)%nat = Some x.
Proof.
  induction l as [|y l IH]; intros k i x; simpl.
  - split; [intros [] | intros [_ H]; discriminate].
  - rewrite IH. split.
    + intros [Heq | [Hle Hl]].
      * inversion Heq; subst. split; [lia|]. rewrite Nat.sub_diag. reflexivity.
      * split; [lia|]. replace (i - k)%nat with (S (i - S k)) by lia. exact Hl.
    + intros [Hle Hl]. destruct (Nat.eq_dec i k) as [-> | Hne].
      * rewrite Nat.sub_diag in Hl. inversion Hl; subst. left. reflexivity.
      * right. split; [lia|].
        replace (i - k)%nat with (S (i - S k)) in Hl by lia. exact Hl.
Qed.

(** An individual is a carrier of a variant exactly when one of the first
    two allele calls at its index is positive. *)
Lemma elem_of_variant_carriers (v : Variant) (i : nat) :
  i ∈ variant_carriers v <->
  exists gts, genotypes v !! i = Some gts /\ is_carrier gts = true.
Proof.
  unfold variant_carriers, PyList.enumerate.
  rewrite elem_of_list_to_set, list_elem_of_In, in_map_iff. split.
  - intros ([j gts] & Hj & Hin). simpl in Hj. subst j.
    apply filter_In in Hin. destruct Hin as [Hin Hc].
    apply enumerate_from_In in Hin. destruct Hin as [_ Hl].
    rewrite Nat.sub_0_r in Hl. exists gts. auto.
  - intros (gts & Hl & Hc). exists (i, gts). split; [reflexivity|].
    apply filter_In. split; [|exact Hc].
    apply enumerate_from_In. rewrite Nat.sub_0_r. split; [lia | exact Hl].
Qed.

Lemma variant_carriers_lt (v : Variant) (i : nat) :
  i ∈ variant_carriers v -> (i < length (genotypes v))%nat.
Proof.
  rewrite elem_of_variant_carriers. intros (gts & Hl & _).
  eapply lookup_lt_Some. exact Hl.
Qed.

(** The counter after a fold, from any starting counter. *)
Lemma Counter_fold_lookup (l : list nat) : forall (m : gmap nat nat) (x : nat),
  foldl (fun (m : gmap nat nat) y => <[y := S (default 0%nat (m !! y))]> m) m l !! x
  = match count_occ Nat.eq_dec l x with
    | O => m !! x
    | S c => Some (S c + default 0%nat (m !! x))%nat
    end.
Proof.
  induction l as [|y l IH]; intros m x; simpl.
  - reflexivity.
  - rewrite IH. destruct (Nat.eq_dec y x) as [-> | Hne].
    + rewrite lookup_insert_eq. simpl.
      destruct (count_occ Nat.eq_dec l x); f_equal; lia.
    + rewrite lookup_insert_ne by assumption. reflexivity.
Qed.

Lemma Counter_lookup (l : list nat) (x : nat) :
  Counter l !! x = match count_occ Nat.eq_dec l x with
                   | O => None
                   | S c => Some (S c)
                   end.
Proof.
  unfold Counter. rewrite Counter_fold_lookup, lookup_empty. simpl.
  destruct (count_occ Nat.eq_dec l x); [reflexivity | f_equal; lia].
Qed.

Lemma count_occ_elements (s : gset nat) (i : nat) :
  count_occ Nat.eq_dec (elements s) i = if bool_decide (i ∈ s) then 1%nat else 0%nat.
Proof.
  case_bool_decide as Hi.
  - apply (proj1 (NoDup_count_occ' Nat.eq_dec (elements s))).
    + apply NoDup_ListNoDup, NoDup_elements.
    + apply list_elem_of_In, elem_of_elements. exact Hi.
  - apply count_occ_not_In. intros Hin. apply Hi.
    apply elem_of_elements, list_elem_of_In. exact Hin.
Qed.

Lemma count_occ_flat_list (sets : list (gset nat)) (i : nat) :
  count_occ Nat.eq_dec (flat_list sets) i = occurrences i sets.
Proof.
  unfold flat_list, occurrences. induction sets as [|s sets IH]; simpl.
  - reflexivity.
  - rewrite count_occ_app, IH, count_occ_elements.
    destruct (bool_decide (i ∈ s)); reflexivity.
Qed.

(** Membership in the shared set, over the list of per-variant sets. *)
Lemma elem_of_shared_of_sets (sets : list (gset nat)) (i : nat) :
  i ∈ shared_of_sets sets <->
  (1 <= occurrences i sets)%nat /\
  threshold_of (length sets) <= Z.of_nat (occurrences i sets).
Proof.
  unfold shared_of_sets.
  rewrite elem_of_list_to_set, list_elem_of_In, in_map_iff. split.
  - intros ([j c] & Hj & Hin). simpl in Hj. subst j.
    apply filter_In in Hin. destruct Hin as [Hin Hc]. simpl in Hc.
    apply list_elem_of_In, elem_of_map_to_list in Hin.
    rewrite Counter_lookup, count_occ_flat_list in Hin.
    destruct (occurrences i sets) as [|k]; [discriminate|].
    inversion Hin; subst c. split; [lia|]. apply Z.leb_le. exact Hc.
  - intros [H1 Ht]. exists (i, occurrences i sets). split; [reflexivity|].
    apply filter_In. split.
    + apply list_elem_of_In, elem_of_map_to_list.
      rewrite Counter_lookup, count_occ_flat_list.
      destruct (occurrences i sets) as [|k]; [lia | reflexivity].
    + simpl. apply Z.leb_le. exact Ht.
Qed.

Lemma occurrences_carrier_count (i : nat) (variants : list Variant) :
  occurrences i (map variant_carriers variants) = carrier_count i variants.
Proof.
  unfold occurrences, carrier_count. induction variants as [|v vs IH]; simpl.
  - reflexivity.
  - destruct (bool_decide (i ∈ variant_carriers v)); simpl; rewrite IH; reflexivity.
Qed.

Lemma elem_of_shared_inds (variants : list Variant) (i : nat) :
  i ∈ shared_inds variants <->
  (1 <= carrier_count i variants)%nat /\
  threshold_of (length variants) <= Z.of_nat (carrier_count i variants).
Proof.
  unfold shared_inds.
  rewrite elem_of_shared_of_sets, occurrences_carrier_count, length_map.
  reflexivity.
Qed.

Lemma occurrences_Permutation (i : nat) (sets sets' : list (gset nat)) :
  Permutation sets sets' -> occurrences i sets = occurrences i sets'.
Proof.
  unfold occurrences. induction 1 as [| s l l' _ IH | s t l | l l' l'' _ IH1 _ IH2]; simpl.
  - reflexivity.
  - destruct (bool_decide (i ∈ s)); simpl; rewrite IH; reflexivity.
  - destruct (bool_decide (i ∈ s)), (bool_decide (i ∈ t)); reflexivity.
  - congruence.
Qed.

Lemma shared_of_sets_Permutation (sets sets' : list (gset nat)) :
  Permutation sets sets' -> shared_of_sets sets = shared_of_sets sets'.
Proof.
  intros HP. apply set_eq. intros i.
  rewrite !elem_of_shared_of_sets.
  rewrite (occurrences_Permutation i sets sets' HP).
  rewrite (Permutation_length HP). reflexivity.
Qed.

Lemma carrier_count_pos (i : nat) (variants : list Variant) :
  (1 <= carrier_count i variants)%nat <->
  exists v, In v variants /\ i ∈ variant_carriers v.
Proof.
  unfold carrier_count. induction variants as [|v vs IH]; simpl.
  - split; [lia | intros (? & [] & _)].
  - case_bool_decide as Hi; simpl.
    + split; [|lia]. intros _. exists v. auto.
    + rewrite IH. split.
      * intros (w & Hin & Hw). exists w. auto.
      * intros (w & [<- | Hin] & Hw); [contradiction | exists w; auto].
Qed.

(** Every shared index is the index of a sample of the cluster. *)
Lemma shared_inds_lt_samples (n_samples : nat) (variants : list Variant) (i : nat) :
  wf_cluster n_samples variants -> i ∈ shared_inds variants -> (i < n_samples)%nat.
Proof.
  intros Hwf Hi. apply elem_of_shared_inds in Hi. destruct Hi as [H1 _].
  apply carrier_count_pos in H1. destruct H1 as (v & Hin & Hv).
  unfold wf_cluster in Hwf. rewrite List.Forall_forall in Hwf.
  destruct (Hwf v Hin) as [Hg _]. rewrite <- Hg.
  apply variant_carriers_lt. exact Hv.
Qed.

(** C2, amended: an individual belongs to the shared set exactly when it is
    a carrier at one variant of the cluster at least and the number of
    variants at which it is a carrier reaches [int(0.8 * n)]; that threshold
    is the integer floor of [0.8 * n] for every cluster of fewer than 2^50
    variants; in a cluster of 10 variants, 8 carried variants include the
    individual and 7 exclude it. *)
Theorem shared_inds_majority :
  (forall (variants : list Variant) (i : nat),
      i ∈ shared_inds variants <->
      (1 <= carrier_count i variants)%nat /\
      threshold_of (length variants) <= Z.of_nat (carrier_count i variants))
  /\ (forall n : nat, Z.of_nat n < 2 ^ 50 -> threshold_of n = 4 * Z.of_nat n / 5)
  /\ (forall (variants : list Variant) (i : nat),
        length variants = 10%nat ->
        (carrier_count i variants = 8%nat -> i ∈ shared_inds variants) /\
        (carrier_count i variants = 7%nat -> i ∉ shared_inds variants)).
Proof.
  split; [exact elem_of_shared_inds|]. split; [exact threshold_of_floor|].
  intros variants i Hlen.
  assert (Ht : threshold_of (length variants) = 8).
  { rewrite Hlen, threshold_of_floor by (simpl; lia). reflexivity. }
  split; intros Hc.
  - apply elem_of_shared_inds. rewrite Ht, Hc. lia.
  - rewrite elem_of_shared_inds, Ht, Hc. lia.
Qed.

Lemma shared_inds_majority_witness :
  threshold_of 10 = 8
  /\ 1%nat ∈ shared_inds (sample_cluster 8)
  /\ 1%nat ∉ shared_inds (sample_cluster 7).
Proof.
  split.
  - rewrite (proj1 (proj2 shared_inds_majority) 10%nat); [reflexivity | simpl; lia].
  - split.
    + apply (proj2 (proj2 shared_inds_majority) (sample_cluster 8) 1%nat);
        vm_compute; reflexivity.
    + apply (proj2 (proj2 shared_inds_majority) (sample_cluster 7) 1%nat);
        vm_compute; reflexivity.
Defined.

(** C2 as stated fails on a cluster of one variant: the threshold is 0,
    the third sample carries nothing and so reaches it, and it is not in the
    shared set. *)
Lemma shared_inds_single_variant_non_carrier :
  4 * Z.of_nat (length [sample_variant "chr1" 100 None]) / 5
    <= Z.of_nat (carrier_count 2 [sample_variant "chr1" 100 None])
  /\ 2%nat ∉ shared_inds [sample_variant "chr1" 100 None].
Proof.
  split.
  - vm_compute. discriminate.
  - rewrite elem_of_shared_inds. vm_compute. intros [H _]. inversion H.
Qed.

(** C9: the shared set of a cluster is the same for every reordering of its
    variants; it depends on the per-variant carrier sets only, taken as a
    multiset. *)
Theorem shared_inds_Permutation :
  (forall variants variants' : list Variant,
      Permutation variants variants' ->
      shared_inds variants = shared_inds variants')
  /\ (forall variants variants' : list Variant,
        Permutation (map variant_carriers variants) (map variant_carriers variants') ->
        shared_inds variants = shared_inds variants').
Proof.
  split; intros variants variants' HP; unfold shared_inds;
    apply shared_of_sets_Permutation; [apply Permutation_map|]; exact HP.
Qed.

Lemma shared_inds_Permutation_witness :
  shared_inds [sample_variant "chr1" 100 None; sample_variant_first_only "chr1" 110]
  = shared_inds [sample_variant_first_only "chr1" 110; sample_variant "chr1" 100 None].
Proof.
  apply (proj1 shared_inds_Permutation). apply perm_swap.
Defined.

(** C10: the shared set of a cluster is included in the union of the
    carrier sets of its variants, also when the threshold is 0; for a
    cluster of one variant the threshold is 0 and the shared set is the
    carrier set of that variant. *)
Theorem shared_inds_subset_carriers :
  (forall variants : list Variant,
      shared_inds variants ⊆ ⋃ (map variant_carriers variants))
  /\ threshold_of 1 = 0
  /\ (forall v : Variant, shared_inds [v] = variant_carriers v).
Proof.
  split; [|split; [reflexivity|]].
  - intros variants i Hi. apply elem_of_shared_inds in Hi. destruct Hi as [H1 _].
    apply carrier_count_pos in H1. destruct H1 as (v & Hin & Hv).
    apply elem_of_union_list. exists (variant_carriers v). split; [|exact Hv].
    apply list_elem_of_In, in_map. exact Hin.
  - intros v. apply set_eq. intros i. rewrite elem_of_shared_inds.
    change (threshold_of (length [v])) with 0.
    unfold carrier_count. simpl. case_bool_decide as Hi; simpl; split; try tauto; lia.
Qed.

(** ** Segmentation by genotype mode *)

Lemma blocks_chain_snoc (bs : list Block) : forall (lo hi : Z) (b : Block),
  blocks_chain lo (bs ++ [b]) hi <->
  exists mid, blocks_chain lo bs mid /\ b_start b = mid + 1 /\
              b_start b <= b_end b /\ b_end b = hi.
Proof.
  induction bs as [|c bs IH]; intros lo hi b; simpl.
  - split.
    + intros (Hs & Hle & He). exists (lo - 1). repeat split; lia.
    + intros (mid & Hm & Hs & Hle & He). repeat split; lia.
  - rewrite IH. split.
    + intros (Hs & Hle & mid & Hrest). exists mid. tauto.
    + intros (mid & (Hs & Hle & Hc) & Hrest). repeat split; auto. exists mid. tauto.
Qed.

Lemma alternating_snoc (ms : list (option Mode)) : forall x y : option Mode,
  alternating (ms ++ [x]) -> x <> y -> alternating ((ms ++ [x]) ++ [y]).
Proof.
  induction ms as [|a ms IH]; intros x y Halt Hxy; simpl in *.
  - auto.
  - destruct ms as [|c ms]; simpl in *.
    + destruct Halt as [Hax _]. auto.
    + destruct Halt as [Hac Hrest]. split; [exact Hac|]. apply IH; assumption.
Qed.

Lemma Mode_eqb_false (a b : Mode) : Mode_eqb a b = false -> Some b <> Some a.
Proof. destruct a, b; simpl; intros H; try discriminate; intros E; inversion E. Qed.

Lemma seg_step_inv (shared : gset nat) (k : nat) (st : SegState) (v : Variant) :
  seg_inv k st -> seg_inv (S k) (seg_step shared st (k, v)).
Proof.
  intros (Hk & m & Hcm & Hbs & Hchain & Halt).
  unfold seg_step. rewrite Hcm. simpl fst. simpl snd.
  destruct (Mode_eqb (mode_of shared v) m) eqn:Em.
  - split; [lia|]. exists m. repeat split; auto; lia.
  - split; [lia|]. exists (mode_of shared v). simpl.
    split; [reflexivity|]. split; [lia|]. split.
    + apply blocks_chain_snoc. exists (block_start st - 1).
      unfold b_start, b_end. simpl. repeat split; auto; lia.
    + rewrite map_app. simpl. apply alternating_snoc; [exact Halt|].
      apply Mode_eqb_false. exact Em.
Qed.

Lemma seg_fold_inv (shared : gset nat) (l : list Variant) : forall (k : nat) (st : SegState),
  seg_inv k st ->
  seg_inv (k + length l) (foldl (seg_step shared) st (PyList.enumerate_from k l)).
Proof.
  induction l as [|v l IH]; intros k st Hinv; simpl.
  - rewrite Nat.add_0_r. exact Hinv.
  - replace (k + S (length l))%nat with (S k + length l)%nat by lia.
    apply IH. apply seg_step_inv. exact Hinv.
Qed.

(** After the loop over a cluster that is not empty the invariant holds
    for the whole cluster. *)
Lemma seg_loop_inv (shared : gset nat) (variants : list Variant) :
  variants <> [] ->
  seg_inv (length variants)
          (foldl (seg_step shared) seg_init (PyList.enumerate variants)).
Proof.
  destruct variants as [|v l]; [congruence|]. intros _.
  unfold PyList.enumerate. simpl.
  apply (seg_fold_inv shared l 1).
  unfold seg_inv, seg_step. simpl. split; [lia|].
  exists (mode_of shared v). repeat split; simpl; lia.
Qed.

Lemma segment_chain (shared : gset nat) (variants : list Variant) :
  variants <> [] ->
  blocks_chain 0 (segment shared variants) (Z.of_nat (length variants) - 1)
  /\ alternating (map b_mode (segment shared variants)).
Proof.
  intros Hne. destruct (seg_loop_inv shared variants Hne)
    as (Hk & m & Hcm & Hbs & Hchain & Halt).
  unfold segment. split.
  - apply blocks_chain_snoc. eexists. split; [exact Hchain|].
    unfold b_start, b_end. simpl. lia.
  - rewrite map_app. cbn [map]. change (b_mode (?a, ?b, ?c)) with c. rewrite Hcm. exact Halt.
Qed.

Lemma blocks_chain_sizes (bs : list Block) : forall lo hi : Z,
  blocks_chain lo bs hi ->
  fold_right Z.add 0 (map block_size bs) = hi + 1 - lo.
Proof.
  induction bs as [|b bs IH]; intros lo hi; simpl.
  - lia.
  - intros (Hs & Hle & Hrest). rewrite (IH _ _ Hrest). unfold block_size. lia.
Qed.

Lemma blocks_chain_le (bs : list Block) : forall lo hi : Z,
  blocks_chain lo bs hi -> lo <= hi + 1.
Proof.
  induction bs as [|b bs IH]; intros lo hi; simpl.
  - lia.
  - intros (Hs & Hle & Hrest). apply IH in Hrest. lia.
Qed.

Lemma blocks_chain_indices (bs : list Block) : forall lo hi : Z,
  0 <= lo -> blocks_chain lo bs hi ->
  flat_map block_indices bs
  = map Z.of_nat (seq (Z.to_nat lo) (Z.to_nat (hi + 1 - lo))).
Proof.
  induction bs as [|b bs IH]; intros lo hi Hlo; simpl.
  - intros ->. replace (hi + 1 - (hi + 1)) with 0 by lia. reflexivity.
  - intros (Hs & Hle & Hrest).
    pose proof (blocks_chain_le _ _ _ Hrest) as Hbound.
    assert (H0 : 0 <= b_end b + 1) by lia.
    rewrite (IH _ _ H0 Hrest). unfold block_indices, block_size.
    rewrite <- map_app. f_equal. rewrite Hs.
    replace (Z.to_nat (b_end b + 1)) with (Z.to_nat lo + Z.to_nat (b_end b - lo + 1))%nat by lia.
    rewrite <- seq_app. f_equal. lia.
Qed.

Lemma blocks_chain_bounds (bs : list Block) : forall (lo hi : Z) (b : Block),
  blocks_chain lo bs hi -> In b bs ->
  lo <= b_start b /\ b_start b <= b_end b /\ b_end b <= hi.
Proof.
  induction bs as [|c bs IH]; intros lo hi b; simpl.
  - intros _ [].
  - intros (Hs & Hle & Hrest) [<- | Hin].
    + pose proof (blocks_chain_le _ _ _ Hrest). lia.
    + destruct (IH _ _ _ Hrest Hin) as (H1 & H2 & H3). lia.
Qed.

Lemma blocks_chain_ordered (bs : list Block) : forall (lo hi : Z) (i j : nat) (bi bj : Block),
  blocks_chain lo bs hi -> (i < j)%nat ->
  bs !! i = Some bi -> bs !! j = Some bj -> b_end bi < b_start bj.
Proof.
  induction bs as [|c bs IH]; intros lo hi i j bi bj Hc Hij Hi Hj.
  - discriminate.
  - destruct Hc as (Hs & Hle & Hrest). destruct j as [|j]; [lia|].
    destruct i as [|i]; simpl in Hi, Hj.
    + inversion Hi; subst c.
      assert (Hin : In bj bs) by (apply list_elem_of_In; eapply list_elem_of_lookup_2; exact Hj).
      destruct (blocks_chain_bounds _ _ _ _ Hrest Hin) as (H1 & _). lia.
    + apply (IH _ _ i j bi bj Hrest); [lia | assumption | assumption].
Qed.

Lemma alternating_lookup (ms : list (option Mode)) : forall (i : nat) (x y : option Mode),
  alternating ms -> ms !! i = Some x -> ms !! S i = Some y -> x <> y.
Proof.
  induction ms as [|a ms IH]; intros i x y Halt Hi Hj.
  - discriminate.
  - destruct ms as [|c ms]; [discriminate|].
    destruct Halt as [Hac Hrest]. destruct i as [|i].
    + simpl in Hi, Hj. congruence.
    + apply (IH i x y Hrest); assumption.
Qed.

(** C4: the blocks computed for a cluster that is not empty partition its
    index range: their sizes add up to the size of the cluster, the
    concatenation of their index ranges is the full range 0, ..., n-1, an
    earlier block ends before a later one starts, and neighbouring blocks
    have different modes. *)
Theorem segment_partition (shared : gset nat) (variants : list Variant) :
  variants <> [] ->
  let bs := segment shared variants in
  fold_right Z.add 0 (map block_size bs) = Z.of_nat (length variants)
  /\ flat_map block_indices bs = map Z.of_nat (seq 0 (length variants))
  /\ (forall (i j : nat) (bi bj : Block),
        (i < j)%nat -> bs !! i = Some bi -> bs !! j = Some bj ->
        b_end bi < b_start bj)
  /\ (forall (i : nat) (b b' : Block),
        bs !! i = Some b -> bs !! S i = Some b' -> b_mode b <> b_mode b').
Proof.
  intros Hne bs. destruct (segment_chain shared variants Hne) as [Hchain Halt].
  fold bs in Hchain, Halt. split; [|split; [|split]].
  - rewrite (blocks_chain_sizes _ _ _ Hchain). lia.
  - assert (H0 : 0 <= 0) by lia. rewrite (blocks_chain_indices _ _ _ H0 Hchain).
    do 2 f_equal. lia.
  - intros i j bi bj. apply (blocks_chain_ordered _ _ _ i j bi bj Hchain).
  - intros i b b' Hi Hj.
    apply (alternating_lookup (map b_mode bs) i); [exact Halt | |];
      rewrite list_lookup_fmap; [rewrite Hi | rewrite Hj]; reflexivity.
Qed.

(** ** The segment emitter *)

Lemma index_nonneg {A : Type} (l : list A) (i : Z) :
  0 <= i -> PyList.index l i = l !! Z.to_nat i.
Proof.
  intros Hi. unfold PyList.index.
  destruct (Z.ltb_spec i 0); [lia | reflexivity].
Qed.

Lemma index_last {A : Type} (l : list A) :
  l <> [] -> PyList.index l (-1) = l !! (length l - 1)%nat.
Proof.
  intros Hne. unfold PyList.index. simpl.
  assert (1 <= length l)%nat by (destruct l; [congruence | simpl; lia]).
  destruct (Z.leb_spec 0 (Z.of_nat (length l) + -1)); [|lia].
  f_equal. lia.
Qed.

Lemma slice_in_range {A : Type} (l : list A) (a b : Z) :
  0 <= a <= b -> b <= Z.of_nat (length l) ->
  PyList.slice l a b = take (Z.to_nat (b - a)) (drop (Z.to_nat a) l).
Proof.
  intros Hab Hb. unfold PyList.slice, PyList.clamp.
  destruct (Z.ltb_spec a 0); [lia|]. destruct (Z.ltb_spec b 0); [lia|].
  rewrite !Z.min_l by lia. f_equal. lia.
Qed.

(** The variants of a block that lies inside the cluster: the slice is
    not empty, and its first and last positions are those of the variants
    at [b_start] and [b_end]. *)
Lemma block_vars_in_range (variants : list Variant) (s e : Z) :
  0 <= s <= e -> e < Z.of_nat (length variants) ->
  exists first last,
    variants !! Z.to_nat s = Some first /\ variants !! Z.to_nat e = Some last /\
    pos_at (PyList.slice variants s (e + 1)) 0 = POS first /\
    pos_at (PyList.slice variants s (e + 1)) (-1) = POS last /\
    Z.of_nat (length (PyList.slice variants s (e + 1))) = e - s + 1.
Proof.
  intros Hse He.
  destruct (lookup_lt_is_Some_2 variants (Z.to_nat s)) as [first Hf]; [lia|].
  destruct (lookup_lt_is_Some_2 variants (Z.to_nat e)) as [last Hl]; [lia|].
  exists first, last. split; [exact Hf|]. split; [exact Hl|].
  rewrite slice_in_range by lia.
  set (bv := take (Z.to_nat (e + 1 - s)) (drop (Z.to_nat s) variants)).
  assert (Hlen : length bv = Z.to_nat (e + 1 - s)).
  { unfold bv. rewrite length_take_le; [reflexivity|]. rewrite length_drop. lia. }
  assert (Hne : bv <> []).
  { intros E. rewrite E in Hlen. simpl in Hlen. lia. }
  unfold pos_at. rewrite index_nonneg by lia. rewrite index_last by exact Hne.
  rewrite Hlen. unfold bv. rewrite !lookup_take_lt, !lookup_drop by lia.
  change (Z.to_nat 0) with 0%nat. rewrite Nat.add_0_r, Hf.
  replace (Z.to_nat s + (Z.to_nat (e + 1 - s) - 1))%nat with (Z.to_nat e) by lia.
  rewrite Hl. repeat split; try reflexivity. lia.
Qed.

(** Every block computed for a cluster lies inside the cluster, so every
    access by position that the emitter makes is in range. *)
Lemma segment_blocks_in_range (shared : gset nat) (variants : list Variant) (b : Block) :
  In b (segment shared variants) -> variants <> [] ->
  0 <= b_start b /\ b_start b <= b_end b /\ b_end b < Z.of_nat (length variants).
Proof.
  intros Hin Hne. destruct (segment_chain shared variants Hne) as [Hchain _].
  destruct (blocks_chain_bounds _ _ _ _ Hchain Hin) as (H1 & H2 & H3). lia.
Qed.

Section EmitterFacts.

Variable py_float : string -> option spec_float.

(** The record, if any, that the emitter prints for a block inside the
    cluster: its positions and both flank gaps. *)
Lemma emit_block_flanks (cfg : Config) (variants : list Variant)
    (prev next : option Z) (chrom : string) (n_shared : Z) (inds_str : string)
    (b : Block) (r : OutputRecord) :
  0 <= b_start b -> b_start b <= b_end b -> b_end b < Z.of_nat (length variants) ->
  In r (emit_block py_float cfg variants prev next chrom n_shared inds_str b) ->
  exists first last,
    variants !! Z.to_nat (b_start b) = Some first /\
    variants !! Z.to_nat (b_end b) = Some last /\
    r_start r = POS first /\ r_end r = POS last /\
    (b_start b = 0 -> r_err_left r = option_map (fun f => r_start r - f) prev) /\
    (b_start b <> 0 -> exists p,
        variants !! Z.to_nat (b_start b - 1) = Some p /\
        r_err_left r = Some (r_start r - POS p)) /\
    (b_end b = Z.of_nat (length variants) - 1 ->
        r_err_right r = option_map (fun f => f - r_end r) next) /\
    (b_end b <> Z.of_nat (length variants) - 1 -> exists q,
        variants !! Z.to_nat (b_end b + 1) = Some q /\
        r_err_right r = Some (POS q - r_end r)).
Proof.
  destruct b as [[s e] m]. unfold b_start, b_end. simpl.
  intros Hs Hse He Hin.
  destruct (block_vars_in_range variants s e) as (first & last & Hf & Hl & Hp0 & Hp1 & Hlen);
    [lia | lia |].
  exists first, last. split; [exact Hf|]. split; [exact Hl|].
  rewrite Hp0, Hp1 in Hin.
  destruct (_ || _ || _) in Hin; [destruct Hin|].
  destruct (negb _) in Hin; [destruct Hin|].
  destruct (_ <? min_ultra_rare cfg) in Hin; [destruct Hin|].
  destruct Hin as [<- | []]. simpl.
  split; [reflexivity|]. split; [reflexivity|].
  split; [|split; [|split]].
  - intros ->. simpl. destruct prev; reflexivity.
  - intros Hs0. destruct (Z.gtb_spec s 0) as [_ | ?]; [|lia].
    destruct (lookup_lt_is_Some_2 variants (Z.to_nat (s - 1))) as [p Hp]; [lia|].
    exists p. split; [exact Hp|].
    unfold pos_at. rewrite index_nonneg, Hp by lia. reflexivity.
  - intros ->. destruct (Z.ltb_spec (Z.of_nat (length variants) - 1 + 1)
                                    (Z.of_nat (length variants))) as [? | _]; [lia|].
    destruct next; reflexivity.
  - intros He0. destruct (Z.ltb_spec (e + 1) (Z.of_nat (length variants))) as [_ | ?]; [|lia].
    destruct (lookup_lt_is_Some_2 variants (Z.to_nat (e + 1))) as [q Hq]; [lia|].
    exists q. split; [exact Hq|].
    unfold pos_at. rewrite index_nonneg, Hq by lia. reflexivity.
Qed.

(** The records of a flush are those of the blocks of the cluster. *)
Lemma flush_cluster_In (cfg : Config) (variants : list Variant)
    (prev next : option Z) (r : OutputRecord) :
  In r (flush_cluster py_float cfg variants prev next) ->
  variants <> [] /\
  exists b chrom n_shared inds_str,
    In b (segment (shared_inds variants) variants) /\
    In r (emit_block py_float cfg variants prev next chrom n_shared inds_str b).
Proof.
  unfold flush_cluster. destruct variants as [|v0 rest]; [intros []|].
  destruct (_ <? min_individuals cfg); [intros []|].
  destruct (opt_gt _ _); [intros []|].
  intros Hin. apply in_flat_map in Hin. destruct Hin as (b & Hb & Hr).
  split; [discriminate|]. eauto 8.
Qed.

(** C5: every record printed for a cluster comes from one of its blocks;
    its left gap is taken from [prev_nonshared_pos] when the block starts at
    the first variant of the cluster and from the variant just before the
    block otherwise; its right gap is taken from [next_nonshared_pos] when
    the block ends at the last variant and from the variant just after the
    block otherwise; a flank that is [None] gives a gap that is [None]. *)
Theorem flush_cluster_flank_gaps (cfg : Config) (variants : list Variant)
    (prev next : option Z) (r : OutputRecord) :
  In r (flush_cluster py_float cfg variants prev next) ->
  exists b first last,
    In b (segment (shared_inds variants) variants) /\
    variants !! Z.to_nat (b_start b) = Some first /\
    variants !! Z.to_nat (b_end b) = Some last /\
    r_start r = POS first /\ r_end r = POS last /\
    (b_start b = 0 -> r_err_left r = option_map (fun f => r_start r - f) prev) /\
    (b_start b <> 0 -> exists p,
        variants !! Z.to_nat (b_start b - 1) = Some p /\
        r_err_left r = Some (r_start r - POS p)) /\
    (b_end b = Z.of_nat (length variants) - 1 ->
        r_err_right r = option_map (fun f => f - r_end r) next) /\
    (b_end b <> Z.of_nat (length variants) - 1 -> exists q,
        variants !! Z.to_nat (b_end b + 1) = Some q /\
        r_err_right r = Some (POS q - r_end r)).
Proof.
  intros Hin. apply flush_cluster_In in Hin.
  destruct Hin as (Hne & b & chrom & n_shared & inds_str & Hb & Hr).
  destruct (segment_blocks_in_range _ _ _ Hb Hne) as (H1 & H2 & H3).
  destruct (emit_block_flanks cfg variants prev next chrom n_shared inds_str b r
              H1 H2 H3 Hr) as (first & last & Hrest).
  exists b, first, last. split; [exact Hb | exact Hrest].
Qed.

(** C7: a cluster whose number of shared carriers is below
    [min_individuals], or above a [max_individuals] that is set, prints no
    record, and so does a cluster none of whose blocks passes the filters;
    in both cases the call returns normally. *)
Theorem flush_cluster_discards (cfg : Config) (variants : list Variant)
    (prev next : option Z) :
  (Z.of_nat (size (shared_inds variants)) < min_individuals cfg \/
   (exists m, max_individuals cfg = Some m /\
              Z.of_nat (size (shared_inds variants)) > m) ->
   flush_cluster py_float cfg variants prev next = [])
  /\ ((forall b chrom n_shared inds_str,
         In b (segment (shared_inds variants) variants) ->
         emit_block py_float cfg variants prev next chrom n_shared inds_str b = []) ->
      flush_cluster py_float cfg variants prev next = []).
Proof.
  split.
  - intros Hbound. unfold flush_cluster. destruct variants as [|v0 rest]; [reflexivity|].
    destruct (Z.ltb_spec (Z.of_nat (size (shared_inds (v0 :: rest)))) (min_individuals cfg))
      as [_ | Hge]; [reflexivity|].
    destruct Hbound as [Hlt | (m & Hm & Hgt)]; [lia|].
    rewrite Hm. simpl. destruct (Z.gtb_spec (Z.of_nat (size (shared_inds (v0 :: rest)))) m);
      [reflexivity | lia].
  - intros Hall. destruct (flush_cluster py_float cfg variants prev next) as [|r rs] eqn:E;
      [reflexivity|].
    assert (Hin : In r (flush_cluster py_float cfg variants prev next))
      by (rewrite E; left; reflexivity).
    apply flush_cluster_In in Hin.
    destruct Hin as (_ & b & chrom & n_shared & inds_str & Hb & Hr).
    rewrite (Hall b chrom n_shared inds_str Hb) in Hr. destruct Hr.
Qed.

End EmitterFacts.

Lemma segment_partition_witness :
  fold_right Z.add 0 (map block_size (segment (shared_inds sample_mixed) sample_mixed)) = 4
  /\ segment (shared_inds sample_mixed) sample_mixed
     = [(0, 1, Some Double); (2, 2, Some Single); (3, 3, Some Double)].
Proof.
  split.
  - apply (proj1 (segment_partition (shared_inds sample_mixed) sample_mixed
                    ltac:(discriminate))).
  - vm_compute. reflexivity.
Defined.

Lemma flush_cluster_flank_gaps_witness :
  exists b first last,
    In b (segment (shared_inds sample_mixed) sample_mixed) /\
    sample_mixed !! Z.to_nat (b_start b) = Some first /\
    sample_mixed !! Z.to_nat (b_end b) = Some last /\
    100 = POS first /\ 110 = POS last /\
    (b_start b = 0 -> Some 60 = option_map (fun f => 100 - f) (Some 40)) /\
    (b_start b <> 0 -> exists p,
        sample_mixed !! Z.to_nat (b_start b - 1) = Some p /\
        Some 60 = Some (100 - POS p)) /\
    (b_end b = 4 - 1 -> Some 10 = option_map (fun f => f - 110) None) /\
    (b_end b <> 4 - 1 -> exists q,
        sample_mixed !! Z.to_nat (b_end b + 1) = Some q /\
        Some 10 = Some (POS q - 110)).
Proof.
  apply (flush_cluster_flank_gaps sample_float (sample_config 2) sample_mixed
           (Some 40) None
           {| r_chrom := "chr1"; r_start := 100; r_end := 110;
              r_n_variants := 2; r_n_individuals := 2; r_individuals := "S1,S2";
              r_mode := Some Double; r_err_left := Some 60; r_err_right := Some 10;
              r_n_ultra_rare := 2; r_filter := "ULTRA_RARE" |}).
  vm_compute. left. reflexivity.
Defined.

Lemma flush_cluster_discards_witness :
  flush_cluster sample_float (sample_config 3) sample_mixed (Some 40) None = [].
Proof.
  apply (proj1 (flush_cluster_discards sample_float (sample_config 3) sample_mixed
                  (Some 40) None)).
  left. vm_compute. reflexivity.
Defined.

(** ** The cluster accumulator *)

Lemma last_position_snoc (cluster : list Variant) (v : Variant) :
  last_position (cluster ++ [v]) = POS v.
Proof.
  unfold last_position, pos_at.
  rewrite index_last by (destruct cluster; discriminate).
  rewrite length_app. simpl.
  rewrite lookup_app_r by lia.
  replace (length cluster + 1 - 1 - length cluster)%nat with 0%nat by lia.
  reflexivity.
Qed.

Lemma acc_step_inv (cluster_distance : Z) (st : AccState) (v : Variant) :
  acc_inv st -> acc_inv (fst (acc_step cluster_distance st v)).
Proof.
  unfold acc_inv, acc_step. intros Hinv.
  destruct (last_pos st) as [lp|].
  - destruct Hinv as [Hne Hlp].
    destruct (current_cluster st) as [|c0 rest] eqn:Ec; [congruence|].
    destruct (negb (String.eqb (CHROM v) (CHROM c0))); simpl.
    + split; [discriminate | reflexivity].
    + destruct (POS v - lp <=? cluster_distance); simpl.
      * split; [discriminate|].
        change (c0 :: (rest ++ [v])%list) with ((c0 :: rest) ++ [v])%list.
        rewrite last_position_snoc. reflexivity.
      * split; [discriminate | reflexivity].
  - simpl. rewrite Hinv. simpl. split; [discriminate | reflexivity].
Qed.

Lemma acc_run_snoc (cluster_distance : Z) (st : AccState)
    (stream : list Variant) (v : Variant) :
  acc_run cluster_distance st (stream ++ [v])
  = (fst (acc_step cluster_distance (fst (acc_run cluster_distance st stream)) v),
     (snd (acc_run cluster_distance st stream)
      ++ snd (acc_step cluster_distance (fst (acc_run cluster_distance st stream)) v))%list).
Proof.
  unfold acc_run. rewrite foldl_app. simpl.
  destruct (acc_step cluster_distance _ v). reflexivity.
Qed.

(** Every state the loop reaches satisfies the invariant. *)
Lemma acc_invariant (cluster_distance : Z) (st : AccState) :
  reachable cluster_distance st -> acc_inv st.
Proof.
  intros [stream <-]. induction stream as [|v stream IH] using rev_ind.
  - reflexivity.
  - rewrite acc_run_snoc. simpl. apply acc_step_inv. exact IH.
Qed.

(** C3: in a reachable state whose cluster [C] is not empty, a variant on
    another chromosome flushes [C] with no next flank and forgets the
    previous flank; a variant on the same chromosome further than the
    cluster distance from the last position flushes [C] with its own
    position as next flank and remembers the last position of [C] as the
    previous flank; any other variant is appended. After the stream the
    remaining cluster is flushed with no next flank, and flushing an empty
    cluster prints nothing. *)
Theorem acc_step_spec (cluster_distance : Z) (st : AccState) (v c0 : Variant) :
  reachable cluster_distance st ->
  head (current_cluster st) = Some c0 ->
  let C := current_cluster st in
  last_pos st = Some (last_position C)
  /\ (CHROM v <> CHROM c0 ->
      acc_step cluster_distance st v
      = ({| current_cluster := [v]; prev_nonshared_pos := None;
            last_pos := Some (POS v) |},
         [ {| fc_variants := C; fc_prev := prev_nonshared_pos st; fc_next := None |} ]))
  /\ (CHROM v = CHROM c0 -> POS v - last_position C > cluster_distance ->
      acc_step cluster_distance st v
      = ({| current_cluster := [v];
            prev_nonshared_pos := Some (last_position C);
            last_pos := Some (POS v) |},
         [ {| fc_variants := C; fc_prev := prev_nonshared_pos st;
              fc_next := Some (POS v) |} ]))
  /\ (CHROM v = CHROM c0 -> POS v - last_position C <= cluster_distance ->
      acc_step cluster_distance st v
      = ({| current_cluster := (C ++ [v])%list;
            prev_nonshared_pos := prev_nonshared_pos st;
            last_pos := Some (POS v) |}, []))
  /\ (forall stream : list Variant,
        main_calls cluster_distance stream
        = (snd (acc_run cluster_distance acc_init stream)
           ++ [ {| fc_variants :=
                     current_cluster (fst (acc_run cluster_distance acc_init stream));
                   fc_prev :=
                     prev_nonshared_pos (fst (acc_run cluster_distance acc_init stream));
                   fc_next := None |} ])%list)
  /\ (forall py_float cfg prev next, flush_cluster py_float cfg [] prev next = []).
Proof.
  intros Hreach Hhead C. pose proof (acc_invariant _ _ Hreach) as Hinv.
  unfold acc_inv in Hinv. subst C.
  destruct (current_cluster st) as [|c rest] eqn:Ec; [discriminate|].
  simpl in Hhead. inversion Hhead; subst c.
  destruct (last_pos st) as [lp|] eqn:El; [|discriminate].
  destruct Hinv as [_ Hlp]. subst lp.
  split; [reflexivity|].
  unfold acc_step. rewrite El, Ec.
  split; [|split; [|split; [|split]]].
  - intros Hc. destruct (String.eqb_spec (CHROM v) (CHROM c0)); [contradiction|].
    reflexivity.
  - intros Hc Hd. destruct (String.eqb_spec (CHROM v) (CHROM c0)); [|contradiction].
    simpl. destruct (Z.leb_spec (POS v - last_position (c0 :: rest)) cluster_distance);
      [lia | reflexivity].
  - intros Hc Hd. destruct (String.eqb_spec (CHROM v) (CHROM c0)); [|contradiction].
    simpl. destruct (Z.leb_spec (POS v - last_position (c0 :: rest)) cluster_distance);
      [reflexivity | lia].
  - intros stream. unfold main_calls, final_call.
    destruct (acc_run cluster_distance acc_init stream). reflexivity.
  - reflexivity.
Qed.

Lemma acc_step_spec_witness :
  acc_step 15 (fst (acc_run 15 acc_init sample_mixed)) (sample_variant_hom "chr1" 200)
  = ({| current_cluster := [sample_variant_hom "chr1" 200];
        prev_nonshared_pos := Some 130;
        last_pos := Some 200 |},
     [ {| fc_variants := sample_mixed; fc_prev := None; fc_next := Some 200 |} ]).
Proof.
  apply (proj1 (proj2 (proj2 (acc_step_spec 15 (fst (acc_run 15 acc_init sample_mixed))
                  (sample_variant_hom "chr1" 200) (sample_variant_hom "chr1" 100)
                  ltac:(exists sample_mixed; reflexivity) ltac:(reflexivity))))).
  - reflexivity.
  - vm_compute. reflexivity.
Defined.

(** A stream with a gap and a change of chromosome: three calls, with no
    flank on either side of the chromosome boundary. *)
Example main_calls_example :
  main_calls 15 (sample_mixed ++ [sample_variant_hom "chr1" 200;
                                  sample_variant_hom "chr2" 10])%list
  = [ {| fc_variants := sample_mixed; fc_prev := None; fc_next := Some 200 |};
      {| fc_variants := [sample_variant_hom "chr1" 200];
         fc_prev := Some 130; fc_next := None |};
      {| fc_variants := [sample_variant_hom "chr2" 10];
         fc_prev := None; fc_next := None |} ].
Proof. vm_compute. reflexivity. Qed.

(** ** The stream of clusters that [main] flushes *)

Lemma adjacent_snoc {A : Type} (R : A -> A -> Prop) (l : list A) : forall y : A,
  adjacent R l -> (forall x, last l = Some x -> R x y) -> adjacent R (l ++ [y]).
Proof.
  induction l as [|a l IH]; intros y Hadj Hlast; simpl in *.
  - exact I.
  - destruct l as [|b l]; simpl in *.
    + split; [apply Hlast; reflexivity | exact I].
    + destruct Hadj as [Hab Hrest]. split; [exact Hab|].
      apply IH; [exact Hrest | exact Hlast].
Qed.

Lemma adjacent_lookup {A : Type} (R : A -> A -> Prop) (l : list A) :
  forall (i : nat) (x y : A),
  adjacent R l -> l !! i = Some x -> l !! S i = Some y -> R x y.
Proof.
  induction l as [|a l IH]; intros i x y Hadj Hi Hj.
  - discriminate.
  - destruct l as [|b l]; [discriminate|].
    destruct Hadj as [Hab Hrest]. destruct i as [|i].
    + simpl in Hi, Hj. inversion Hi; inversion Hj; subst. exact Hab.
    + apply (IH i x y Hrest); assumption.
Qed.

Lemma last_position_last (cluster : list Variant) (x : Variant) :
  last cluster = Some x -> last_position cluster = POS x.
Proof.
  intros Hl. destruct (decide (cluster = [])) as [-> | Hne]; [discriminate|].
  unfold last_position, pos_at. rewrite index_last by exact Hne.
  rewrite last_lookup in Hl.
  replace (length cluster - 1)%nat with (pred (length cluster)) by lia.
  rewrite Hl. reflexivity.
Qed.

Lemma acc_step_cluster_nonempty (cluster_distance : Z) (st : AccState) (v : Variant) :
  acc_inv st -> current_cluster (fst (acc_step cluster_distance st v)) <> [].
Proof.
  unfold acc_inv, acc_step. intros Hinv.
  destruct (last_pos st) as [lp|].
  - destruct Hinv as [Hne _].
    destruct (current_cluster st) as [|c0 rest] eqn:Ec; [congruence|].
    destruct (negb (String.eqb (CHROM v) (CHROM c0))); simpl; [discriminate|].
    destruct (POS v - lp <=? cluster_distance); simpl; discriminate.
  - simpl. rewrite Hinv. discriminate.
Qed.

(** The open cluster is empty only before the first variant is read. *)
Lemma acc_run_cluster_empty (cluster_distance : Z) (stream : list Variant) :
  current_cluster (fst (acc_run cluster_distance acc_init stream)) = [] ->
  stream = [].
Proof.
  destruct stream as [|x l] using rev_ind; [reflexivity|].
  rewrite acc_run_snoc. simpl. intros H. exfalso.
  revert H. apply acc_step_cluster_nonempty. apply (acc_invariant cluster_distance).
  exists l. reflexivity.
Qed.

(** What reading one more variant does to the list of calls: the last
    call, which holds the cluster still open, is extended or closed. *)
Lemma main_calls_snoc (cluster_distance : Z) (stream : list Variant) (v : Variant) :
  let st := fst (acc_run cluster_distance acc_init stream) in
  let calls := snd (acc_run cluster_distance acc_init stream) in
  main_calls cluster_distance stream = (calls ++ [final_call st])%list /\
  main_calls cluster_distance (stream ++ [v])
  = match current_cluster st with
    | [] => [ {| fc_variants := [v]; fc_prev := None; fc_next := None |} ]
    | c0 :: _ =>
        if negb (String.eqb (CHROM v) (CHROM c0)) then
          (calls ++ [ {| fc_variants := current_cluster st;
                         fc_prev := prev_nonshared_pos st; fc_next := None |};
                      {| fc_variants := [v]; fc_prev := None; fc_next := None |} ])%list
        else if POS v - last_position (current_cluster st) <=? cluster_distance then
          (calls ++ [ {| fc_variants := (current_cluster st ++ [v])%list;
                         fc_prev := prev_nonshared_pos st; fc_next := None |} ])%list
        else
          (calls ++ [ {| fc_variants := current_cluster st;
                         fc_prev := prev_nonshared_pos st; fc_next := Some (POS v) |};
                      {| fc_variants := [v];
                         fc_prev := Some (last_position (current_cluster st));
                         fc_next := None |} ])%list
    end.
Proof.
  intros st calls. split.
  { unfold main_calls, st, calls. destruct (acc_run cluster_distance acc_init stream).
    reflexivity. }
  assert (Hinv : acc_inv st) by (apply (acc_invariant cluster_distance); exists stream; reflexivity).
  unfold main_calls. rewrite acc_run_snoc. fold st calls.
  unfold acc_inv in Hinv. unfold acc_step, final_call.
  destruct (current_cluster st) as [|c0 rest] eqn:Ec.
  - assert (Hs : stream = []) by (apply (acc_run_cluster_empty cluster_distance); exact Ec).
    subst stream. reflexivity.
  - destruct (last_pos st) as [lp|] eqn:El; [|discriminate].
    destruct Hinv as [_ ->].
    destruct (negb (String.eqb (CHROM v) (CHROM c0))); simpl.
    + rewrite <- app_assoc. reflexivity.
    + destruct (POS v - last_position (c0 :: rest) <=? cluster_distance); simpl.
      * rewrite app_nil_r. reflexivity.
      * rewrite <- app_assoc. reflexivity.
Qed.

Lemma adjacent_replace_last {A : Type} (R : A -> A -> Prop) (l : list A) (x x' : A) :
  adjacent R (l ++ [x]) -> (forall w, R w x -> R w x') -> adjacent R (l ++ [x']).
Proof.
  induction l as [|a l IH]; intros Hadj Himp; simpl in *.
  - exact I.
  - destruct l as [|b l]; simpl in *.
    + destruct Hadj as [Hax _]. split; [apply Himp; exact Hax | exact I].
    + destruct Hadj as [Hab Hrest]. split; [exact Hab | apply IH; assumption].
Qed.

Lemma adjacent_snoc2 {A : Type} (R : A -> A -> Prop) (l : list A) (x y : A) :
  adjacent R (l ++ [x]) -> R x y -> adjacent R (l ++ [x; y]).
Proof.
  intros Hadj Hxy.
  change (l ++ [x; y])%list with (l ++ ([x] ++ [y]))%list. rewrite app_assoc.
  apply adjacent_snoc; [exact Hadj|].
  intros w Hw. rewrite last_snoc in Hw. inversion Hw; subst. exact Hxy.
Qed.

Lemma same_chrom_snoc (c0 : Variant) (rest : list Variant) (v : Variant) :
  same_chrom (c0 :: rest) -> CHROM v = CHROM c0 -> same_chrom ((c0 :: rest) ++ [v]).
Proof.
  unfold same_chrom. simpl. intros Hs Hv.
  change (c0 :: (rest ++ [v])%list) with ((c0 :: rest) ++ [v])%list.
  apply Forall_app. split; [exact Hs|]. constructor; [exact Hv | constructor].
Qed.

Lemma main_calls_inv (cluster_distance : Z) (stream : list Variant) :
  calls_inv cluster_distance stream (main_calls cluster_distance stream).
Proof.
  induction stream as [|v stream IH] using rev_ind.
  - unfold calls_inv. simpl. repeat split; auto.
    + repeat constructor.
    + congruence.
    + eexists. split; reflexivity.
  - destruct (main_calls_snoc cluster_distance stream v) as [Hcs Hnext].
    set (st := fst (acc_run cluster_distance acc_init stream)) in *.
    set (calls := snd (acc_run cluster_distance acc_init stream)) in *.
    rewrite Hnext. rewrite Hcs in IH. clear Hnext Hcs.
    assert (Hce : current_cluster st = [] -> stream = [])
      by apply (acc_run_cluster_empty cluster_distance).
    assert (Hec : stream = [] -> current_cluster st = [])
      by (intros ->; reflexivity).
    clearbody st calls.
    destruct IH as (Hcat & Hok & Hne & Hadj & Hhead).
    rewrite map_app, concat_app in Hcat. simpl in Hcat. rewrite app_nil_r in Hcat.
    apply Forall_app in Hok. destruct Hok as [Hok Hfin].
    inversion Hfin as [|? ? [Hsc Hgw] _]; subst. simpl in Hsc, Hgw.
    destruct (current_cluster st) as [|c0 rest] eqn:Ec.
    { rewrite (Hce eq_refl). unfold calls_inv. simpl.
      split; [reflexivity|]. split; [|split; [|split]].
      - constructor; [|constructor]. simpl. split; [repeat constructor | exact I].
      - intros _. constructor; [|constructor]. simpl. discriminate.
      - exact I.
      - eexists. split; reflexivity. }
    assert (Hsne : (concat (map fc_variants calls) ++ c0 :: rest)%list <> [])
      by (destruct (concat (map fc_variants calls)); discriminate).
    specialize (Hne Hsne). apply Forall_app in Hne. destruct Hne as [Hne _].
    assert (Hhd : forall x tl', fc_prev x = prev_nonshared_pos st ->
               exists c, head (calls ++ x :: tl')%list = Some c /\ fc_prev c = None).
    { intros x tl' Hx. destruct Hhead as (c & Hc & Hp).
      destruct calls as [|a calls']; simpl in *.
      - inversion Hc; subst c. simpl in Hp. exists x. split; [reflexivity | congruence].
      - exists c. split; assumption. }
    clear Hce Hec. unfold final_call in Hadj. rewrite Ec in Hadj.
    destruct (String.eqb_spec (CHROM v) (CHROM c0)) as [Hchrom | Hchrom]; simpl.
    + destruct (Z.leb_spec (POS v - last_position (c0 :: rest)) cluster_distance) as [Hd | Hd].
      * (* appended *)
        unfold calls_inv. split; [|split; [|split; [|split]]].
        -- rewrite map_app, concat_app. simpl. rewrite ?app_nil_r, <- ?app_assoc. reflexivity.
        -- apply Forall_app. split; [exact Hok|]. constructor; [|constructor]. simpl.
           split; [apply same_chrom_snoc; assumption|].
           unfold gaps_within. change (c0 :: (rest ++ [v])%list) with ((c0 :: rest) ++ [v])%list.
           apply adjacent_snoc; [exact Hgw|].
           intros x Hx. rewrite <- (last_position_last _ _ Hx). exact Hd.
        -- intros _. apply Forall_app. split; [exact Hne|]. constructor; [|constructor].
           simpl. discriminate.
        -- eapply adjacent_replace_last; [exact Hadj|].
           intros w (f1 & f2 & H1 & H2 & Hcase). exists f1, f2. simpl in *.
           try rewrite Ec in H2. split; [exact H1|]. split; [exact H2 | exact Hcase].
        -- apply Hhd. reflexivity.
      * (* gap *)
        unfold calls_inv. split; [|split; [|split; [|split]]].
        -- rewrite map_app, concat_app. simpl. rewrite ?app_nil_r, <- ?app_assoc. reflexivity.
        -- apply Forall_app. split; [exact Hok|].
           constructor; [simpl; auto|]. constructor; [|constructor]. simpl.
           split; [repeat constructor | exact I].
        -- intros _. apply Forall_app. split; [exact Hne|].
           constructor; [simpl; discriminate|]. constructor; [|constructor].
           simpl. discriminate.
        -- apply adjacent_snoc2.
           ++ eapply adjacent_replace_last; [exact Hadj|].
              intros w (f1 & f2 & H1 & H2 & Hcase). exists f1, f2. simpl in *.
              try rewrite Ec in H2. auto.
           ++ exists c0, v. simpl. split; [reflexivity|]. split; [reflexivity|].
              right. repeat split; auto. lia.
        -- apply Hhd. reflexivity.
    + (* chromosome change *)
      unfold calls_inv. split; [|split; [|split; [|split]]].
      * rewrite map_app, concat_app. simpl. rewrite ?app_nil_r, <- ?app_assoc. reflexivity.
      * apply Forall_app. split; [exact Hok|].
        constructor; [simpl; auto|]. constructor; [|constructor]. simpl.
        split; [repeat constructor | exact I].
      * intros _. apply Forall_app. split; [exact Hne|].
        constructor; [simpl; discriminate|]. constructor; [|constructor].
        simpl. discriminate.
      * apply adjacent_snoc2; [exact Hadj|].
        exists c0, v. simpl. split; [reflexivity|]. split; [reflexivity|].
        left. repeat split; auto.
      * apply Hhd. reflexivity.
Qed.

(** X1: the clusters that [main] hands to [flush_cluster], put end to end
    in the order of the calls, are the stream: no variant is dropped,
    repeated or moved. *)
Theorem main_calls_partition_stream (cluster_distance : Z) (stream : list Variant) :
  concat (map fc_variants (main_calls cluster_distance stream)) = stream.
Proof. apply main_calls_inv. Qed.

(** X2: every cluster that [main] hands to [flush_cluster] lies on one
    chromosome, and from each of its variants to the next the position grows
    by at most the cluster distance. *)
Theorem main_calls_clusters_wellformed (cluster_distance : Z) (stream : list Variant) :
  Forall (fun c => same_chrom (fc_variants c) /\
                   gaps_within cluster_distance (fc_variants c))
         (main_calls cluster_distance stream).
Proof. apply main_calls_inv. Qed.

Lemma length_concat_nonempty {A : Type} (ls : list (list A)) :
  Forall (fun l => l <> []) ls -> (length ls <= length (concat ls))%nat.
Proof.
  induction 1 as [|l ls Hl _ IH]; simpl; [lia|].
  rewrite length_app. destruct l; [congruence | simpl; lia].
Qed.

(** X3: on a stream that is not empty no call of [flush_cluster] receives
    an empty cluster, and there are at most as many calls as variants; on the
    empty stream the only call is the final one, on the empty cluster, and
    nothing is printed. *)
Theorem main_calls_nonempty (py_float : string -> option spec_float) (cfg : Config)
    (cluster_distance : Z) (stream : list Variant) :
  (stream <> [] ->
   Forall (fun c => fc_variants c <> []) (main_calls cluster_distance stream)
   /\ (length (main_calls cluster_distance stream) <= length stream)%nat)
  /\ main_calls cluster_distance []
     = [ {| fc_variants := []; fc_prev := None; fc_next := None |} ]
  /\ main py_float cfg cluster_distance [] = [].
Proof.
  split; [|split; reflexivity].
  intros Hne. destruct (main_calls_inv cluster_distance stream) as (Hcat & _ & Hn & _).
  specialize (Hn Hne). split; [exact Hn|].
  rewrite <- Hcat at 2. rewrite <- (length_map fc_variants).
  apply length_concat_nonempty. apply Forall_map. exact Hn.
Qed.

Lemma main_calls_nonempty_witness :
  Forall (fun c => fc_variants c <> []) (main_calls 15 sample_mixed)
  /\ (length (main_calls 15 sample_mixed) <= length sample_mixed)%nat.
Proof.
  apply (proj1 (main_calls_nonempty sample_float (sample_config 2) 15 sample_mixed)).
  discriminate.
Defined.

(** X4: the first call has no previous flank and the last call has no next
    flank; of two calls that follow each other, either the clusters are on
    different chromosomes and neither has a flank on that side, or the second
    cluster starts more than the cluster distance after the last position of
    the first, the first call has that start as its next flank and the
    second has that last position as its previous flank. *)
Theorem main_calls_linked (cluster_distance : Z) (stream : list Variant) :
  (exists c, head (main_calls cluster_distance stream) = Some c /\ fc_prev c = None)
  /\ (exists c, last (main_calls cluster_distance stream) = Some c /\ fc_next c = None)
  /\ (forall (i : nat) (c1 c2 : FlushCall),
        main_calls cluster_distance stream !! i = Some c1 ->
        main_calls cluster_distance stream !! S i = Some c2 ->
        linked cluster_distance c1 c2).
Proof.
  destruct (main_calls_inv cluster_distance stream) as (_ & _ & _ & Hadj & Hhead).
  split; [exact Hhead|]. split.
  - unfold main_calls. destruct (acc_run cluster_distance acc_init stream) as [st calls].
    exists (final_call st). rewrite last_snoc. split; reflexivity.
  - intros i c1 c2. apply adjacent_lookup. exact Hadj.
Qed.

Lemma main_calls_linked_witness :
  linked 15 {| fc_variants := sample_mixed; fc_prev := None; fc_next := Some 200 |}
            {| fc_variants := [sample_variant_hom "chr1" 200];
               fc_prev := Some 130; fc_next := None |}.
Proof.
  apply (proj2 (proj2 (main_calls_linked 15
           (sample_mixed ++ [sample_variant_hom "chr1" 200;
                             sample_variant_hom "chr2" 10])%list)) 0%nat);
    vm_compute; reflexivity.
Defined.

(** ** Blocks are uniform in mode *)

Lemma block_uniform_app (shared : gset nat) (pre l : list Variant) (b : Block) :
  block_uniform shared pre b -> block_uniform shared (pre ++ l) b.
Proof.
  intros (m & Hm & Hk). exists m. split; [exact Hm|].
  intros k Hr. destruct (Hk k Hr) as (v & Hv & Hmode).
  exists v. split; [apply lookup_app_l_Some; exact Hv | exact Hmode].
Qed.

Lemma Mode_eqb_true (a b : Mode) : Mode_eqb a b = true -> a = b.
Proof. destruct a, b; simpl; intros H; try discriminate; reflexivity. Qed.

(** One iteration keeps the closed blocks and the open block uniform. *)
Lemma seg_step_uniform (shared : gset nat) (pre : list Variant) (st : SegState)
    (v : Variant) :
  seg_inv (length pre) st ->
  Forall (block_uniform shared pre) (blocks st) ->
  block_uniform shared pre (block_start st, Z.of_nat (length pre) - 1, cur_mode st) ->
  let st' := seg_step shared st (length pre, v) in
  Forall (block_uniform shared (pre ++ [v])) (blocks st')
  /\ block_uniform shared (pre ++ [v])
       (block_start st', Z.of_nat (length (pre ++ [v])) - 1, cur_mode st').
Proof.
  intros (Hk & m & Hcm & Hbs & _ & _) Hclosed Hopen. simpl.
  assert (Hv : (pre ++ [v])%list !! length pre = Some v).
  { rewrite lookup_app_r by lia. rewrite Nat.sub_diag. reflexivity. }
  assert (Hlen : Z.of_nat (length (pre ++ [v])%list) - 1 = Z.of_nat (length pre)).
  { rewrite length_app. simpl. lia. }
  rewrite Hlen. unfold seg_step. rewrite Hcm. simpl fst. simpl snd.
  destruct (Mode_eqb (mode_of shared v) m) eqn:Em.
  - apply Mode_eqb_true in Em. split.
    + eapply Forall_impl; [exact Hclosed|]. intros b. apply block_uniform_app.
    + rewrite Hcm. exists m. split; [reflexivity|].
      unfold b_start, b_end. simpl. intros k Hr.
      destruct (Z.eq_dec k (Z.of_nat (length pre))) as [-> | Hne].
      * exists v. rewrite Nat2Z.id. split; [exact Hv | exact Em].
      * destruct Hopen as (m' & Hm' & Hko). unfold b_mode in Hm'. simpl in Hm'.
        rewrite Hcm in Hm'. inversion Hm'; subst m'.
        destruct (Hko k) as (w & Hw & Hmw); [unfold b_start, b_end; simpl; lia|].
        exists w. split; [apply lookup_app_l_Some; exact Hw | exact Hmw].
  - simpl. split.
    + apply Forall_app. split.
      * eapply Forall_impl; [exact Hclosed|]. intros b. apply block_uniform_app.
      * constructor; [|constructor]. rewrite <- Hcm.
        apply block_uniform_app. exact Hopen.
    + exists (mode_of shared v). split; [reflexivity|].
      unfold b_start, b_end. simpl. intros k Hr.
      assert (k = Z.of_nat (length pre)) as -> by lia.
      exists v. rewrite Nat2Z.id. split; [exact Hv | reflexivity].
Qed.

Lemma seg_fold_uniform (shared : gset nat) (l : list Variant) :
  forall (pre : list Variant) (st : SegState),
  seg_inv (length pre) st ->
  Forall (block_uniform shared pre) (blocks st) ->
  block_uniform shared pre (block_start st, Z.of_nat (length pre) - 1, cur_mode st) ->
  let st' := foldl (seg_step shared) st (PyList.enumerate_from (length pre) l) in
  Forall (block_uniform shared (pre ++ l)) (blocks st')
  /\ block_uniform shared (pre ++ l)
       (block_start st', Z.of_nat (length (pre ++ l)) - 1, cur_mode st').
Proof.
  induction l as [|v l IH]; intros pre st Hinv Hclosed Hopen; simpl.
  - rewrite app_nil_r. split; assumption.
  - destruct (seg_step_uniform shared pre st v Hinv Hclosed Hopen) as [Hc' Ho'].
    pose proof (seg_step_inv shared (length pre) st v Hinv) as Hinv'.
    replace (S (length pre)) with (length (pre ++ [v])%list) in * by (rewrite length_app; simpl; lia).
    specialize (IH (pre ++ [v])%list _ Hinv' Hc' Ho'). simpl in IH.
    rewrite <- app_assoc in IH. simpl in IH. exact IH.
Qed.

(** Every block computed for a cluster is uniform in mode. *)
Lemma segment_uniform (shared : gset nat) (variants : list Variant) :
  variants <> [] ->
  Forall (block_uniform shared variants) (segment shared variants).
Proof.
  destruct variants as [|v l]; [congruence|]. intros _.
  unfold segment, PyList.enumerate. simpl PyList.enumerate_from. simpl foldl.
  assert (Hinv : seg_inv (length [v]) (seg_step shared seg_init (0%nat, v))).
  { unfold seg_inv, seg_step. simpl. split; [lia|].
    exists (mode_of shared v). repeat split; simpl; lia. }
  destruct (seg_fold_uniform shared l [v] (seg_step shared seg_init (0%nat, v)) Hinv)
    as [Hc Ho].
  - constructor.
  - exists (mode_of shared v). split; [reflexivity|].
    unfold b_start, b_end. simpl. intros k Hk.
    assert (k = 0) as -> by lia. exists v. split; reflexivity.
  - simpl in Hc, Ho. apply Forall_app. split; [exact Hc|].
    constructor; [exact Ho | constructor].
Qed.

(** X5: every block computed for a cluster that is not empty has a mode,
    and every variant of the cluster with an index in the block has that
    mode: "double" when every shared individual is homozygous for the
    alternate allele at the variant, "single" otherwise. *)
Theorem segment_blocks_uniform (shared : gset nat) (variants : list Variant) (b : Block) :
  variants <> [] -> In b (segment shared variants) ->
  exists m, b_mode b = Some m /\
    forall k, b_start b <= k <= b_end b ->
      exists v, variants !! Z.to_nat k = Some v /\
        ((m = Double /\ all_shared_homozygous v shared = true)
         \/ (m = Single /\ all_shared_homozygous v shared = false)).
Proof.
  intros Hne Hin.
  pose proof (segment_uniform shared variants Hne) as Hall.
  rewrite List.Forall_forall in Hall. destruct (Hall b Hin) as (m & Hm & Hk).
  exists m. split; [exact Hm|]. intros k Hr.
  destruct (Hk k Hr) as (v & Hv & Hmode). exists v. split; [exact Hv|].
  unfold mode_of in Hmode. destruct (all_shared_homozygous v shared); subst m; auto.
Qed.

Lemma segment_blocks_uniform_witness :
  exists m, b_mode (2, 2, Some Single) = Some m /\
    forall k, b_start (2, 2, Some Single) <= k <= b_end (2, 2, Some Single) ->
      exists v, sample_mixed !! Z.to_nat k = Some v /\
        ((m = Double /\ all_shared_homozygous v (shared_inds sample_mixed) = true)
         \/ (m = Single /\ all_shared_homozygous v (shared_inds sample_mixed) = false)).
Proof.
  apply (segment_blocks_uniform (shared_inds sample_mixed) sample_mixed (2, 2, Some Single)).
  - discriminate.
  - vm_compute. right. left. reflexivity.
Defined.

(** A cluster whose variants all have one mode is a single block. *)
Lemma seg_fold_constant (shared : gset nat) (m : Mode) (l : list Variant) :
  forall (k : nat) (st : SegState),
  cur_mode st = Some m ->
  Forall (fun v => mode_of shared v = m) l ->
  foldl (seg_step shared) st (PyList.enumerate_from k l) = st.
Proof.
  induction l as [|v l IH]; intros k st Hcm Hall; simpl; [reflexivity|].
  apply Forall_cons in Hall. destruct Hall as [Hv Hl].
  assert (Hstep : seg_step shared st (k, v) = st).
  { unfold seg_step. rewrite Hcm. simpl. rewrite Hv. destruct m; reflexivity. }
  rewrite Hstep. apply IH; assumption.
Qed.

(** X6: a cluster whose variants all have the same mode is one block that
    spans it; this is the case when the shared set is empty, where every
    variant counts as "double". *)
Theorem segment_single_block (shared : gset nat) (variants : list Variant) (m : Mode) :
  variants <> [] ->
  (Forall (fun v => mode_of shared v = m) variants ->
   segment shared variants = [(0, Z.of_nat (length variants) - 1, Some m)])
  /\ segment ∅ variants = [(0, Z.of_nat (length variants) - 1, Some Double)].
Proof.
  intros Hne.
  assert (Hgen : forall sh m', Forall (fun v => mode_of sh v = m') variants ->
            segment sh variants = [(0, Z.of_nat (length variants) - 1, Some m')]).
  { intros sh m' Hall. destruct variants as [|v l]; [congruence|].
    apply Forall_cons in Hall. destruct Hall as [Hv Hl].
    unfold segment, PyList.enumerate. simpl PyList.enumerate_from. simpl foldl.
    rewrite (seg_fold_constant sh m' l 1); [simpl; rewrite Hv; reflexivity | simpl; rewrite Hv; reflexivity | exact Hl]. }
  split; [apply Hgen|]. apply Hgen.
  apply List.Forall_forall. intros v _. unfold mode_of, all_shared_homozygous.
  rewrite elements_empty. reflexivity.
Qed.

Lemma segment_single_block_witness :
  segment ∅ sample_mixed = [(0, 3, Some Double)].
Proof.
  apply (proj2 (segment_single_block ∅ sample_mixed Double ltac:(discriminate))).
Defined.

(** ** What the emitter prints *)

Section EmitterMore.

Variable py_float : string -> option spec_float.

(** A record printed for a block passed every filter of the loop body. *)
Lemma emit_block_sound (cfg : Config) (variants : list Variant)
    (prev next : option Z) (chrom : string) (n_shared : Z) (inds_str : string)
    (b : Block) (r : OutputRecord) :
  0 <= b_start b -> b_start b <= b_end b -> b_end b < Z.of_nat (length variants) ->
  In r (emit_block py_float cfg variants prev next chrom n_shared inds_str b) ->
  r_chrom r = chrom /\ r_n_individuals r = n_shared /\ r_individuals r = inds_str
  /\ r_mode r = b_mode b /\ r_filter r = "ULTRA_RARE"
  /\ r_n_variants r = block_size b
  /\ min_variants cfg <= r_n_variants r
  /\ (forall m, min_segment_length cfg = Some m -> m <= r_end r - r_start r)
  /\ (forall m, max_segment_length cfg = Some m -> r_end r - r_start r <= m)
  /\ overlaps_gene_region chrom (r_start r) (r_end r) (gene_regions cfg) = true
  /\ min_ultra_rare cfg <= r_n_ultra_rare r <= r_n_variants r.
Proof.
  destruct b as [[s e] m]. unfold b_start, b_end, b_mode, block_size. simpl.
  intros Hs Hse He Hin.
  destruct (block_vars_in_range variants s e) as (first & last & Hf & Hl & Hp0 & Hp1 & Hlen);
    [lia | lia |].
  rewrite Hp0, Hp1, Hlen in Hin.
  destruct (Z.ltb_spec (e - s + 1) (min_variants cfg)) as [? | Hmv];
    [destruct Hin|]. simpl in Hin.
  destruct (opt_lt _ _) eqn:Emin; [destruct Hin|]. simpl in Hin.
  destruct (opt_gt _ _) eqn:Emax; [destruct Hin|].
  destruct (overlaps_gene_region _ _ _ _) eqn:Eov; [|destruct Hin]. simpl in Hin.
  match type of Hin with
  | context [Z.of_nat (length (List.filter ?f ?l)) <? _] =>
      pose proof (filter_length_le f l) as Hfl;
      destruct (Z.ltb_spec (Z.of_nat (length (List.filter f l))) (min_ultra_rare cfg))
        as [? | Hur]; [destruct Hin|]
  end.
  destruct Hin as [<- | []]. simpl.
  repeat split; try reflexivity; try lia.
  - intros m0 Hm0. rewrite Hm0 in Emin. simpl in Emin.
    apply Z.ltb_ge in Emin. exact Emin.
  - intros m0 Hm0. rewrite Hm0 in Emax. simpl in Emax.
    destruct (Z.gtb_spec (POS last - POS first) m0); [discriminate | lia].
  - exact Eov.
Qed.

(** The records of a cluster that is within the bounds on the number of
    shared individuals are those of its blocks, in order. *)
Lemma flush_cluster_pass (cfg : Config) (v0 : Variant) (rest : list Variant)
    (prev next : option Z) :
  min_individuals cfg <= Z.of_nat (size (shared_inds (v0 :: rest))) ->
  (forall m, max_individuals cfg = Some m ->
             Z.of_nat (size (shared_inds (v0 :: rest))) <= m) ->
  flush_cluster py_float cfg (v0 :: rest) prev next
  = flat_map (emit_block py_float cfg (v0 :: rest) prev next (CHROM v0)
                (Z.of_nat (size (shared_inds (v0 :: rest))))
                (inds_str_of (sample_ids cfg) (shared_inds (v0 :: rest))))
             (segment (shared_inds (v0 :: rest)) (v0 :: rest)).
Proof.
  intros Hmin Hmax. unfold flush_cluster.
  destruct (Z.ltb_spec (Z.of_nat (size (shared_inds (v0 :: rest)))) (min_individuals cfg));
    [lia|].
  destruct (max_individuals cfg) as [m|]; simpl; [|reflexivity].
  specialize (Hmax m eq_refl).
  destruct (Z.gtb_spec (Z.of_nat (size (shared_inds (v0 :: rest)))) m); [lia | reflexivity].
Qed.

Lemma flush_cluster_In_block (cfg : Config) (variants : list Variant)
    (prev next : option Z) (r : OutputRecord) :
  In r (flush_cluster py_float cfg variants prev next) ->
  exists v0 b,
    head variants = Some v0
    /\ min_individuals cfg <= Z.of_nat (size (shared_inds variants))
    /\ (forall m, max_individuals cfg = Some m ->
                  Z.of_nat (size (shared_inds variants)) <= m)
    /\ In b (segment (shared_inds variants) variants)
    /\ In r (emit_block py_float cfg variants prev next (CHROM v0)
               (Z.of_nat (size (shared_inds variants)))
               (inds_str_of (sample_ids cfg) (shared_inds variants)) b).
Proof.
  unfold flush_cluster. destruct variants as [|v0 rest]; [intros []|].
  destruct (Z.ltb_spec (Z.of_nat (size (shared_inds (v0 :: rest)))) (min_individuals cfg));
    [intros []|].
  destruct (opt_gt _ _) eqn:Emax; [intros []|].
  intros Hin. apply in_flat_map in Hin. destruct Hin as (b & Hb & Hr).
  exists v0, b. split; [reflexivity|]. split; [lia|]. split; [|split; assumption].
  intros m Hm. rewrite Hm in Emax. simpl in Emax.
  destruct (Z.gtb_spec (Z.of_nat (size (shared_inds (v0 :: rest)))) m); [discriminate | lia].
Qed.

(** X7: every record printed for a cluster passed the whole filter chain:
    it carries the chromosome of the first variant of the cluster and the
    number of shared individuals, which is within the configured bounds; its
    block has at least [min_variants] variants; its length is within the
    configured length bounds; it overlaps a gene region; it has at least
    [min_ultra_rare] ultra-rare variants and no more than it has variants;
    its mode is set and its label is the fixed one. *)
Theorem flush_cluster_record_sound (cfg : Config) (variants : list Variant)
    (prev next : option Z) (r : OutputRecord) :
  In r (flush_cluster py_float cfg variants prev next) ->
  (exists v0, head variants = Some v0 /\ r_chrom r = CHROM v0)
  /\ r_n_individuals r = Z.of_nat (size (shared_inds variants))
  /\ min_individuals cfg <= r_n_individuals r
  /\ (forall m, max_individuals cfg = Some m -> r_n_individuals r <= m)
  /\ r_individuals r = inds_str_of (sample_ids cfg) (shared_inds variants)
  /\ min_variants cfg <= r_n_variants r
  /\ 1 <= r_n_variants r <= Z.of_nat (length variants)
  /\ (forall m, min_segment_length cfg = Some m -> m <= r_end r - r_start r)
  /\ (forall m, max_segment_length cfg = Some m -> r_end r - r_start r <= m)
  /\ overlaps_gene_region (r_chrom r) (r_start r) (r_end r) (gene_regions cfg) = true
  /\ min_ultra_rare cfg <= r_n_ultra_rare r <= r_n_variants r
  /\ (exists m, r_mode r = Some m)
  /\ r_filter r = "ULTRA_RARE".
Proof.
  intros Hin. apply flush_cluster_In_block in Hin.
  destruct Hin as (v0 & b & Hhead & Hmin & Hmax & Hb & Hr).
  assert (Hne : variants <> []) by (destruct variants; [discriminate | congruence]).
  destruct (segment_blocks_in_range _ _ _ Hb Hne) as (H1 & H2 & H3).
  destruct (emit_block_sound cfg variants prev next _ _ _ b r H1 H2 H3 Hr)
    as (Hc & Hn & Hi & Hm & Hf & Hnv & Hmv & Hlo & Hhi & Hov & Hur).
  assert (Hmode : exists m, b_mode b = Some m).
  { pose proof (segment_uniform (shared_inds variants) variants Hne) as Hall.
    rewrite List.Forall_forall in Hall. destruct (Hall b Hb) as (m & Hbm & _).
    exists m. exact Hbm. }
  split; [exists v0; split; [exact Hhead | exact Hc]|].
  rewrite Hn, Hc, Hi, Hf, Hm. unfold block_size in Hnv.
  repeat split; auto; try lia.
Qed.

(** A block inside the cluster that passes every test of the loop body is
    printed. *)
Lemma emit_block_complete (cfg : Config) (variants : list Variant)
    (prev next : option Z) (chrom : string) (n_shared : Z) (inds_str : string)
    (b : Block) (first last : Variant) :
  0 <= b_start b -> b_start b <= b_end b -> b_end b < Z.of_nat (length variants) ->
  variants !! Z.to_nat (b_start b) = Some first ->
  variants !! Z.to_nat (b_end b) = Some last ->
  min_variants cfg <= block_size b ->
  (forall m, min_segment_length cfg = Some m -> m <= POS last - POS first) ->
  (forall m, max_segment_length cfg = Some m -> POS last - POS first <= m) ->
  overlaps_gene_region chrom (POS first) (POS last) (gene_regions cfg) = true ->
  min_ultra_rare cfg
    <= Z.of_nat (length (List.filter
         (fun v => is_ultra_rare_variant py_float v (gnomad_idx cfg) (af_threshold cfg))
         (PyList.slice variants (b_start b) (b_end b + 1)))) ->
  exists r,
    emit_block py_float cfg variants prev next chrom n_shared inds_str b = [r]
    /\ r_start r = POS first /\ r_end r = POS last
    /\ r_n_variants r = block_size b /\ r_mode r = b_mode b.
Proof.
  destruct b as [[s e] m]. unfold block_size, b_start, b_end, b_mode. simpl.
  intros Hs Hse He Hf Hl Hmv Hlo Hhi Hov Hur.
  destruct (block_vars_in_range variants s e) as (first' & last' & Hf' & Hl' & Hp0 & Hp1 & Hlen);
    [lia | lia |].
  rewrite Hf in Hf'. rewrite Hl in Hl'. inversion Hf'; inversion Hl'; subst first' last'.
  rewrite Hp0, Hp1, Hlen.
  destruct (Z.ltb_spec (e - s + 1) (min_variants cfg)) as [? | _]; [lia|].
  assert (Emin : opt_lt (POS last - POS first) (min_segment_length cfg) = false).
  { destruct (min_segment_length cfg) as [m0|]; simpl; [|reflexivity].
    apply Z.ltb_ge. apply Hlo. reflexivity. }
  assert (Emax : opt_gt (POS last - POS first) (max_segment_length cfg) = false).
  { destruct (max_segment_length cfg) as [m0|]; simpl; [|reflexivity].
    specialize (Hhi m0 eq_refl).
    destruct (Z.gtb_spec (POS last - POS first) m0); [lia | reflexivity]. }
  rewrite Emin, Emax, Hov. cbn [orb negb].
  match goal with
  | |- context [Z.of_nat (length (List.filter ?f ?l)) <? _] =>
      destruct (Z.ltb_spec (Z.of_nat (length (List.filter f l))) (min_ultra_rare cfg))
        as [? | _]; [lia|]
  end.
  eexists. split; [reflexivity|]. simpl. repeat split; reflexivity.
Qed.

(** X8: in a cluster whose number of shared individuals is within the
    configured bounds, every block that passes the four tests of the loop
    (number of variants, length, gene-region overlap, number of ultra-rare
    variants) is printed, with its positions, size and mode, whatever
    happens to the other blocks of the cluster. *)
Theorem flush_cluster_complete (cfg : Config) (variants : list Variant)
    (prev next : option Z) (v0 : Variant) (b : Block) (first last : Variant) :
  head variants = Some v0 ->
  min_individuals cfg <= Z.of_nat (size (shared_inds variants)) ->
  (forall m, max_individuals cfg = Some m ->
             Z.of_nat (size (shared_inds variants)) <= m) ->
  In b (segment (shared_inds variants) variants) ->
  variants !! Z.to_nat (b_start b) = Some first ->
  variants !! Z.to_nat (b_end b) = Some last ->
  min_variants cfg <= block_size b ->
  (forall m, min_segment_length cfg = Some m -> m <= POS last - POS first) ->
  (forall m, max_segment_length cfg = Some m -> POS last - POS first <= m) ->
  overlaps_gene_region (CHROM v0) (POS first) (POS last) (gene_regions cfg) = true ->
  min_ultra_rare cfg
    <= Z.of_nat (length (List.filter
         (fun v => is_ultra_rare_variant py_float v (gnomad_idx cfg) (af_threshold cfg))
         (PyList.slice variants (b_start b) (b_end b + 1)))) ->
  exists r,
    In r (flush_cluster py_float cfg variants prev next)
    /\ r_start r = POS first /\ r_end r = POS last
    /\ r_n_variants r = block_size b /\ r_mode r = b_mode b.
Proof.
  intros Hhead Hmin Hmax Hb Hf Hl Hmv Hlo Hhi Hov Hur.
  destruct variants as [|w rest]; [discriminate|].
  simpl in Hhead. inversion Hhead; subst w.
  destruct (segment_blocks_in_range _ _ _ Hb ltac:(discriminate)) as (H1 & H2 & H3).
  destruct (emit_block_complete cfg (v0 :: rest) prev next (CHROM v0)
              (Z.of_nat (size (shared_inds (v0 :: rest))))
              (inds_str_of (sample_ids cfg) (shared_inds (v0 :: rest)))
              b first last H1 H2 H3 Hf Hl Hmv Hlo Hhi Hov Hur)
    as (r & Hr & Hrest).
  exists r. split; [|exact Hrest].
  rewrite flush_cluster_pass by assumption.
  apply in_flat_map. exists b. split; [exact Hb|]. rewrite Hr. left. reflexivity.
Qed.

Lemma emit_block_length (cfg : Config) (variants : list Variant)
    (prev next : option Z) (chrom : string) (n_shared : Z) (inds_str : string)
    (b : Block) :
  (length (emit_block py_float cfg variants prev next chrom n_shared inds_str b) <= 1)%nat.
Proof.
  destruct b as [[s e] m]. unfold emit_block.
  destruct (_ || _ || _); [simpl; lia|].
  destruct (negb _); [simpl; lia|].
  destruct (_ <? min_ultra_rare cfg); simpl; lia.
Qed.

Lemma flat_map_length_le {A B : Type} (f : A -> list B) (l : list A) :
  (forall a, length (f a) <= 1)%nat -> (length (flat_map f l) <= length l)%nat.
Proof.
  intros Hf. induction l as [|a l IH]; simpl; [lia|].
  rewrite length_app. specialize (Hf a). lia.
Qed.

Lemma blocks_chain_length (bs : list Block) : forall lo hi : Z,
  blocks_chain lo bs hi -> Z.of_nat (length bs) <= hi + 1 - lo.
Proof.
  induction bs as [|b bs IH]; intros lo hi; simpl.
  - lia.
  - intros (Hs & Hle & Hrest). apply IH in Hrest. lia.
Qed.

(** A cluster prints at most one record per block, so no more records
    than it has variants. *)
Lemma flush_cluster_length (cfg : Config) (variants : list Variant)
    (prev next : option Z) :
  (length (flush_cluster py_float cfg variants prev next) <= length variants)%nat.
Proof.
  unfold flush_cluster. destruct variants as [|v0 rest]; [simpl; lia|].
  destruct (_ <? min_individuals cfg); [simpl; lia|].
  destruct (opt_gt _ _); [simpl; lia|].
  etransitivity; [apply flat_map_length_le; intros a; apply emit_block_length|].
  destruct (segment_chain (shared_inds (v0 :: rest)) (v0 :: rest) ltac:(discriminate))
    as [Hchain _].
  apply blocks_chain_length in Hchain. lia.
Qed.

(** X9: a cluster prints at most one record per block and so no more
    records than it has variants; a whole run prints no more records than the
    stream has variants. *)
Theorem main_output_length (cfg : Config) (cluster_distance : Z) (stream : list Variant) :
  (forall variants prev next,
      (length (flush_cluster py_float cfg variants prev next)
       <= length (segment (shared_inds variants) variants))%nat
      /\ (length (flush_cluster py_float cfg variants prev next) <= length variants)%nat)
  /\ (length (main py_float cfg cluster_distance stream) <= length stream)%nat.
Proof.
  split.
  - intros variants prev next. split; [|apply flush_cluster_length].
    unfold flush_cluster. destruct variants as [|v0 rest]; [simpl; lia|].
    destruct (_ <? min_individuals cfg); [simpl; lia|].
    destruct (opt_gt _ _); [simpl; lia|].
    apply flat_map_length_le. intros a. apply emit_block_length.
  - unfold main. rewrite <- (proj1 (main_calls_inv cluster_distance stream)) at 2.
    induction (main_calls cluster_distance stream) as [|c cs IH]; simpl; [lia|].
    rewrite !length_app. unfold do_flush at 1.
    pose proof (flush_cluster_length cfg (fc_variants c) (fc_prev c) (fc_next c)). lia.
Qed.

End EmitterMore.

Lemma flush_cluster_record_sound_witness :
  min_variants (sample_config 2) <= 2
  /\ overlaps_gene_region "chr1" 100 110 (gene_regions (sample_config 2)) = true.
Proof.
  pose proof (flush_cluster_record_sound sample_float (sample_config 2) sample_mixed
           (Some 40) None
           {| r_chrom := "chr1"; r_start := 100; r_end := 110;
              r_n_variants := 2; r_n_individuals := 2; r_individuals := "S1,S2";
              r_mode := Some Double; r_err_left := Some 60; r_err_right := Some 10;
              r_n_ultra_rare := 2; r_filter := "ULTRA_RARE" |}
           ltac:(vm_compute; left; reflexivity)) as H.
  simpl in H. split; apply H.
Defined.

Lemma flush_cluster_complete_witness :
  exists r,
    In r (flush_cluster sample_float (sample_config 2) sample_mixed (Some 40) None)
    /\ r_start r = 100 /\ r_end r = 110
    /\ r_n_variants r = 2 /\ r_mode r = Some Double.
Proof.
  apply (flush_cluster_complete sample_float (sample_config 2) sample_mixed (Some 40) None
           (sample_variant_hom "chr1" 100) (0, 1, Some Double)
           (sample_variant_hom "chr1" 100) (sample_variant_hom "chr1" 110)).
  - reflexivity.
  - vm_compute. discriminate.
  - intros m Hm. discriminate.
  - vm_compute. left. reflexivity.
  - reflexivity.
  - reflexivity.
  - vm_compute. discriminate.
  - intros m Hm. inversion Hm. vm_compute. discriminate.
  - intros m Hm. discriminate.
  - reflexivity.
  - vm_compute. discriminate.
Defined.

(** ** More on the shared-carrier set *)

(** X10: in a cluster of fewer than 2^50 variants that is not empty, an
    individual who is a carrier at every variant is shared, and a shared
    individual is a carrier at four fifths of the variants, rounded down, or
    more: it misses at most one variant in five, rounded up. *)
Theorem shared_inds_bounds (variants : list Variant) (i : nat) :
  variants <> [] -> Z.of_nat (length variants) < 2 ^ 50 ->
  (carrier_count i variants = length variants -> i ∈ shared_inds variants)
  /\ (i ∈ shared_inds variants ->
      (1 <= carrier_count i variants <= length variants)%nat
      /\ 4 * Z.of_nat (length variants) <= 5 * Z.of_nat (carrier_count i variants) + 4).
Proof.
  intros Hne Hlen.
  assert (Hn : (1 <= length variants)%nat) by (destruct variants; [congruence | simpl; lia]).
  assert (Hle : (carrier_count i variants <= length variants)%nat)
    by apply filter_length_le.
  rewrite elem_of_shared_inds, threshold_of_floor by exact Hlen.
  pose proof (Z.div_mod (4 * Z.of_nat (length variants)) 5 ltac:(lia)) as Hdm.
  pose proof (Z.mod_pos_bound (4 * Z.of_nat (length variants)) 5 ltac:(lia)) as Hr.
  split.
  - intros Hc. rewrite Hc. split; [lia|]. lia.
  - intros [H1 Ht]. split; [lia|]. lia.
Qed.

Lemma shared_inds_bounds_witness :
  0%nat ∈ shared_inds sample_mixed.
Proof.
  apply (proj1 (shared_inds_bounds sample_mixed 0%nat ltac:(discriminate)
                  ltac:(vm_compute; reflexivity))).
  vm_compute. reflexivity.
Defined.

(** X11: in a cluster whose variants all have one genotype entry and one
    genotype category per sample, every shared index is the index of a
    sample, so that every access [gt[i]] of [all_shared_homozygous] is in
    range, the shared set has at most as many members as there are samples,
    and with one id per sample every access [sample_ids[i]] is in range. *)
Theorem shared_inds_in_range (n_samples : nat) (variants : list Variant)
    (sample_ids : list string) :
  wf_cluster n_samples variants ->
  (forall i, i ∈ shared_inds variants ->
     (i < n_samples)%nat
     /\ (forall v, In v variants -> is_Some (gt_types v !! i))
     /\ (length sample_ids = n_samples -> is_Some (sample_ids !! i)))
  /\ (size (shared_inds variants) <= n_samples)%nat.
Proof.
  intros Hwf.
  assert (Hlt : forall i, i ∈ shared_inds variants -> (i < n_samples)%nat).
  { intros i Hi. eapply shared_inds_lt_samples; eassumption. }
  split.
  - intros i Hi. specialize (Hlt i Hi). split; [exact Hlt|]. split.
    + intros v Hv. unfold wf_cluster in Hwf. rewrite List.Forall_forall in Hwf.
      destruct (Hwf v Hv) as [_ Hg]. apply lookup_lt_is_Some_2. lia.
    + intros Hs. apply lookup_lt_is_Some_2. lia.
  - rewrite <- (size_set_seq (C := gset nat) 0 n_samples).
    apply subseteq_size. intros i Hi. apply elem_of_set_seq.
    specialize (Hlt i Hi). lia.
Qed.

Lemma shared_inds_in_range_witness :
  (size (shared_inds sample_mixed) <= 3)%nat.
Proof.
  apply (proj2 (shared_inds_in_range 3 sample_mixed ["S1"; "S2"; "S3"]
                  ltac:(repeat constructor))).
Defined.

(** ** Reading the list of individuals back *)

Lemma ascii_eqb_sym (a b : ascii) : Ascii.eqb a b = Ascii.eqb b a.
Proof.
  destruct (Ascii.eqb_spec a b) as [-> | Hne].
  - symmetry. apply Ascii.eqb_refl.
  - symmetry. apply Ascii.eqb_neq. congruence.
Qed.

Lemma split_no_sep (sep : ascii) (s : string) :
  PyStr.mem sep s = false -> PyStr.split sep s = [s].
Proof.
  induction s as [|a s IH]; simpl; [reflexivity|].
  rewrite (ascii_eqb_sym a sep).
  destruct (Ascii.eqb sep a); [discriminate|].
  intros Hm. rewrite (IH Hm). reflexivity.
Qed.

Lemma split_app_sep (sep : ascii) (s t : string) :
  PyStr.mem sep s = false ->
  PyStr.split sep (s ++ String sep t) = s :: PyStr.split sep t.
Proof.
  induction s as [|a s IH]; simpl.
  - intros _. rewrite Ascii.eqb_refl. reflexivity.
  - rewrite (ascii_eqb_sym a sep).
    destruct (Ascii.eqb sep a); [discriminate|].
    intros Hm. rewrite (IH Hm). reflexivity.
Qed.

(** Splitting a joined list at the separator gives the list back, when
    the list is not empty and no piece holds the separator. *)
Lemma split_concat (sep : ascii) (ss : list string) :
  ss <> [] -> Forall (fun s => PyStr.mem sep s = false) ss ->
  PyStr.split sep (String.concat (String sep "") ss) = ss.
Proof.
  induction ss as [|s ss IH]; [congruence|]. intros _ Hall.
  apply Forall_cons in Hall. destruct Hall as [Hs Hss].
  destruct ss as [|t ss].
  - simpl. apply split_no_sep. exact Hs.
  - change (String.concat (String sep "") (s :: t :: ss))
      with (s ++ String sep (String.concat (String sep "") (t :: ss))).
    rewrite split_app_sep by exact Hs. f_equal. apply IH; [discriminate | exact Hss].
Qed.

(** X12: the individuals of a record are listed in increasing order of
    sample index, each once; when the shared set is not empty and no sample
    id holds a comma, splitting the printed field at the commas, as the
    summary scripts do, gives back the ids of the shared samples in that
    order. *)
Theorem inds_str_split (sample_ids : list string) (shared : gset nat) :
  let idx := merge_sort Nat.le (elements shared) in
  Sorted Nat.le idx /\ NoDup idx /\ (forall i, i ∈ idx <-> i ∈ shared)
  /\ (shared <> ∅ ->
      (forall i, i ∈ shared ->
         exists id, sample_ids !! i = Some id /\ PyStr.mem "," id = false) ->
      PyStr.split "," (inds_str_of sample_ids shared)
      = map (fun i => default "" (sample_ids !! i)) idx).
Proof.
  intros idx.
  assert (Hperm : idx ≡ₚ elements shared) by apply merge_sort_Permutation.
  assert (Hmem : forall i, i ∈ idx <-> i ∈ shared).
  { intros i. rewrite Hperm. apply elem_of_elements. }
  split; [apply (Sorted_merge_sort Nat.le)|].
  split; [rewrite Hperm; apply NoDup_elements|].
  split; [exact Hmem|].
  intros Hne Hids. unfold inds_str_of. fold idx. apply split_concat.
  - intros Hnil. apply map_eq_nil in Hnil. apply Hne.
    apply set_eq. intros i. split; [|set_solver].
    intros Hi. apply Hmem in Hi. rewrite Hnil in Hi. set_solver.
  - apply Forall_map. apply List.Forall_forall. intros i Hi.
    apply list_elem_of_In in Hi. apply Hmem in Hi.
    destruct (Hids i Hi) as (id & Hid & Hc). rewrite Hid. exact Hc.
Qed.

Lemma inds_str_split_witness :
  PyStr.split "," (inds_str_of ["S1"; "S2"; "S3"] (shared_inds sample_mixed))
  = ["S1"; "S2"].
Proof.
  change ["S1"; "S2"] with
    (map (fun i => default "" (["S1"; "S2"; "S3"] !! i))
         (merge_sort Nat.le (elements (shared_inds sample_mixed)))).
  apply (proj2 (proj2 (proj2 (inds_str_split ["S1"; "S2"; "S3"] (shared_inds sample_mixed))))).
  - intros H. assert (H0 : 0%nat ∈ shared_inds sample_mixed) by (apply elem_of_shared_inds; vm_compute; split; [lia | discriminate]).
    rewrite H in H0. set_solver.
  - intros i Hi.
    assert (Hlt : (i < 3)%nat).
    { apply (shared_inds_lt_samples 3 sample_mixed i); [repeat constructor | exact Hi]. }
    destruct i as [|[|[|i]]]; [eexists; split; reflexivity .. | lia].
Defined.

(** ** More on gene regions *)

Lemma overlaps_gene_region_app (chrom : string) (start end_ : Z)
    (r1 r2 : list GeneRegion) :
  overlaps_gene_region chrom start end_ (r1 ++ r2)
  = overlaps_gene_region chrom start end_ r1 || overlaps_gene_region chrom start end_ r2.
Proof.
  induction r1 as [|[[rc rs] re] r1 IH]; simpl; [reflexivity|].
  destruct (_ && _); [reflexivity | exact IH].
Qed.

Lemma lstrip_idempotent (chars s : string) :
  PyStr.lstrip chars (PyStr.lstrip chars s) = PyStr.lstrip chars s.
Proof.
  induction s as [|c s IH]; simpl; [reflexivity|].
  destruct (PyStr.mem c chars) eqn:Ec; [exact IH|].
  simpl. rewrite Ec. reflexivity.
Qed.

Lemma overlaps_gene_region_chrom (c1 c2 : string) (start end_ : Z)
    (regions : list GeneRegion) :
  PyStr.lstrip "chr" c1 = PyStr.lstrip "chr" c2 ->
  overlaps_gene_region c1 start end_ regions
  = overlaps_gene_region c2 start end_ regions.
Proof.
  intros Heq. induction regions as [|[[rc rs] re] rest IH]; simpl; [reflexivity|].
  rewrite Heq, IH. reflexivity.
Qed.

(** X13: the gene-region test gives the same answer for a chromosome name
    with and without the "chr" prefix, on the side of the block and on the
    side of the gene table, and for a name that is already normalized; the
    test on two lists of regions put together is the disjunction of the
    tests on each. *)
Theorem overlaps_gene_region_prefix (chrom : string) (start end_ : Z) :
  (forall regions,
      overlaps_gene_region ("chr" ++ chrom) start end_ regions
      = overlaps_gene_region chrom start end_ regions)
  /\ (forall regions,
        overlaps_gene_region (PyStr.lstrip "chr" chrom) start end_ regions
        = overlaps_gene_region chrom start end_ regions)
  /\ (forall s e rows,
        load_gene_regions
          ({| chromosome_name := "chr" ++ chrom; start_position := s; end_position := e |}
           :: rows)
        = load_gene_regions
            ({| chromosome_name := chrom; start_position := s; end_position := e |}
             :: rows))
  /\ (forall r1 r2,
        overlaps_gene_region chrom start end_ (r1 ++ r2)
        = overlaps_gene_region chrom start end_ r1
          || overlaps_gene_region chrom start end_ r2).
Proof.
  split; [|split; [|split]].
  - intros regions. apply overlaps_gene_region_chrom. reflexivity.
  - intros regions. apply overlaps_gene_region_chrom. apply lstrip_idempotent.
  - intros s e rows. reflexivity.
  - intros r1 r2. apply overlaps_gene_region_app.
Qed.



(** ** More on the annotation filter *)

(** The order of binary64 numbers that [<=] tests is transitive. *)
Lemma SFleb_trans (a b c : spec_float) :
  SFleb a b = true -> SFleb b c = true -> SFleb a c = true.
Proof.
  unfold SFleb, SFcompare.
  destruct a as [sa | sa | | sa ma ea], b as [sb | sb | | sb mb eb],
           c as [sc | sc | | sc mc ec];
    try destruct sa; try destruct sb; try destruct sc;
    try discriminate; try reflexivity; intros Hab Hbc;
    change (Pos.compare_cont Eq ma mb) with (Pos.compare ma mb) in *;
    change (Pos.compare_cont Eq mb mc) with (Pos.compare mb mc) in *;
    change (Pos.compare_cont Eq ma mc) with (Pos.compare ma mc) in *;
    destruct (Z.compare_spec ea eb); destruct (Z.compare_spec eb ec);
    destruct (Z.compare_spec ea ec); try lia; try discriminate; try reflexivity;
    subst;
    destruct (Pos.compare_spec ma mb); destruct (Pos.compare_spec mb mc);
    destruct (Pos.compare_spec ma mc); simpl in *;
    try lia; try discriminate; try reflexivity.
Qed.

Section AnnotationMore.

Variable py_float : string -> option spec_float.

Lemma entry_is_rare_monotone (gnomad_idx : nat) (t t' : spec_float) (entry : string) :
  SFleb t t' = true ->
  entry_is_rare py_float gnomad_idx t entry ->
  entry_is_rare py_float gnomad_idx t' entry.
Proof.
  intros Ht (val & Hv & Hc). exists val. split; [exact Hv|].
  destruct Hc as [? | [? | (af & Ha & Hle)]]; auto.
  right. right. exists af. split; [exact Ha|]. eapply SFleb_trans; eassumption.
Qed.

Lemma is_ultra_rare_variant_scan (variant : Variant) (gnomad_idx : nat) (t : spec_float) :
  is_ultra_rare_variant py_float variant gnomad_idx t = true <->
  default "" (INFO_CSQ variant) <> "" /\
  exists entry, In entry (PyStr.split "," (default "" (INFO_CSQ variant))) /\
                entry_is_rare py_float gnomad_idx t entry.
Proof.
  unfold is_ultra_rare_variant.
  destruct (String.eqb_spec (default "" (INFO_CSQ variant)) "") as [He | Hne].
  - split; [discriminate | intros [H _]; contradiction].
  - rewrite ultra_rare_scan_true. tauto.
Qed.

(** X15: raising the frequency threshold never makes a variant stop being
    ultra-rare, and so never lowers the number of ultra-rare variants counted
    in a list of variants. *)
Theorem is_ultra_rare_variant_monotone (gnomad_idx : nat) (t t' : spec_float) :
  SFleb t t' = true ->
  (forall variant,
      is_ultra_rare_variant py_float variant gnomad_idx t = true ->
      is_ultra_rare_variant py_float variant gnomad_idx t' = true)
  /\ (forall variants,
        (length (List.filter (fun v => is_ultra_rare_variant py_float v gnomad_idx t) variants)
         <= length (List.filter (fun v => is_ultra_rare_variant py_float v gnomad_idx t') variants))%nat).
Proof.
  intros Ht.
  assert (Hmono : forall variant,
            is_ultra_rare_variant py_float variant gnomad_idx t = true ->
            is_ultra_rare_variant py_float variant gnomad_idx t' = true).
  { intros variant. rewrite !is_ultra_rare_variant_scan.
    intros (Hne & entry & Hin & Hr). split; [exact Hne|].
    exists entry. split; [exact Hin|]. eapply entry_is_rare_monotone; eassumption. }
  split; [exact Hmono|].
  induction variants as [|v vs IH]; simpl; [lia|].
  destruct (is_ultra_rare_variant py_float v gnomad_idx t) eqn:E.
  - rewrite (Hmono v E). simpl. lia.
  - destruct (is_ultra_rare_variant py_float v gnomad_idx t'); simpl; lia.
Qed.

(** X16: the verdict on a list of sub-entries does not depend on their
    order, and a variant with no annotation, or with an annotation none of
    whose sub-entries has a field at the index, is never ultra-rare, whatever
    the threshold. *)
Theorem ultra_rare_scan_order (gnomad_idx : nat) (t : spec_float) :
  (forall entries entries',
      Permutation entries entries' ->
      ultra_rare_scan py_float gnomad_idx t entries
      = ultra_rare_scan py_float gnomad_idx t entries')
  /\ (forall variant,
        (forall entry, In entry (PyStr.split "," (default "" (INFO_CSQ variant))) ->
                       PyStr.split "|" entry !! gnomad_idx = None) ->
        is_ultra_rare_variant py_float variant gnomad_idx t = false).
Proof.
  split.
  - intros entries entries' HP.
    destruct (ultra_rare_scan py_float gnomad_idx t entries) eqn:E.
    + symmetry. apply ultra_rare_scan_true. apply ultra_rare_scan_true in E.
      destruct E as (entry & Hin & Hr). exists entry. split; [|exact Hr].
      eapply Permutation_in; eassumption.
    + destruct (ultra_rare_scan py_float gnomad_idx t entries') eqn:E'; [|reflexivity].
      apply ultra_rare_scan_true in E'. destruct E' as (entry & Hin & Hr).
      assert (Ht : ultra_rare_scan py_float gnomad_idx t entries = true).
      { apply ultra_rare_scan_true. exists entry. split; [|exact Hr].
        eapply Permutation_in; [symmetry; eassumption | exact Hin]. }
      congruence.
  - intros variant Hnone.
    destruct (is_ultra_rare_variant py_float variant gnomad_idx t) eqn:E; [|reflexivity].
    apply is_ultra_rare_variant_scan in E. destruct E as (_ & entry & Hin & val & Hv & _).
    rewrite (Hnone entry Hin) in Hv. discriminate.
Qed.

End AnnotationMore.

Lemma is_ultra_rare_variant_monotone_witness :
  is_ultra_rare_variant sample_float
    (sample_variant "chr1" 100 (Some "A|x|1e-05")) 2 float_0_5 = true.
Proof.
  apply (proj1 (is_ultra_rare_variant_monotone sample_float 2 float_0_0001 float_0_5
                  ltac:(reflexivity))).
  reflexivity.
Defined.

Lemma ultra_rare_scan_order_witness :
  ultra_rare_scan sample_float 2 float_0_0001 ["A|x|0.5"; "A|y|."]
  = ultra_rare_scan sample_float 2 float_0_0001 ["A|y|."; "A|x|0.5"].
Proof.
  apply (proj1 (ultra_rare_scan_order sample_float 2 float_0_0001)). apply perm_swap.
Defined.

(** ** Sizes of the flank gaps *)

(** The flanks that [main] passes lie more than the cluster distance
    outside the cluster. *)
Lemma main_calls_flanks (cluster_distance : Z) (stream : list Variant) (c : FlushCall) :
  In c (main_calls cluster_distance stream) ->
  (forall p f, fc_prev c = Some p -> head (fc_variants c) = Some f ->
               POS f - p > cluster_distance)
  /\ (forall q, fc_next c = Some q ->
                q - last_position (fc_variants c) > cluster_distance).
Proof.
  intros Hin. destruct (main_calls_inv cluster_distance stream)
    as (_ & _ & _ & Hadj & (c0 & Hc0 & Hp0)).
  apply list_elem_of_In, list_elem_of_lookup in Hin. destruct Hin as [i Hi].
  split.
  - intros p f Hp Hf. destruct i as [|j].
    + rewrite head_lookup in Hc0. rewrite Hc0 in Hi. inversion Hi; subst c0. congruence.
    + destruct (lookup_lt_is_Some_2 (main_calls cluster_distance stream) j) as [c' Hc'].
      { apply lookup_lt_Some in Hi. lia. }
      destruct (adjacent_lookup _ _ j c' c Hadj Hc' Hi) as (f1 & f2 & H1 & H2 & Hcase).
      rewrite Hf in H2. inversion H2; subst f2.
      destruct Hcase as [(_ & _ & Hn) | (_ & Hgap & _ & Hprev)]; [congruence|].
      rewrite Hp in Hprev. inversion Hprev; subst p. exact Hgap.
  - intros q Hq.
    destruct (main_calls cluster_distance stream !! S i) as [c2|] eqn:E2.
    + destruct (adjacent_lookup _ _ i c c2 Hadj Hi E2) as (f1 & f2 & H1 & H2 & Hcase).
      destruct Hcase as [(_ & Hn & _) | (_ & Hgap & Hnext & _)]; [congruence|].
      rewrite Hq in Hnext. inversion Hnext; subst q. exact Hgap.
    + exfalso. apply lookup_ge_None in E2. pose proof (lookup_lt_Some _ _ _ Hi) as Hlt.
      revert Hi E2 Hlt Hq. unfold main_calls.
      destruct (acc_run cluster_distance acc_init stream) as [st calls].
      rewrite length_app. simpl. intros Hi E2 Hlt Hq.
      rewrite lookup_app_r in Hi by lia.
      replace (i - length calls)%nat with 0%nat in Hi by lia.
      simpl in Hi. inversion Hi; subst c. simpl in Hq. discriminate.
Qed.

Lemma adjacent_lookup_Z (d : Z) (variants : list Variant) (k : Z) (a b : Variant) :
  gaps_within d variants -> 0 <= k ->
  variants !! Z.to_nat k = Some a -> variants !! Z.to_nat (k + 1) = Some b ->
  POS b - POS a <= d.
Proof.
  intros Hg Hk Ha Hb. replace (Z.to_nat (k + 1)) with (S (Z.to_nat k)) in Hb by lia.
  exact (adjacent_lookup _ _ _ a b Hg Ha Hb).
Qed.

Section FlankSizes.

Variable py_float : string -> option spec_float.

(** X17: every record in the output of a run is the record that the
    emitter prints for one block of one flushed cluster, and it starts and
    ends at the first and last variant of that block. When the block starts
    (ends) at the edge of its cluster, its left (right) gap is measured to
    the neighbouring cluster and, when present, is larger than the cluster
    distance; otherwise the gap is measured to a variant of the same cluster,
    is present, and is at most the cluster distance. *)
Theorem main_flank_gap_sizes (cfg : Config) (cluster_distance : Z)
    (stream : list Variant) (r : OutputRecord) :
  In r (main py_float cfg cluster_distance stream) ->
  exists c b v0 first last,
    In c (main_calls cluster_distance stream)
    /\ In r (do_flush py_float cfg c)
    /\ head (fc_variants c) = Some v0
    /\ In b (segment (shared_inds (fc_variants c)) (fc_variants c))
    /\ In r (emit_block py_float cfg (fc_variants c) (fc_prev c) (fc_next c)
               (CHROM v0) (Z.of_nat (size (shared_inds (fc_variants c))))
               (inds_str_of (sample_ids cfg) (shared_inds (fc_variants c))) b)
    /\ fc_variants c !! Z.to_nat (b_start b) = Some first
    /\ fc_variants c !! Z.to_nat (b_end b) = Some last
    /\ r_start r = POS first /\ r_end r = POS last
    /\ (b_start b = 0 ->
        r_err_left r = option_map (fun f => r_start r - f) (fc_prev c)
        /\ forall g, r_err_left r = Some g -> g > cluster_distance)
    /\ (b_start b <> 0 ->
        exists p, fc_variants c !! Z.to_nat (b_start b - 1) = Some p
                  /\ r_err_left r = Some (r_start r - POS p)
                  /\ r_start r - POS p <= cluster_distance)
    /\ (b_end b = Z.of_nat (length (fc_variants c)) - 1 ->
        r_err_right r = option_map (fun f => f - r_end r) (fc_next c)
        /\ forall g, r_err_right r = Some g -> g > cluster_distance)
    /\ (b_end b <> Z.of_nat (length (fc_variants c)) - 1 ->
        exists q, fc_variants c !! Z.to_nat (b_end b + 1) = Some q
                  /\ r_err_right r = Some (POS q - r_end r)
                  /\ POS q - r_end r <= cluster_distance).
Proof.
  unfold main. intros Hin. apply in_flat_map in Hin. destruct Hin as (c & Hc & Hr).
  pose proof Hr as Hflush. unfold do_flush in Hr.
  destruct (main_calls_flanks cluster_distance stream c Hc) as [Hprev Hnext].
  pose proof (proj1 (proj2 (main_calls_inv cluster_distance stream))) as Hok.
  rewrite List.Forall_forall in Hok. destruct (Hok c Hc) as [_ Hgaps].
  apply flush_cluster_In_block in Hr.
  destruct Hr as (v0 & b & Hhead & _ & _ & Hb & Hr).
  assert (Hne : fc_variants c <> [])
    by (destruct (fc_variants c); [discriminate | congruence]).
  destruct (segment_blocks_in_range _ _ _ Hb Hne) as (H1 & H2 & H3).
  destruct (emit_block_flanks py_float cfg (fc_variants c) (fc_prev c) (fc_next c)
              _ _ _ b r H1 H2 H3 Hr)
    as (first & last & Hf & Hl & Hs & He & HL0 & HL1 & HR0 & HR1).
  exists c, b, v0, first, last.
  do 9 (split; [assumption|]).
  split; [|split; [|split]].
  - intros Hb0. split; [exact (HL0 Hb0)|].
    intros g Hg. rewrite (HL0 Hb0) in Hg.
    destruct (fc_prev c) as [p|] eqn:Ep; [|discriminate].
    simpl in Hg. inversion Hg; subst g. rewrite Hs.
    apply (Hprev p first eq_refl).
    rewrite Hb0 in Hf. rewrite head_lookup. exact Hf.
  - intros Hb0. destruct (HL1 Hb0) as (p & Hp & Hg).
    exists p. split; [exact Hp|]. split; [exact Hg|]. rewrite Hs.
    apply (adjacent_lookup_Z cluster_distance (fc_variants c) (b_start b - 1) p first Hgaps);
      [lia | exact Hp |].
    replace (b_start b - 1 + 1) with (b_start b) by lia. exact Hf.
  - intros Hbe. split; [exact (HR0 Hbe)|].
    intros g Hg. rewrite (HR0 Hbe) in Hg.
    destruct (fc_next c) as [q|] eqn:Eq; [|discriminate].
    simpl in Hg. inversion Hg; subst g. rewrite He.
    assert (Hlp : last_position (fc_variants c) = POS last).
    { apply last_position_last. rewrite last_lookup.
      replace (pred (length (fc_variants c))) with (Z.to_nat (b_end b)) by lia.
      exact Hl. }
    rewrite <- Hlp. apply Hnext. reflexivity.
  - intros Hbe. destruct (HR1 Hbe) as (q & Hq & Hg).
    exists q. split; [exact Hq|]. split; [exact Hg|]. rewrite He.
    apply (adjacent_lookup_Z cluster_distance (fc_variants c) (b_end b) last q Hgaps);
      [lia | exact Hl | exact Hq].
Qed.

End FlankSizes.

(** The stream of the examples on flank gaps: the mixed cluster, then a
    variant far behind it. *)
Lemma main_flank_gap_sizes_witness :
  exists c b v0 first last,
    In c (main_calls 15 (sample_mixed ++ [sample_variant_hom "chr1" 200])%list)
    /\ In {| r_chrom := "chr1"; r_start := 130; r_end := 130;
             r_n_variants := 1; r_n_individuals := 2; r_individuals := "S1,S2";
             r_mode := Some Double; r_err_left := Some 10; r_err_right := Some 70;
             r_n_ultra_rare := 1; r_filter := "ULTRA_RARE" |}
          (do_flush sample_float (sample_config 2) c)
    /\ head (fc_variants c) = Some v0
    /\ In b (segment (shared_inds (fc_variants c)) (fc_variants c))
    /\ In {| r_chrom := "chr1"; r_start := 130; r_end := 130;
             r_n_variants := 1; r_n_individuals := 2; r_individuals := "S1,S2";
             r_mode := Some Double; r_err_left := Some 10; r_err_right := Some 70;
             r_n_ultra_rare := 1; r_filter := "ULTRA_RARE" |}
          (emit_block sample_float (sample_config 2) (fc_variants c) (fc_prev c) (fc_next c)
             (CHROM v0) (Z.of_nat (size (shared_inds (fc_variants c))))
             (inds_str_of (sample_ids (sample_config 2)) (shared_inds (fc_variants c))) b)
    /\ fc_variants c !! Z.to_nat (b_start b) = Some first
    /\ fc_variants c !! Z.to_nat (b_end b) = Some last
    /\ 130 = POS first /\ 130 = POS last
    /\ (b_start b = 0 ->
        Some 10 = option_map (fun f => 130 - f) (fc_prev c)
        /\ forall g, Some 10 = Some g -> g > 15)
    /\ (b_start b <> 0 ->
        exists p, fc_variants c !! Z.to_nat (b_start b - 1) = Some p
                  /\ Some 10 = Some (130 - POS p)
                  /\ 130 - POS p <= 15)
    /\ (b_end b = Z.of_nat (length (fc_variants c)) - 1 ->
        Some 70 = option_map (fun f => f - 130) (fc_next c)
        /\ forall g, Some 70 = Some g -> g > 15)
    /\ (b_end b <> Z.of_nat (length (fc_variants c)) - 1 ->
        exists q, fc_variants c !! Z.to_nat (b_end b + 1) = Some q
                  /\ Some 70 = Some (POS q - 130)
                  /\ POS q - 130 <= 15).
Proof.
  apply (main_flank_gap_sizes sample_float (sample_config 2) 15
           (sample_mixed ++ [sample_variant_hom "chr1" 200])%list
           {| r_chrom := "chr1"; r_start := 130; r_end := 130;
              r_n_variants := 1; r_n_individuals := 2; r_individuals := "S1,S2";
              r_mode := Some Double; r_err_left := Some 10; r_err_right := Some 70;
              r_n_ultra_rare := 1; r_filter := "ULTRA_RARE" |}).
  vm_compute. right. right. left. reflexivity.
Defined.

(** ** The index of the frequency field *)

Lemma substring_all (s : string) : String.substring 0 (String.length s) s = s.
Proof. induction s as [|c s IH]; simpl; [reflexivity | rewrite IH; reflexivity]. Qed.

Lemma prefix_split (sep s : string) :
  String.prefix sep s = true ->
  s = sep ++ String.substring (String.length sep) (String.length s - String.length sep) s.
Proof.
  revert s. induction sep as [|a sep IH]; intros s.
  - intros _. simpl String.length. rewrite Nat.sub_0_r, substring_all. reflexivity.
  - destruct s as [|c s]; [discriminate|]. simpl String.prefix.
    destruct (Ascii.ascii_dec a c) as [-> | Hne]; [|discriminate].
    intros Hp. change (String c s = String c (sep ++ String.substring (String.length sep)
                         (String.length s - String.length sep) s)).
    f_equal. apply IH. exact Hp.
Qed.

Lemma prefix_app (sep after : string) : String.prefix sep (sep ++ after) = true.
Proof.
  induction sep as [|a sep IH].
  - destruct after; reflexivity.
  - change (String a sep ++ after) with (String a (sep ++ after)). simpl String.prefix.
    destruct (Ascii.ascii_dec a a); [exact IH | congruence].
Qed.

(** The first occurrence cuts the string around the separator. *)
Lemma find_first_Some (sep s before after : string) :
  PyText.find_first sep s = Some (before, after) -> s = before ++ sep ++ after.
Proof.
  revert before after. induction s as [|c s IH]; intros before after;
    cbn [PyText.find_first].
  - destruct (String.prefix sep "") eqn:Ep; [|discriminate].
    intros H. inversion H; subst. apply prefix_split in Ep. exact Ep.
  - destruct (String.prefix sep (String c s)) eqn:Ep.
    + intros H. inversion H; subst. apply prefix_split in Ep. exact Ep.
    + destruct (PyText.find_first sep s) as [[b a]|] eqn:Ef; [|discriminate].
      intros H. inversion H; subst.
      change (String c s = String c (b ++ sep ++ after)).
      f_equal. apply IH. reflexivity.
Qed.

(** There is no first occurrence exactly when the separator does not occur. *)
Lemma find_first_None (sep s : string) :
  PyText.find_first sep s = None <-> ~ occurs_in sep s.
Proof.
  split.
  - intros Hn (before & after & Hs). revert s Hn Hs.
    induction before as [|c before IH]; intros s Hn Hs; subst s.
    + change ("" ++ sep ++ after) with (sep ++ after) in Hn.
      destruct (sep ++ after) eqn:E; cbn [PyText.find_first] in Hn;
        rewrite <- E, prefix_app in Hn; discriminate.
    + change (String c before ++ sep ++ after)
        with (String c (before ++ sep ++ after)) in Hn.
      cbn [PyText.find_first] in Hn.
      destruct (String.prefix sep (String c (before ++ sep ++ after)));
        [discriminate|].
      destruct (PyText.find_first sep (before ++ sep ++ after)) as [[b a]|] eqn:Ef;
        [discriminate|].
      apply (IH _ Ef). reflexivity.
  - intros Hno. destruct (PyText.find_first sep s) as [[b a]|] eqn:Ef; [|reflexivity].
    exfalso. apply Hno. exists b, a. apply find_first_Some. exact Ef.
Qed.

Lemma index_of_Some (x : string) (l : list string) : forall i : nat,
  PyText.index_of x l = Some i <->
  l !! i = Some x /\ forall j, (j < i)%nat -> l !! j <> Some x.
Proof.
  induction l as [|y l IH]; intros i; simpl.
  - split; [discriminate | intros [H _]; discriminate].
  - destruct (String.eqb_spec y x) as [-> | Hne].
    + split.
      * intros H. inversion H; subst. split; [reflexivity | intros j Hj; lia].
      * intros [Hi Hmin]. destruct i as [|i]; [reflexivity|].
        exfalso. apply (Hmin 0%nat); [lia | reflexivity].
    + destruct i as [|i].
      * split.
        -- destruct (PyText.index_of x l); discriminate.
        -- intros [Hi _]. simpl in Hi. congruence.
      * specialize (IH i). split.
        -- destruct (PyText.index_of x l) as [k|]; [|discriminate].
           intros H. inversion H; subst k.
           destruct (proj1 IH eq_refl) as [Hi Hmin].
           split; [exact Hi|]. intros [|j] Hj; simpl; [congruence | apply Hmin; lia].
        -- intros [Hi Hmin]. simpl in Hi.
           assert (Ek : PyText.index_of x l = Some i).
           { apply IH. split; [exact Hi|]. intros j Hj. apply (Hmin (S j)). lia. }
           rewrite Ek. reflexivity.
Qed.

Lemma index_of_None (x : string) (l : list string) :
  PyText.index_of x l = None <-> ~ In x l.
Proof.
  induction l as [|y l IH]; simpl.
  - tauto.
  - destruct (String.eqb_spec y x) as [-> | Hne].
    + split; [discriminate | intros H; exfalso; apply H; auto].
    + destruct (PyText.index_of x l) as [k|].
      * split; [discriminate|]. intros H. exfalso.
        assert (Hn : ~ In x l) by tauto. apply IH in Hn. discriminate.
      * split; [|reflexivity]. intros _ [Heq | Hin]; [congruence|].
        apply (proj1 IH); [reflexivity | exact Hin].
Qed.

(** X18: the resolution of the frequency-field index ends with an
    [IndexError] exactly when the header has no "Format: " in it, with a
    [RuntimeError] exactly when the format list lacks the frequency field,
    and otherwise with the first position of that field in the format
    list. *)
Theorem resolve_gnomad_idx_spec (csq_header : string) :
  (resolve_gnomad_idx csq_header = IndexError <-> ~ occurs_in "Format: " csq_header)
  /\ (resolve_gnomad_idx csq_header = RuntimeError <->
      exists csq_fields, csq_fields_of csq_header = Some csq_fields /\
                         ~ In GNOMAD_FIELD csq_fields)
  /\ (forall i, resolve_gnomad_idx csq_header = Index i <->
      exists csq_fields, csq_fields_of csq_header = Some csq_fields /\
        csq_fields !! i = Some GNOMAD_FIELD /\
        forall j, (j < i)%nat -> csq_fields !! j <> Some GNOMAD_FIELD).
Proof.
  unfold resolve_gnomad_idx.
  assert (Hnone : csq_fields_of csq_header = None <-> ~ occurs_in "Format: " csq_header).
  { unfold csq_fields_of, PyText.split_second. rewrite <- find_first_None.
    destruct (PyText.find_first "Format: " csq_header) as [[b a]|].
    - destruct (PyText.find_first "Format: " a) as [[m r]|]; split; discriminate.
    - tauto. }
  destruct (csq_fields_of csq_header) as [fields|] eqn:Ef.
  - split; [|split].
    + destruct (PyText.index_of GNOMAD_FIELD fields); split; try discriminate;
        intros H; apply Hnone in H; discriminate.
    + destruct (PyText.index_of GNOMAD_FIELD fields) as [k|] eqn:Ek.
      * split; [discriminate|]. intros (fs & Hfs & Hn). inversion Hfs; subst fs.
        apply index_of_None in Hn. congruence.
      * split; [|reflexivity]. intros _. exists fields. split; [reflexivity|].
        apply index_of_None. exact Ek.
    + intros i. destruct (PyText.index_of GNOMAD_FIELD fields) as [k|] eqn:Ek.
      * split.
        -- intros H. inversion H; subst k. exists fields. split; [reflexivity|].
           apply index_of_Some. exact Ek.
        -- intros (fs & Hfs & Hi). inversion Hfs; subst fs.
           apply index_of_Some in Hi. congruence.
      * split; [discriminate|]. intros (fs & Hfs & Hi). inversion Hfs; subst fs.
        apply index_of_Some in Hi. congruence.
  - split; [|split].
    + split; [intros _; apply Hnone; reflexivity | reflexivity].
    + split; [discriminate | intros (fs & Hfs & _); discriminate].
    + intros i. split; [discriminate | intros (fs & Hfs & _); discriminate].
Qed.

Example resolve_gnomad_idx_examples :
  resolve_gnomad_idx sample_csq_header = Index 2
  /\ resolve_gnomad_idx "Consequence annotations" = IndexError
  /\ resolve_gnomad_idx "Annotations. Format: Allele|Consequence" = RuntimeError.
Proof. repeat split; reflexivity. Qed.

(** ** The count of true matches *)

Lemma split_nonempty (sep : ascii) (s : string) : PyStr.split sep s <> [].
Proof.
  destruct s as [|c s]; simpl; [discriminate|].
  destruct (Ascii.eqb c sep); [discriminate|].
  destruct (PyStr.split sep s); discriminate.
Qed.

(** A list gives a set of one element exactly when it is not empty and
    its members are all equal. *)
Lemma size_list_to_set_one (l : list string) :
  size (list_to_set l : gset string) = 1%nat <->
  l <> [] /\ forall x y, In x l -> In y l -> x = y.
Proof.
  split.
  - intros Hs. split.
    + intros ->. rewrite list_to_set_nil, size_empty in Hs. discriminate.
    + intros x y Hx Hy.
      apply (size_singleton_inv (list_to_set l : gset string)); [exact Hs | |];
        apply elem_of_list_to_set, list_elem_of_In; assumption.
  - intros [Hne Heq]. destruct l as [|x l]; [congruence|].
    assert (Hset : (list_to_set (x :: l) : gset string) = {[x]}).
    { apply set_eq. intros y. rewrite elem_of_list_to_set, elem_of_singleton, list_elem_of_In.
      split.
      - intros Hy. apply Heq; [exact Hy | left; reflexivity].
      - intros ->. left. reflexivity. }
    rewrite Hset. apply size_singleton.
Qed.

Lemma count_true_matches_fold (l : list string) : forall acc : nat,
  foldl (fun true_matches inds =>
           if is_true_match inds then S true_matches else true_matches) acc l
  = (acc + length (List.filter is_true_match l))%nat.
Proof.
  induction l as [|inds l IH]; intros acc; simpl; [lia|].
  rewrite IH. destruct (is_true_match inds); simpl; lia.
Qed.

(** X19: the summary script counts a region as a true match exactly when
    the ids between the commas of its list of individuals all start with the
    same five characters; a list with no comma in it, and so any region with
    a single individual, is always a true match; the number of true matches
    is the number of regions that pass this test and never exceeds the
    total. *)
Theorem is_true_match_spec :
  (forall inds,
      is_true_match inds = true <->
      forall id id', In id (PyStr.split "," inds) -> In id' (PyStr.split "," inds) ->
                     PyText.take_chars 5 id = PyText.take_chars 5 id')
  /\ (forall inds, PyStr.mem "," inds = false -> is_true_match inds = true)
  /\ (forall individuals,
        fst (count_true_matches individuals) = length individuals
        /\ snd (count_true_matches individuals)
           = length (List.filter is_true_match individuals)
        /\ (snd (count_true_matches individuals)
            <= fst (count_true_matches individuals))%nat).
Proof.
  assert (Hspec : forall inds,
      is_true_match inds = true <->
      forall id id', In id (PyStr.split "," inds) -> In id' (PyStr.split "," inds) ->
                     PyText.take_chars 5 id = PyText.take_chars 5 id').
  { intros inds. unfold is_true_match. rewrite Nat.eqb_eq, size_list_to_set_one. split.
    - intros [_ Heq] id id' Hid Hid'. apply Heq; apply in_map; assumption.
    - intros Heq. split.
      + intros Hnil. apply map_eq_nil in Hnil. revert Hnil. apply split_nonempty.
      + intros x y Hx Hy. apply in_map_iff in Hx. apply in_map_iff in Hy.
        destruct Hx as (id & <- & Hid). destruct Hy as (id' & <- & Hid').
        apply Heq; assumption. }
  split; [exact Hspec|]. split.
  - intros inds Hno. apply Hspec. rewrite (split_no_sep "," inds Hno).
    intros id id' [<- | []] [<- | []]. reflexivity.
  - intros individuals. unfold count_true_matches. simpl.
    rewrite count_true_matches_fold. simpl.
    split; [reflexivity|]. split; [reflexivity | apply filter_length_le].
Qed.

Lemma is_true_match_spec_witness :
  is_true_match "WG0091" = true.
Proof.
  apply (proj1 (proj2 is_true_match_spec) "WG0091"). reflexivity.
Defined.

Example is_true_match_examples :
  is_true_match "WG0091,WG0094" = true
  /\ is_true_match "WG0091,WG0225" = false
  /\ count_true_matches ["WG0091,WG0094"; "WG0091,WG0225"; "WG0600"] = (3%nat, 2%nat).
Proof. repeat split; vm_compute; reflexivity. Qed.

(** ** Carriers, totals and tighter configurations *)

(** X20: an individual is a carrier of a variant exactly when one of the
    first two entries of its genotype list is positive; entries after the
    second, such as the phase flag of a two-allele call, are never looked at;
    every carrier is the index of a sample, and there are no more carriers
    than samples. *)
Theorem variant_carriers_spec (v : Variant) :
  (forall i, i ∈ variant_carriers v <->
     exists gts, genotypes v !! i = Some gts /\
       exists allele, In allele (take 2 gts) /\ allele > 0)
  /\ (forall i a b rest, genotypes v !! i = Some (a :: b :: rest) ->
        (i ∈ variant_carriers v <-> a > 0 \/ b > 0))
  /\ (forall i a, genotypes v !! i = Some [a] -> (i ∈ variant_carriers v <-> a > 0))
  /\ (forall i, i ∈ variant_carriers v -> (i < length (genotypes v))%nat)
  /\ (size (variant_carriers v) <= length (genotypes v))%nat.
Proof.
  assert (Hc : forall gts, is_carrier gts = true <->
            exists allele, In allele (take 2 gts) /\ allele > 0).
  { intros gts. unfold is_carrier. rewrite existsb_exists. split.
    - intros (a & Ha & Hp). exists a. split; [exact Ha|].
      destruct (Z.gtb_spec a 0); [lia | discriminate].
    - intros (a & Ha & Hp). exists a. split; [exact Ha|].
      destruct (Z.gtb_spec a 0); [reflexivity | lia]. }
  assert (Hm : forall i, i ∈ variant_carriers v <->
     exists gts, genotypes v !! i = Some gts /\
       exists allele, In allele (take 2 gts) /\ allele > 0).
  { intros i. rewrite elem_of_variant_carriers. split.
    - intros (gts & Hg & Hcar). exists gts. split; [exact Hg | apply Hc; exact Hcar].
    - intros (gts & Hg & Hcar). exists gts. split; [exact Hg | apply Hc; exact Hcar]. }
  split; [exact Hm|]. split; [|split; [|split]].
  - intros i a b rest Hg. rewrite Hm. split.
    + intros (gts & Hg' & x & Hx & Hp). rewrite Hg in Hg'. inversion Hg'; subst gts.
      simpl in Hx. destruct Hx as [<- | [<- | []]]; auto.
    + intros [Ha | Hb]; exists (a :: b :: rest); (split; [exact Hg|]).
      * exists a. split; [left; reflexivity | exact Ha].
      * exists b. split; [right; left; reflexivity | exact Hb].
  - intros i a Hg. rewrite Hm. split.
    + intros (gts & Hg' & x & Hx & Hp). rewrite Hg in Hg'. inversion Hg'; subst gts.
      simpl in Hx. destruct Hx as [<- | []]. exact Hp.
    + intros Ha. exists [a]. split; [exact Hg|].
      exists a. split; [left; reflexivity | exact Ha].
  - apply variant_carriers_lt.
  - rewrite <- (size_set_seq (C := gset nat) 0 (length (genotypes v))).
    apply subseteq_size. intros i Hi. apply elem_of_set_seq.
    apply variant_carriers_lt in Hi. lia.
Qed.

Section Totals.

Variable py_float : string -> option spec_float.

Lemma emit_block_total (cfg : Config) (variants : list Variant)
    (prev next : option Z) (chrom : string) (n_shared : Z) (inds_str : string)
    (b : Block) :
  0 <= b_start b -> b_start b <= b_end b -> b_end b < Z.of_nat (length variants) ->
  total_variants (emit_block py_float cfg variants prev next chrom n_shared inds_str b)
  <= block_size b.
Proof.
  intros H1 H2 H3.
  pose proof (emit_block_length py_float cfg variants prev next chrom n_shared inds_str b) as Hlen.
  pose proof (emit_block_sound py_float cfg variants prev next chrom n_shared inds_str b) as Hs.
  destruct (emit_block py_float cfg variants prev next chrom n_shared inds_str b)
    as [|r [|r' rs]].
  - unfold total_variants, block_size. simpl. lia.
  - destruct (Hs r H1 H2 H3 ltac:(left; reflexivity)) as (_ & _ & _ & _ & _ & Hn & _).
    unfold total_variants. simpl. lia.
  - simpl in Hlen. lia.
Qed.

Lemma total_variants_app (l1 l2 : list OutputRecord) :
  total_variants (l1 ++ l2) = total_variants l1 + total_variants l2.
Proof.
  unfold total_variants. induction l1 as [|r l1 IH]; simpl; [reflexivity|].
  rewrite IH. lia.
Qed.

Lemma flush_cluster_total (cfg : Config) (variants : list Variant)
    (prev next : option Z) :
  total_variants (flush_cluster py_float cfg variants prev next)
  <= Z.of_nat (length variants).
Proof.
  unfold flush_cluster. destruct variants as [|v0 rest]; [unfold total_variants; simpl; lia|].
  destruct (_ <? min_individuals cfg); [unfold total_variants; simpl; lia|].
  destruct (opt_gt _ _); [unfold total_variants; simpl; lia|].
  set (variants := v0 :: rest).
  destruct (segment_chain (shared_inds variants) variants ltac:(discriminate)) as [Hchain _].
  pose proof (blocks_chain_sizes _ _ _ Hchain) as Hsum.
  assert (Hrange : Forall (fun b => 0 <= b_start b /\ b_start b <= b_end b /\
                                    b_end b < Z.of_nat (length variants))
                          (segment (shared_inds variants) variants)).
  { apply List.Forall_forall. intros b Hb.
    apply (segment_blocks_in_range _ _ _ Hb). discriminate. }
  replace (Z.of_nat (length variants))
    with (fold_right Z.add 0 (map block_size (segment (shared_inds variants) variants)))
    by lia.
  clear Hsum Hchain.
  induction Hrange as [|b bs (H1 & H2 & H3) _ IH]; simpl;
    [unfold total_variants; simpl; lia|].
  rewrite total_variants_app.
  pose proof (emit_block_total cfg variants prev next (CHROM v0)
                (Z.of_nat (size (shared_inds variants)))
                (inds_str_of (sample_ids cfg) (shared_inds variants)) b H1 H2 H3).
  lia.
Qed.

(** X21: no variant is counted in two records: the numbers of variants of
    the records of a cluster add up to at most the size of the cluster, and
    over a whole run to at most the number of variants of the stream. *)
Theorem main_output_total (cfg : Config) (cluster_distance : Z) (stream : list Variant) :
  (forall variants prev next,
      total_variants (flush_cluster py_float cfg variants prev next)
      <= Z.of_nat (length variants))
  /\ total_variants (main py_float cfg cluster_distance stream)
     <= Z.of_nat (length stream).
Proof.
  split; [intros; apply flush_cluster_total|].
  unfold main. rewrite <- (proj1 (main_calls_inv cluster_distance stream)) at 2.
  induction (main_calls cluster_distance stream) as [|c cs IH]; simpl.
  - unfold total_variants. simpl. lia.
  - rewrite total_variants_app, length_app. unfold do_flush at 1.
    pose proof (flush_cluster_total cfg (fc_variants c) (fc_prev c) (fc_next c)). lia.
Qed.

End Totals.

Lemma variant_carriers_spec_witness :
  1%nat ∈ variant_carriers (sample_variant "chr1" 100 None).
Proof.
  apply (proj1 (proj2 (variant_carriers_spec (sample_variant "chr1" 100 None)))
           1%nat 0 1 [0] ltac:(reflexivity)).
  right. lia.
Defined.

(** ** Tighter configurations print fewer records *)

Section Stricter.

Variable py_float : string -> option spec_float.

Lemma overlaps_gene_region_incl (chrom : string) (start end_ : Z)
    (regions regions' : list GeneRegion) :
  (forall region, In region regions' -> In region regions) ->
  overlaps_gene_region chrom start end_ regions' = true ->
  overlaps_gene_region chrom start end_ regions = true.
Proof.
  intros Hincl. rewrite !overlaps_gene_region_true.
  intros (rc & rs & re & Hin & Hrest). exists rc, rs, re. split; [|exact Hrest].
  apply Hincl. exact Hin.
Qed.

Lemma emit_block_stricter (cfg' cfg : Config) (variants : list Variant)
    (prev next : option Z) (chrom : string) (n_shared : Z) (inds_str : string)
    (b : Block) (r : OutputRecord) :
  stricter cfg' cfg ->
  In r (emit_block py_float cfg' variants prev next chrom n_shared inds_str b) ->
  In r (emit_block py_float cfg variants prev next chrom n_shared inds_str b).
Proof.
  intros (_ & Hidx & Hthr & Hreg & _ & Hmv & Hur & _ & Hlo & Hhi).
  destruct b as [[s e] m]. unfold emit_block. rewrite Hidx, Hthr.
  set (block_vars := PyList.slice variants s (e + 1)).
  set (len := pos_at block_vars (-1) - pos_at block_vars 0).
  set (n_ur := Z.of_nat (length (List.filter
        (fun v => is_ultra_rare_variant py_float v (gnomad_idx cfg) (af_threshold cfg))
        block_vars))).
  destruct (Z.ltb_spec (Z.of_nat (length block_vars)) (min_variants cfg')) as [? | Hmv'];
    [intros []|].
  destruct (opt_lt len (min_segment_length cfg')) eqn:Elo'; [intros []|].
  destruct (opt_gt len (max_segment_length cfg')) eqn:Ehi'; [intros []|].
  destruct (overlaps_gene_region chrom (pos_at block_vars 0) (pos_at block_vars (-1))
              (gene_regions cfg')) eqn:Eov'; [|intros []].
  destruct (Z.ltb_spec n_ur (min_ultra_rare cfg')) as [? | Hur']; [intros []|].
  cbn [orb negb].
  destruct (Z.ltb_spec (Z.of_nat (length block_vars)) (min_variants cfg)) as [? | _];
    [lia|].
  assert (Elo : opt_lt len (min_segment_length cfg) = false).
  { destruct (min_segment_length cfg) as [m0|] eqn:E0; [|reflexivity].
    destruct (Hlo m0 eq_refl) as (m' & Hm' & Hle). rewrite Hm' in Elo'. simpl in *.
    apply Z.ltb_ge in Elo'. apply Z.ltb_ge. lia. }
  assert (Ehi : opt_gt len (max_segment_length cfg) = false).
  { destruct (max_segment_length cfg) as [m0|] eqn:E0; [|reflexivity].
    destruct (Hhi m0 eq_refl) as (m' & Hm' & Hle). rewrite Hm' in Ehi'. simpl in *.
    destruct (Z.gtb_spec len m'); [discriminate|].
    destruct (Z.gtb_spec len m0); [lia | reflexivity]. }
  rewrite Elo, Ehi, (overlaps_gene_region_incl _ _ _ _ _ Hreg Eov'). cbn [orb negb].
  destruct (Z.ltb_spec n_ur (min_ultra_rare cfg)) as [? | _]; [lia|].
  intros H. exact H.
Qed.

(** X22: a configuration that is tighter in its bounds and has no gene
    region that the other lacks prints a subset of the records: every record
    printed for a cluster, and every record of a whole run, under the tighter
    configuration is printed unchanged under the looser one. *)
Theorem stricter_config_prints_less (cfg' cfg : Config) :
  stricter cfg' cfg ->
  (forall variants prev next r,
      In r (flush_cluster py_float cfg' variants prev next) ->
      In r (flush_cluster py_float cfg variants prev next))
  /\ (forall cluster_distance stream r,
        In r (main py_float cfg' cluster_distance stream) ->
        In r (main py_float cfg cluster_distance stream)).
Proof.
  intros Hs.
  assert (Hflush : forall variants prev next r,
      In r (flush_cluster py_float cfg' variants prev next) ->
      In r (flush_cluster py_float cfg variants prev next)).
  { intros variants prev next r Hin.
    apply flush_cluster_In_block in Hin.
    destruct Hin as (v0 & b & Hhead & Hmin & Hmax & Hb & Hr).
    destruct variants as [|w rest]; [discriminate|].
    simpl in Hhead. inversion Hhead; subst w.
    pose proof Hs as (Hids & _ & _ & _ & Hmi & _ & _ & Hma & _).
    rewrite flush_cluster_pass.
    - apply in_flat_map. exists b. split; [exact Hb|].
      rewrite <- Hids. apply (emit_block_stricter cfg' cfg); assumption.
    - lia.
    - intros m Hm. destruct (Hma m Hm) as (m' & Hm' & Hle).
      specialize (Hmax m' Hm'). lia. }
  split; [exact Hflush|].
  intros cluster_distance stream r. unfold main. rewrite !in_flat_map.
  intros (c & Hc & Hr). exists c. split; [exact Hc|]. apply Hflush. exact Hr.
Qed.

End Stricter.

Lemma stricter_config_prints_less_witness :
  In {| r_chrom := "chr1"; r_start := 120; r_end := 120;
        r_n_variants := 1; r_n_individuals := 2; r_individuals := "S1,S2";
        r_mode := Some Single; r_err_left := Some 10; r_err_right := Some 10;
        r_n_ultra_rare := 0; r_filter := "ULTRA_RARE" |}
     (flush_cluster sample_float (sample_config 1) sample_mixed (Some 40) None).
Proof.
  apply (proj1 (stricter_config_prints_less sample_float (sample_config 2) (sample_config 1)
           ltac:(unfold stricter; simpl; repeat split; auto; try lia;
                 try (intros m Hm; discriminate);
                 intros m Hm; exists m; split; [exact Hm | lia]))).
  vm_compute. right. left. reflexivity.
Defined.

(** ** The cohort file and the labels of its patients *)

Lemma contains_occurs (sub s : string) :
  PyWs.contains sub s = true <-> occurs_in sub s.
Proof.
  unfold PyWs.contains. destruct (PyText.find_first sub s) as [[b a]|] eqn:Ef.
  - split; [|reflexivity]. intros _. exists b, a. apply find_first_Some. exact Ef.
  - split; [discriminate|]. intros Ho. apply find_first_None in Ef. contradiction.
Qed.

Lemma label_of_Some (category label : string) :
  Ndm.label_of category = Some label <->
  occurs_in "NDM" category /\
  label = (if String.prefix "Solved_NDM" category then "Solved NDM" else "Unsolved NDM").
Proof.
  unfold Ndm.label_of. rewrite <- contains_occurs.
  destruct (PyWs.contains "NDM" category).
  - split; [intros H; inversion H; auto | intros [_ ->]; reflexivity].
  - split; [discriminate | intros [H _]; discriminate].
Qed.

(** What one line of the cohort file does to the mapping. *)
Lemma load_line_lookup (m : gmap string string) (line p : string) :
  Ndm.load_line m line !! p
  = match PyStr.split PyWs.tab (PyWs.strip line) with
    | patient :: category :: _ =>
        match Ndm.label_of category with
        | Some label => if String.eqb patient p then Some label else m !! p
        | None => m !! p
        end
    | _ => m !! p
    end.
Proof.
  unfold Ndm.load_line.
  destruct (PyStr.split PyWs.tab (PyWs.strip line)) as [|patient [|category rest]];
    try reflexivity.
  destruct (Ndm.label_of category) as [label|]; [|reflexivity].
  destruct (String.eqb_spec patient p) as [-> | Hne].
  - apply lookup_insert_eq.
  - apply lookup_insert_ne. exact Hne.
Qed.

Lemma load_snoc (lines : list string) (line : string) :
  Ndm.load_disease_mapping (lines ++ [line])
  = Ndm.load_line (Ndm.load_disease_mapping lines) line.
Proof. unfold Ndm.load_disease_mapping. rewrite foldl_app. reflexivity. Qed.

(** The loader writes no label other than its two. *)
Lemma load_two_labels (lines : list string) :
  Ndm.two_labels (Ndm.load_disease_mapping lines).
Proof.
  induction lines as [|line lines IH] using rev_ind.
  - intros p d H. change (Ndm.load_disease_mapping []) with (∅ : gmap string string) in H.
    rewrite lookup_empty in H. discriminate.
  - rewrite load_snoc. intros p d. rewrite load_line_lookup.
    destruct (PyStr.split PyWs.tab (PyWs.strip line)) as [|patient [|category rest]];
      try apply IH.
    destruct (Ndm.label_of category) as [label|] eqn:El; [|apply IH].
    destruct (String.eqb patient p); [|apply IH].
    intros H. inversion H; subst d. apply label_of_Some in El.
    destruct El as [_ ->]. destruct (String.prefix _ _); auto.
Qed.

(** A line that does not give [p] a label: it has no second field, or its
    first field is not [p], or "NDM" does not occur in its second field. *)
Lemma load_line_frame (m : gmap string string) (line p : string) :
  (forall category rest,
      PyStr.split PyWs.tab (PyWs.strip line) = p :: category :: rest ->
      ~ occurs_in "NDM" category) ->
  Ndm.load_line m line !! p = m !! p.
Proof.
  intros Hno. rewrite load_line_lookup.
  destruct (PyStr.split PyWs.tab (PyWs.strip line)) as [|patient [|category rest]];
    try reflexivity.
  destruct (Ndm.label_of category) as [label|] eqn:El; [|reflexivity].
  destruct (String.eqb_spec patient p) as [-> | Hne]; [|reflexivity].
  exfalso. apply (Hno category rest eq_refl). apply label_of_Some in El. apply El.
Qed.

(** A line that gives [p] a label, then lines that do not. *)
Lemma load_last_decides (pre post : list string) (line p category : string)
    (rest : list string) :
  PyStr.split PyWs.tab (PyWs.strip line) = p :: category :: rest ->
  occurs_in "NDM" category ->
  (forall later, In later post ->
     forall category' rest',
       PyStr.split PyWs.tab (PyWs.strip later) = p :: category' :: rest' ->
       ~ occurs_in "NDM" category') ->
  Ndm.load_disease_mapping (pre ++ line :: post) !! p
  = Some (if String.prefix "Solved_NDM" category
          then "Solved NDM" else "Unsolved NDM").
Proof.
  intros Hs Hocc. induction post as [|later post IH] using rev_ind; intros Hpost.
  - rewrite load_snoc, load_line_lookup, Hs.
    assert (Hl : Ndm.label_of category = Some
              (if String.prefix "Solved_NDM" category then "Solved NDM" else "Unsolved NDM"))
      by (apply label_of_Some; auto).
    rewrite Hl, String.eqb_refl. reflexivity.
  - replace (pre ++ line :: post ++ [later])%list
      with ((pre ++ line :: post) ++ [later])%list
      by (rewrite <- app_assoc; reflexivity).
    rewrite load_snoc, load_line_frame.
    + apply IH. intros l Hl. apply Hpost. apply in_or_app. left. exact Hl.
    + apply Hpost. apply in_or_app. right. left. reflexivity.
Qed.

(** X23: the mapping that [load_disease_mapping] builds holds no label
    other than "Solved NDM" and "Unsolved NDM"; a patient is in it exactly
    when some line of the file, stripped and cut at the tabs, has the
    patient as its first field and a second field in which "NDM" occurs; the
    last such line decides the label, wherever it stands in the file, and
    the label is "Solved NDM" exactly when that second field starts with
    "Solved_NDM"; a further line that is not such a line for the patient
    leaves the patient's entry, present or absent, as it was. *)
Theorem load_disease_mapping_spec (lines : list string) :
  Ndm.two_labels (Ndm.load_disease_mapping lines)
  /\ (forall p, is_Some (Ndm.load_disease_mapping lines !! p) <->
        exists line category rest,
          In line lines /\
          PyStr.split PyWs.tab (PyWs.strip line) = p :: category :: rest /\
          occurs_in "NDM" category)
  /\ (forall pre line post p category rest,
        lines = (pre ++ line :: post)%list ->
        PyStr.split PyWs.tab (PyWs.strip line) = p :: category :: rest ->
        occurs_in "NDM" category ->
        (forall later, In later post ->
           forall category' rest',
             PyStr.split PyWs.tab (PyWs.strip later) = p :: category' :: rest' ->
             ~ occurs_in "NDM" category') ->
        Ndm.load_disease_mapping lines !! p
        = Some (if String.prefix "Solved_NDM" category
                then "Solved NDM" else "Unsolved NDM"))
  /\ (forall line p,
        (forall category rest,
            PyStr.split PyWs.tab (PyWs.strip line) = p :: category :: rest ->
            ~ occurs_in "NDM" category) ->
        Ndm.load_disease_mapping (lines ++ [line]) !! p
        = Ndm.load_disease_mapping lines !! p).
Proof.
  split; [apply load_two_labels|]. split; [|split].
  - induction lines as [|line lines IH] using rev_ind; intros p.
    + change (Ndm.load_disease_mapping []) with (∅ : gmap string string).
      rewrite lookup_empty. split; [intros [? H]; discriminate|].
      intros (l & c & r & [] & _).
    + rewrite load_snoc, load_line_lookup.
      assert (Hold : is_Some (Ndm.load_disease_mapping lines !! p) ->
                exists line0 category rest, In line0 (lines ++ [line]) /\
                  PyStr.split PyWs.tab (PyWs.strip line0) = p :: category :: rest /\
                  occurs_in "NDM" category).
      { intros H. apply IH in H. destruct H as (l & c & r & Hin & Hrest).
        exists l, c, r. split; [apply in_or_app; left; exact Hin | exact Hrest]. }
      split.
      * destruct (PyStr.split PyWs.tab (PyWs.strip line)) as [|patient [|category rest]] eqn:Es;
          try exact Hold.
        destruct (Ndm.label_of category) as [label|] eqn:El; [|exact Hold].
        destruct (String.eqb_spec patient p) as [-> | Hne]; [|exact Hold].
        intros _. exists line, category, rest.
        split; [apply in_or_app; right; left; reflexivity|].
        split; [exact Es|]. apply label_of_Some in El. apply El.
      * intros (l & c & r & Hin & Hs & Hocc).
        apply in_app_or in Hin. destruct Hin as [Hin | [<- | []]].
        -- assert (Hp : is_Some (Ndm.load_disease_mapping lines !! p)).
           { apply IH. exists l, c, r. auto. }
           destruct (PyStr.split PyWs.tab (PyWs.strip line)) as [|patient [|category rest]];
             try exact Hp.
           destruct (Ndm.label_of category); [|exact Hp].
           destruct (String.eqb patient p); [eexists; reflexivity | exact Hp].
        -- rewrite Hs.
           destruct (Ndm.label_of c) as [label|] eqn:El.
           ++ rewrite String.eqb_refl. eexists. reflexivity.
           ++ exfalso. assert (Hl : Ndm.label_of c = Some
                 (if String.prefix "Solved_NDM" c then "Solved NDM" else "Unsolved NDM"))
                by (apply label_of_Some; auto).
              congruence.
  - intros pre line post p category rest -> Hs Hocc Hpost.
    apply (load_last_decides pre post line p category rest Hs Hocc Hpost).
  - intros line p Hno. rewrite load_snoc. apply load_line_frame. exact Hno.
Qed.

Lemma load_disease_mapping_spec_witness :
  Ndm.load_disease_mapping
    [ tsv_line ["WG0091"; "Unsolved_NDM"]; tsv_line ["WG0091"; "Solved_NDM_Chr19"];
      tsv_line ["WG0999"; "Unsolved_NDM"]; tsv_line ["WG0091"; "MODY"] ]
    !! "WG0091" = Some "Solved NDM".
Proof.
  apply (proj1 (proj2 (proj2 (load_disease_mapping_spec
           [ tsv_line ["WG0091"; "Unsolved_NDM"]; tsv_line ["WG0091"; "Solved_NDM_Chr19"];
             tsv_line ["WG0999"; "Unsolved_NDM"]; tsv_line ["WG0091"; "MODY"] ])))
           [ tsv_line ["WG0091"; "Unsolved_NDM"] ]
           (tsv_line ["WG0091"; "Solved_NDM_Chr19"])
           [ tsv_line ["WG0999"; "Unsolved_NDM"]; tsv_line ["WG0091"; "MODY"] ]
           "WG0091" "Solved_NDM_Chr19" []).
  - reflexivity.
  - vm_compute. reflexivity.
  - exists "Solved_", "_Chr19". reflexivity.
  - intros later [<- | [<- | []]] category' rest' Hs; vm_compute in Hs.
    + discriminate.
    + inversion Hs; subst category' rest'. intros Ho.
      apply contains_occurs in Ho. vm_compute in Ho. discriminate.
Defined.

(** ** Regions shared by patients of the cohort *)

Lemma incr_get0 (disease key : string) (counts : list (string * Z)) :
  Ndm.get0 key (Ndm.incr disease counts)
  = Ndm.get0 key counts + (if String.eqb disease key then 1 else 0).
Proof.
  induction counts as [|[k n] rest IH]; simpl.
  - rewrite (String.eqb_sym disease key).
    destruct (String.eqb key disease); reflexivity.
  - destruct (String.eqb_spec k disease) as [-> | Hkd]; simpl.
    + destruct (String.eqb_spec disease key); lia.
    + destruct (String.eqb_spec k key) as [-> | Hkk].
      * destruct (String.eqb_spec disease key); [congruence | lia].
      * exact IH.
Qed.

Lemma incr_keys (disease : string) (counts : list (string * Z)) :
  map fst (Ndm.incr disease counts)
  = if bool_decide (disease ∈ map fst counts) then map fst counts
    else (map fst counts ++ [disease])%list.
Proof.
  induction counts as [|[k n] rest IH].
  - reflexivity.
  - cbn [Ndm.incr map fst]. destruct (String.eqb_spec k disease) as [-> | Hkd].
    + clear IH. cbn [map fst]. case_bool_decide as H1; [reflexivity|].
      exfalso. apply H1. apply list_elem_of_here.
    + cbn [map fst]. rewrite IH. clear IH.
      destruct (decide (disease ∈ map fst rest)) as [Hin | Hin].
      * rewrite (bool_decide_eq_true_2 _ Hin).
        rewrite bool_decide_eq_true_2 by (apply list_elem_of_further; exact Hin).
        reflexivity.
      * rewrite (bool_decide_eq_false_2 _ Hin).
        rewrite bool_decide_eq_false_2; [reflexivity|].
        intros H. apply elem_of_cons in H. destruct H as [-> | H]; [congruence | auto].
Qed.

(** The counter after the loop over the diseases of the patients. *)
Lemma counts_fold (ds : list string) : forall counts : list (string * Z),
  NoDup (map fst counts) ->
  let counts' := foldl (fun c d => Ndm.incr d c) counts ds in
  NoDup (map fst counts')
  /\ (forall key, Ndm.get0 key counts' = Ndm.get0 key counts + occurrences_of key ds)
  /\ (forall key, key ∈ map fst counts' <-> key ∈ map fst counts \/ key ∈ ds)
  /\ (counts <> [] -> head (map fst counts') = head (map fst counts)).
Proof.
  induction ds as [|d ds IH]; intros counts Hnd; simpl.
  - split; [exact Hnd|]. split; [intros; unfold occurrences_of; simpl; lia|].
    split; [|reflexivity]. intros key. rewrite elem_of_nil. tauto.
  - assert (Hnd' : NoDup (map fst (Ndm.incr d counts))).
    { rewrite incr_keys. case_bool_decide as Hin; [exact Hnd|].
      apply NoDup_app. split; [exact Hnd|]. split.
      - intros x Hx Hx'. apply list_elem_of_singleton in Hx'. subst x. contradiction.
      - apply NoDup_singleton. }
    destruct (IH (Ndm.incr d counts) Hnd') as (H1 & H2 & H3 & H4).
    split; [exact H1|]. split; [|split].
    + intros key. rewrite H2, incr_get0. unfold occurrences_of. simpl.
      rewrite (String.eqb_sym key d). destruct (String.eqb d key); simpl; lia.
    + intros key. rewrite H3, incr_keys, elem_of_cons. case_bool_decide as Hin.
      * split; [intros [? | ?]; auto|]. intros [? | [-> | ?]]; auto.
      * rewrite elem_of_app, list_elem_of_singleton. tauto.
    + intros Hne. rewrite H4.
      * rewrite incr_keys. case_bool_decide; [reflexivity|].
        destruct counts; [congruence | reflexivity].
      * destruct counts as [|[k n] rest]; [congruence|]. simpl.
        destruct (String.eqb k d); discriminate.
Qed.

Lemma foldl_map_incr (m : gmap string string) (patients : list string) :
  forall counts,
  foldl (fun counts p => Ndm.incr (Ndm.disease_of m p) counts) counts patients
  = foldl (fun c d => Ndm.incr d c) counts (map (Ndm.disease_of m) patients).
Proof. induction patients as [|p ps IH]; intros counts; simpl; [reflexivity | apply IH]. Qed.

Lemma occurrences_of_pos (key : string) (ds : list string) :
  0 <= occurrences_of key ds /\ (0 < occurrences_of key ds <-> key ∈ ds).
Proof.
  unfold occurrences_of. induction ds as [|d ds [_ IH]]; simpl.
  - split; [lia|]. rewrite elem_of_nil. lia.
  - destruct (String.eqb_spec key d) as [-> | Hne]; simpl.
    + split; [lia|]. split; [intros _; apply list_elem_of_here | lia].
    + split; [lia|]. rewrite IH, elem_of_cons. tauto.
Qed.

Lemma occurrences_of_two (ds : list string) :
  Forall (fun d => d = "Solved NDM" \/ d = "Unsolved NDM") ds ->
  occurrences_of "Solved NDM" ds + occurrences_of "Unsolved NDM" ds
  = Z.of_nat (length ds).
Proof.
  unfold occurrences_of. induction 1 as [|d ds Hd _ IH]; [reflexivity|].
  cbn [List.filter length].
  destruct Hd as [-> | ->].
  - change (String.eqb "Solved NDM" "Solved NDM") with true.
    change (String.eqb "Unsolved NDM" "Solved NDM") with false.
    cbn [length]. lia.
  - change (String.eqb "Solved NDM" "Unsolved NDM") with false.
    change (String.eqb "Unsolved NDM" "Unsolved NDM") with true.
    cbn [length]. lia.
Qed.

(** The status computed from the counter of a list of diseases that is
    not empty and holds the two labels only. *)
Lemma status_of_counts (ds : list string) :
  ds <> [] ->
  Forall (fun d => d = "Solved NDM" \/ d = "Unsolved NDM") ds ->
  let counts := foldl (fun c d => Ndm.incr d c) [] ds in
  let status := if (1 <? length counts)%nat then "Mixed"
                else default "" (fst <$> head counts) in
  Ndm.get0 "Solved NDM" counts = occurrences_of "Solved NDM" ds
  /\ Ndm.get0 "Unsolved NDM" counts = occurrences_of "Unsolved NDM" ds
  /\ (status = "Mixed" <-> "Solved NDM" ∈ ds /\ "Unsolved NDM" ∈ ds)
  /\ (status = "Solved NDM" <-> "Unsolved NDM" ∉ ds)
  /\ (status = "Unsolved NDM" <-> "Solved NDM" ∉ ds).
Proof.
  intros Hne Hall counts status.
  destruct (counts_fold ds [] ltac:(constructor)) as (Hnd & Hget & Hkeys & _).
  fold counts in Hnd, Hget, Hkeys.
  assert (Hhead : head (map fst counts) = head ds).
  { destruct ds as [|d ds]; [congruence|]. unfold counts. simpl.
    destruct (counts_fold ds [(d, 1)] ltac:(repeat constructor; apply not_elem_of_nil))
      as (_ & _ & _ & Hh).
    rewrite (Hh ltac:(discriminate)). reflexivity. }
  assert (Hk : forall key, key ∈ map fst counts <-> key ∈ ds).
  { intros key. rewrite Hkeys. simpl. rewrite elem_of_nil. tauto. }
  split; [rewrite Hget; simpl; lia|]. split; [rewrite Hget; simpl; lia|].
  assert (Hin2 : forall d, d ∈ ds -> d = "Solved NDM" \/ d = "Unsolved NDM").
  { intros d Hd. rewrite List.Forall_forall in Hall. apply Hall.
    apply list_elem_of_In. exact Hd. }
  assert (Hlen : length counts = length (map fst counts)) by (rewrite length_map; reflexivity).
  assert (Hhd : fst <$> head counts = head (map fst counts)) by (destruct counts; reflexivity).
  subst status. rewrite Hhd, Hhead, Hlen. clear Hhd Hlen Hget Hkeys.
  destruct (map fst counts) as [|a [|b keys]] eqn:Ek.
  - exfalso. destruct ds as [|d ds]; [congruence|].
    assert (Hd : d ∈ ([] : list string)) by (apply Hk; apply list_elem_of_here).
    apply elem_of_nil in Hd. exact Hd.
  - simpl. destruct ds as [|d ds]; [congruence|]. simpl in Hhead. inversion Hhead; subst a.
    simpl. assert (Hd : forall k, k ∈ d :: ds -> k = d).
    { intros k Hkin. apply Hk in Hkin. apply list_elem_of_singleton in Hkin. exact Hkin. }
    destruct (Hin2 d (list_elem_of_here _ _)) as [-> | ->].
    + split; [|split].
      * split; [discriminate|]. intros [_ H]. apply Hd in H. discriminate.
      * split; [|reflexivity]. intros _ H. apply Hd in H. discriminate.
      * split; [discriminate|]. intros H. exfalso. apply H. apply list_elem_of_here.
    + split; [|split].
      * split; [discriminate|]. intros [H _]. apply Hd in H. discriminate.
      * split; [discriminate|]. intros H. exfalso. apply H. apply list_elem_of_here.
      * split; [|reflexivity]. intros _ H. apply Hd in H. discriminate.
  - simpl. apply NoDup_cons in Hnd. destruct Hnd as [Hab Hnd].
    assert (Ha : a ∈ ds) by (apply Hk; apply list_elem_of_here).
    assert (Hb : b ∈ ds) by (apply Hk; apply list_elem_of_further, list_elem_of_here).
    assert (Hne' : a <> b).
    { intros ->. apply Hab. apply list_elem_of_here. }
    assert (Hboth : "Solved NDM" ∈ ds /\ "Unsolved NDM" ∈ ds).
    { destruct (Hin2 a Ha) as [-> | ->], (Hin2 b Hb) as [-> | ->];
        try congruence; auto. }
    split; [|split].
    + split; [intros _; exact Hboth | reflexivity].
    + split; [discriminate | intros H; exfalso; apply H; apply Hboth].
    + split; [discriminate | intros H; exfalso; apply H; apply Hboth].
Qed.

(** The record made from a line, for a mapping with the two labels. *)
Lemma region_of_line_spec (m : gmap string string) (line : string) (r : Ndm.Region) :
  Ndm.two_labels m ->
  Ndm.region_of_line m line = Some r ->
  1 <= Ndm.N_Patients r
  /\ 0 <= Ndm.Solved_NDM r /\ 0 <= Ndm.Unsolved_NDM r
  /\ Ndm.Solved_NDM r + Ndm.Unsolved_NDM r = Ndm.N_Patients r
  /\ (Ndm.Status r = "Mixed" <-> 0 < Ndm.Solved_NDM r /\ 0 < Ndm.Unsolved_NDM r)
  /\ (Ndm.Status r = "Solved NDM" <-> Ndm.Unsolved_NDM r = 0)
  /\ (Ndm.Status r = "Unsolved NDM" <-> Ndm.Solved_NDM r = 0).
Proof.
  intros Htwo. unfold Ndm.region_of_line.
  set (parts := PyStr.split PyWs.tab (PyWs.strip line)).
  destruct (6 <=? length parts)%nat; [|discriminate].
  set (patients := List.filter (fun p => bool_decide (is_Some (m !! p)))
                     (PyStr.split "," (default "" (parts !! 5%nat)))).
  destruct (Nat.ltb_spec 0 (length patients)) as [Hlen | ?]; [|discriminate].
  intros H. inversion H; subst r; clear H. cbn [Ndm.N_Patients Ndm.Solved_NDM
    Ndm.Unsolved_NDM Ndm.Status].
  rewrite foldl_map_incr.
  set (ds := map (Ndm.disease_of m) patients).
  assert (Hne : ds <> []).
  { unfold ds. destruct patients; [simpl in Hlen; lia | discriminate]. }
  assert (Hall : Forall (fun d => d = "Solved NDM" \/ d = "Unsolved NDM") ds).
  { unfold ds. apply Forall_map. apply List.Forall_forall. intros p Hp.
    unfold patients in Hp. apply filter_In in Hp. destruct Hp as [_ Hp].
    apply bool_decide_eq_true in Hp. destruct Hp as [d Hd].
    unfold Ndm.disease_of. rewrite Hd. simpl. apply (Htwo p d Hd). }
  destruct (status_of_counts ds Hne Hall) as (Hs & Hu & Hmixed & Hsol & Huns).
  rewrite Hs, Hu.
  pose proof (occurrences_of_two ds Hall) as Hsum.
  assert (Hdl : length ds = length patients) by (unfold ds; apply length_map).
  destruct (occurrences_of_pos "Solved NDM" ds) as [Hs0 Hsp].
  destruct (occurrences_of_pos "Unsolved NDM" ds) as [Hu0 Hup].
  split; [lia|]. split; [exact Hs0|]. split; [exact Hu0|]. split; [lia|].
  split; [|split].
  - rewrite Hmixed, Hsp, Hup. reflexivity.
  - rewrite Hsol, <- Hup. lia.
  - rewrite Huns, <- Hsp. lia.
Qed.

(** X24: every row that [process_shared_regions] makes with the mapping of
    [load_disease_mapping] has one patient at least, its two counts add up to
    the number of its patients, its status is "Mixed" exactly when both
    counts are positive, "Solved NDM" exactly when no patient is unsolved and
    "Unsolved NDM" exactly when none is solved; there are no more rows than
    lines. *)
Theorem process_shared_regions_spec (cohort lines : list string) :
  (forall r, In r (Ndm.process_shared_regions lines (Ndm.load_disease_mapping cohort)) ->
     1 <= Ndm.N_Patients r
     /\ 0 <= Ndm.Solved_NDM r /\ 0 <= Ndm.Unsolved_NDM r
     /\ Ndm.Solved_NDM r + Ndm.Unsolved_NDM r = Ndm.N_Patients r
     /\ (Ndm.Status r = "Mixed" <-> 0 < Ndm.Solved_NDM r /\ 0 < Ndm.Unsolved_NDM r)
     /\ (Ndm.Status r = "Solved NDM" <-> Ndm.Unsolved_NDM r = 0)
     /\ (Ndm.Status r = "Unsolved NDM" <-> Ndm.Solved_NDM r = 0))
  /\ (length (Ndm.process_shared_regions lines (Ndm.load_disease_mapping cohort))
      <= length lines)%nat.
Proof.
  split.
  - intros r Hin. unfold Ndm.process_shared_regions in Hin.
    apply list_elem_of_In in Hin. apply list_elem_of_omap in Hin.
    destruct Hin as (line & _ & Hr).
    apply (region_of_line_spec _ line r (load_two_labels cohort) Hr).
  - unfold Ndm.process_shared_regions.
    induction lines as [|line lines IH]; [simpl; lia|].
    cbn -[Ndm.region_of_line Ndm.load_disease_mapping].
    destruct (Ndm.region_of_line _ line); cbn [length]; lia.
Qed.

Lemma process_shared_regions_spec_witness :
  1 <= 2 /\ 0 <= 1 /\ 0 <= 1 /\ 1 + 1 = 2
  /\ ("Mixed" = "Mixed" <-> 0 < 1 /\ 0 < 1)
  /\ ("Mixed" = "Solved NDM" <-> 1 = 0)
  /\ ("Mixed" = "Unsolved NDM" <-> 1 = 0).
Proof.
  apply (proj1 (process_shared_regions_spec sample_cohort sample_regions)
           {| Ndm.Chromosome := "chr1"; Ndm.Start := "100"; Ndm.End_ := "110";
              Ndm.Region_name := "chr1:100-110"; Ndm.N_Patients := 2;
              Ndm.Solved_NDM := 1; Ndm.Unsolved_NDM := 1;
              Ndm.Patients := "WG0091, WG0999";
              Ndm.Patient_Diseases := "WG0091(Solved NDM), WG0999(Unsolved NDM)";
              Ndm.Status := "Mixed" |}).
  vm_compute. left. reflexivity.
Defined.

(** ** The match status of a list of patients *)

Lemma genes_fold (l : list string) : forall genes : gset string,
  foldl (fun genes ind => {[ PatientMatch.gene_of ind ]} ∪ genes) genes l
  = list_to_set (map PatientMatch.gene_of l) ∪ genes.
Proof.
  induction l as [|ind l IH]; intros genes; cbn [foldl map].
  - rewrite list_to_set_nil, union_empty_l_L. reflexivity.
  - rewrite IH, list_to_set_cons. apply set_eq. intros x.
    rewrite !elem_of_union. tauto.
Qed.

Lemma get_match_status_true (inds : list string) :
  PatientMatch.get_match_status inds = "TRUE_MATCH" <->
  inds <> [] /\
  forall a b, In a inds -> In b inds -> PatientMatch.gene_of a = PatientMatch.gene_of b.
Proof.
  unfold PatientMatch.get_match_status. rewrite genes_fold, union_empty_r_L.
  destruct (Nat.eqb_spec (size (list_to_set (map PatientMatch.gene_of inds) : gset string)) 1)
    as [Hs | Hs].
  - apply size_list_to_set_one in Hs. destruct Hs as [Hne Heq].
    split; [|reflexivity]. intros _. split.
    + intros ->. apply Hne. reflexivity.
    + intros a b Ha Hb. apply Heq; apply in_map; assumption.
  - split; [discriminate|]. intros [Hne Heq]. exfalso. apply Hs.
    apply size_list_to_set_one. split.
    + intros Hnil. apply map_eq_nil in Hnil. contradiction.
    + intros x y Hx Hy. apply in_map_iff in Hx. apply in_map_iff in Hy.
      destruct Hx as (a & <- & Ha). destruct Hy as (b & <- & Hb). apply Heq; assumption.
Qed.

(** X25: [get_match_status] answers "TRUE_MATCH" exactly when the list is
    not empty and all its patients have the same gene, where a patient
    outside the table has the gene "UNKNOWN", and "NO_MATCH" otherwise; so the
    empty list is no match, and a list of patients that are all outside the
    table is a true match. The list built from a cell holds no empty string,
    and the count of true matches does not exceed the number of rows. *)
Theorem get_match_status_spec :
  (forall inds,
      PatientMatch.get_match_status inds = "TRUE_MATCH" <->
      inds <> [] /\
      forall a b, In a inds -> In b inds ->
                  PatientMatch.gene_of a = PatientMatch.gene_of b)
  /\ (forall inds, PatientMatch.get_match_status inds = "TRUE_MATCH"
                   \/ PatientMatch.get_match_status inds = "NO_MATCH")
  /\ PatientMatch.get_match_status [] = "NO_MATCH"
  /\ (forall inds, inds <> [] ->
        (forall a, In a inds -> PatientMatch.patient_regions !! a = None) ->
        PatientMatch.get_match_status inds = "TRUE_MATCH")
  /\ (forall inds_str, ~ In "" (PatientMatch.inds_list inds_str))
  /\ (forall inds_strs,
        fst (PatientMatch.process_file inds_strs) = length inds_strs
        /\ (snd (PatientMatch.process_file inds_strs)
            <= fst (PatientMatch.process_file inds_strs))%nat).
Proof.
  split; [exact get_match_status_true|]. split; [|split; [|split; [|split]]].
  - intros inds. unfold PatientMatch.get_match_status.
    destruct (Nat.eqb _ 1); auto.
  - reflexivity.
  - intros inds Hne Hout. apply get_match_status_true. split; [exact Hne|].
    intros a b Ha Hb. unfold PatientMatch.gene_of.
    rewrite (Hout a Ha), (Hout b Hb). reflexivity.
  - intros inds_str Hin. unfold PatientMatch.inds_list in Hin.
    apply in_map_iff in Hin. destruct Hin as (i & Hi & Hf).
    apply filter_In in Hf. destruct Hf as [_ Hf]. rewrite Hi in Hf. discriminate.
  - intros inds_strs. unfold PatientMatch.process_file. cbn [fst snd].
    split; [reflexivity|].
    etransitivity; [apply filter_length_le|]. rewrite length_map. lia.
Qed.

Lemma get_match_status_spec_witness :
  PatientMatch.get_match_status ["X1"; "X2"] = "TRUE_MATCH".
Proof.
  apply (proj1 (proj2 (proj2 (proj2 get_match_status_spec))) ["X1"; "X2"]).
  - discriminate.
  - intros a [<- | [<- | []]]; vm_compute; reflexivity.
Defined.

Example get_match_status_examples :
  PatientMatch.get_match_status (PatientMatch.inds_list " WG0091 , WG0094,, ") = "TRUE_MATCH"
  /\ PatientMatch.get_match_status ["WG0153"; "WG0158"] = "NO_MATCH"
  /\ PatientMatch.get_match_status ["WG0091"; "X1"] = "NO_MATCH"
  /\ PatientMatch.process_file ["WG0091,WG0094"; "WG0091,WG0225"; ""; "A,B"] = (4%nat, 2%nat).
Proof. repeat split; vm_compute; reflexivity. Qed.
